(** * The interactive upgrade workflow of the MarkLogic operator

    A shallow embedding of [internal/handler] (the upgrade handler, the
    precheck handler and the rolling-upgrade handler) together with the
    properties of the upgrade state machine that the specification states.

    Conventions of the embedding.
    - A Go [string] is a [string]; a [map[string]string] is a
      [gmap string string], and reading a missing key gives the empty string
      as in Go ([get]).  A nil map and an empty map behave alike for every
      read the handlers make, and the handlers replace a nil map by a fresh
      one before they write, so both are the empty [gmap].
    - A Go slice is a [list]; [for _, x := range xs] is a structural
      recursion over it.
    - The handlers work on a pointer to the cluster object and talk to the
      API server, the event recorder and the clock.  All of that is the
      [World], threaded through a state monad [M]; a Go function returning
      [(ctrl.Result, error)] is an [M (Result * option error)].
    - Logging has no effect on any result and is left out. *)

From Stdlib Require Import ZArith NArith String Ascii List Bool Lia.
From Stdlib Require Import DecimalString DecimalZ.
From stdpp Require Import gmap strings list fin_maps.

Local Open Scope string_scope.
Local Open Scope list_scope.
Set Warnings "-register-all".

(** ** Strings and numbers *)

(** [m[k]] on a Go map: the zero value when the key is missing. *)
Definition get (m : gmap string string) (k : string) : string :=
  default EmptyString (m !! k).

(** [%d] of [fmt.Sprintf] and the integers of [encoding/json]. *)
Definition string_of_Z (z : Z) : string :=
  NilZero.string_of_int (Z.to_int z).

(** ** time.Time

    A [time.Time] is presented by what [Date], [Clock], [Nanosecond] and
    [Zone] return: the civil date and time of day in the value's own zone,
    and that zone's offset east of UTC in seconds.  The monotonic clock
    reading and the zone's name are not part of the model. *)

Record Time := {
  year : Z; month : Z; day : Z;
  hour : Z; minute : Z; second : Z;
  nanosecond : Z;
  zoneOffset : Z
}.

(** Days between 1970-01-01 and the given civil date (proleptic Gregorian
    calendar). *)
Definition days_from_civil (y m d : Z) : Z :=
  let y' := (if m <=? 2 then y - 1 else y)%Z in
  let era := (y' / 400)%Z in
  let yoe := (y' - era * 400)%Z in
  let mp := (if m <=? 2 then m + 9 else m - 3)%Z in
  let doy := ((153 * mp + 2) / 5 + d - 1)%Z in
  let doe := (yoe * 365 + yoe / 4 - yoe / 100 + doy)%Z in
  (era * 146097 + doe - 719468)%Z.

(** [t.UnixNano()], without the saturation of [int64]. *)
Definition unixNano (t : Time) : Z :=
  (((days_from_civil (year t) (month t) (day t) * 86400
     + hour t * 3600 + minute t * 60 + second t - zoneOffset t)
    * 1000000000) + nanosecond t)%Z.

(** [time.Duration] counts nanoseconds. *)
Definition Millisecond : Z := 1000000.
Definition Second : Z := 1000000000.
Definition Minute : Z := 60000000000.

(** ** The precheck report (precheck_handler.go) *)

Record PrecheckResult := {
  pr_Name : string;
  pr_Status : string;          (* PASS, WARN or FAIL *)
  pr_Message : string;
  pr_Details : string;
  pr_Timestamp : Time;
  pr_Duration : string;
  pr_Remediation : string
}.

Record PrecheckSummary := {
  Total : Z;
  Passed : Z;
  Warnings : Z;
  Failed : Z;
  CanProceed : bool
}.

Record PrecheckResults := {
  Results : list PrecheckResult;
  Summary : PrecheckSummary;
  Timestamp : Time;
  ClusterRef : string
}.

(** ** encoding/json, as far as the report uses it

    [ToJSON] and [PrecheckResultsFromJSON] are one-line wrappers of
    [json.Marshal] and [json.Unmarshal]; what the repository contributes is
    the shape of the three structs and their field tags.  The codec itself is
    modelled after the documented behaviour of the Go library: a document is
    a tree of raw tokens ([json]), [render] writes the compact text that
    [Marshal] produces, and the encoders below follow the struct tags. *)

Inductive json :=
| JNull
| JBool (b : bool)
| JNum (literal : string)          (* the number as written *)
| JStr (raw : string)              (* the text between the quotes, still escaped *)
| JArr (elements : list json)
| JObj (members : list (string * json)).   (* keys are raw as well *)

Definition quote : ascii := ascii_of_N 34.
Definition backslash : ascii := ascii_of_N 92.

Definition str1 (c : ascii) : string := String c EmptyString.

Definition hex_digit (n : N) : ascii :=
  ascii_of_N (if (n <? 10)%N then 48 + n else 87 + n).

(** [\u00XX] *)
Definition escape_u (n : N) : string :=
  String backslash (String "u" (String "0" (String "0"
    (String (hex_digit (n / 16)) (str1 (hex_digit (n mod 16))))))).

(** One byte of a string value, as [Marshal] writes it (HTML escaping is
    on).  Bytes from 0x80 on are copied: the replacement of invalid UTF-8 by
    U+FFFD and the escapes of U+2028 and U+2029 are left out. *)
Definition escape_byte (c : ascii) : string :=
  let n := N_of_ascii c in
  if (n =? 34)%N || (n =? 92)%N then String backslash (str1 c)
  else if (n =? 8)%N then String backslash "b"
  else if (n =? 12)%N then String backslash "f"
  else if (n =? 10)%N then String backslash "n"
  else if (n =? 13)%N then String backslash "r"
  else if (n =? 9)%N then String backslash "t"
  else if (n <? 32)%N || (n =? 60)%N || (n =? 62)%N || (n =? 38)%N
       then escape_u n
  else str1 c.

Fixpoint escape (s : string) : string :=
  match s with
  | EmptyString => EmptyString
  | String c r => escape_byte c +:+ escape r
  end.

Section RenderList.

(** How a value is written. *)
Variable f : json -> string.

(** The elements of an array after the opening bracket. *)
Fixpoint render_elements (l : list json) : string :=
  match l with
  | [] => "]"
  | x :: r =>
      match r with
      | [] => f x +:+ "]"
      | _ => f x +:+ "," +:+ render_elements r
      end
  end.

(** The members of an object after the opening brace. *)
Fixpoint render_members (l : list (string * json)) : string :=
  match l with
  | [] => "}"
  | (k, v) :: r =>
      match r with
      | [] => String quote (k +:+ String quote (":" +:+ f v +:+ "}"))
      | _ => String quote (k +:+ String quote (":" +:+ f v +:+ "," +:+ render_members r))
      end
  end.

End RenderList.

(** The compact text of a document. *)
Fixpoint render (j : json) : string :=
  match j with
  | JNull => "null"
  | JBool true => "true"
  | JBool false => "false"
  | JNum l => l
  | JStr raw => String quote (raw +:+ str1 quote)
  | JArr l => "[" +:+ render_elements render l
  | JObj l => "{" +:+ render_members render l
  end.

(** *** time.Time as RFC 3339 text *)

Definition digit (z : Z) : ascii := ascii_of_N (48 + Z.to_N z).

(** [w] decimal digits of [z], zero padded. *)
Fixpoint digits (w : nat) (z : Z) : string :=
  match w with
  | O => EmptyString
  | S w' => digits w' (z / 10) +:+ str1 (digit (z mod 10))
  end.

(** The fraction of a second: nine digits without the trailing zeros. *)
Fixpoint fraction (w : nat) (ns : Z) : string :=
  match w with
  | O => EmptyString
  | S w' => if (ns mod 10 =? 0)%Z then fraction w' (ns / 10) else digits w ns
  end.

Definition format_zone (offset : Z) : string :=
  if (offset =? 0)%Z then "Z"
  else
    let zone := Z.quot offset 60 in
    let sign := if (zone <? 0)%Z then "-" else "+" in
    let zone := Z.abs zone in
    sign +:+ digits 2 (zone / 60) +:+ ":" +:+ digits 2 (zone mod 60).

(** [Time.MarshalJSON] without the quotes: the layout
    2006-01-02T15:04:05.999999999Z07:00.  It fails for a year outside
    0..9999 and for a zone offset of a day or more. *)
Definition format_time (t : Time) : option string :=
  if (year t <? 0)%Z || (9999 <? year t)%Z then None
  else if (86400 <=? Z.abs (zoneOffset t))%Z then None
  else
    let frac := fraction 9 (nanosecond t) in
    Some (digits 4 (year t) +:+ "-" +:+ digits 2 (month t) +:+ "-" +:+
          digits 2 (day t) +:+ "T" +:+ digits 2 (hour t) +:+ ":" +:+
          digits 2 (minute t) +:+ ":" +:+ digits 2 (second t) +:+
          (match frac with
           | EmptyString => EmptyString
           | _ => "." +:+ frac
           end) +:+
          format_zone (zoneOffset t)).

(** *** The encoders of the three structs, field by field as tagged *)

Definition enc_string (s : string) : json := JStr (escape s).
Definition enc_int (z : Z) : json := JNum (string_of_Z z).

Definition enc_time (t : Time) : option json :=
  match format_time t with
  | Some s => Some (JStr s)
  | None => None
  end.

(** A field tagged [omitempty] is left out when it is the empty string. *)
Definition omitempty (k : string) (s : string) : list (string * json) :=
  match s with
  | EmptyString => []
  | _ => [(k, enc_string s)]
  end.

Definition enc_PrecheckResult (r : PrecheckResult) : option json :=
  match enc_time (pr_Timestamp r) with
  | None => None
  | Some ts =>
      Some (JObj ([("name", enc_string (pr_Name r));
                   ("status", enc_string (pr_Status r));
                   ("message", enc_string (pr_Message r))]
                  ++ omitempty "details" (pr_Details r)
                  ++ [("timestamp", ts);
                      ("duration", enc_string (pr_Duration r))]
                  ++ omitempty "remediation" (pr_Remediation r)))
  end.

Definition enc_PrecheckSummary (s : PrecheckSummary) : json :=
  JObj [("total", enc_int (Total s));
        ("passed", enc_int (Passed s));
        ("warnings", enc_int (Warnings s));
        ("failed", enc_int (Failed s));
        ("canProceed", JBool (CanProceed s))].

Fixpoint enc_results (l : list PrecheckResult) : option (list json) :=
  match l with
  | [] => Some []
  | r :: rest =>
      match enc_PrecheckResult r with
      | None => None
      | Some j =>
          match enc_results rest with
          | None => None
          | Some js => Some (j :: js)
          end
      end
  end.

Definition enc_PrecheckResults (r : PrecheckResults) : option json :=
  match enc_results (Results r) with
  | None => None
  | Some rs =>
      match enc_time (Timestamp r) with
      | None => None
      | Some ts =>
          Some (JObj [("results", JArr rs);
                      ("summary", enc_PrecheckSummary (Summary r));
                      ("timestamp", ts);
                      ("clusterRef", enc_string (ClusterRef r))])
      end
  end.

(** *** Reading a document

    [json.Unmarshal] first checks that the text is one JSON value, with
    white space allowed around every token, and then stores it into the
    struct.  [parse_document] is the first step: it returns the tree of raw
    tokens.  The recursion is on a fuel that is twice the length of the text,
    which is more than any text needs.  The limit of 10000 on the nesting
    depth is not modelled. *)

Definition is_ws (c : ascii) : bool :=
  let n := N_of_ascii c in
  ((n =? 32) || (n =? 9) || (n =? 10) || (n =? 13))%N.

Fixpoint skip_ws (s : string) : string :=
  match s with
  | EmptyString => s
  | String c r => if is_ws c then skip_ws r else s
  end.

Definition is_digit (c : ascii) : bool :=
  let n := N_of_ascii c in ((48 <=? n) && (n <=? 57))%N.

Definition is_hex (c : ascii) : bool :=
  let n := N_of_ascii c in
  (((48 <=? n) && (n <=? 57)) || ((97 <=? n) && (n <=? 102))
   || ((65 <=? n) && (n <=? 70)))%N.

(** The characters that may follow a backslash, [u] apart. *)
Definition is_simple_escape (c : ascii) : bool :=
  let n := N_of_ascii c in
  ((n =? 34) || (n =? 92) || (n =? 47) || (n =? 98) || (n =? 102)
   || (n =? 110) || (n =? 114) || (n =? 116))%N.

Definition prepend (p : string) (r : option (string * string))
  : option (string * string) :=
  match r with
  | Some (raw, rest) => Some (p +:+ raw, rest)
  | None => None
  end.

(** The text after an opening quote: the raw string up to the closing
    quote, and what follows it. *)
Fixpoint scan_string (s : string) : option (string * string) :=
  match s with
  | EmptyString => None
  | String c r =>
      if Ascii.eqb c quote then Some (EmptyString, r)
      else if Ascii.eqb c backslash then
        match r with
        | EmptyString => None
        | String e r' =>
            if Ascii.eqb e "u" then
              match r' with
              | String h1 (String h2 (String h3 (String h4 r''))) =>
                  if is_hex h1 && is_hex h2 && is_hex h3 && is_hex h4
                  then prepend (String c (String e (String h1 (String h2
                                  (String h3 (str1 h4))))))
                               (scan_string r'')
                  else None
              | _ => None
              end
            else if is_simple_escape e
                 then prepend (String c (str1 e)) (scan_string r')
            else None
        end
      else if (N_of_ascii c <? 32)%N then None
      else prepend (str1 c) (scan_string r)
  end.

(** The longest prefix of digits, and the rest. *)
Fixpoint span_digits (s : string) : string * string :=
  match s with
  | EmptyString => (EmptyString, s)
  | String c r =>
      if is_digit c then
        let '(ds, rest) := span_digits r in (String c ds, rest)
      else (EmptyString, s)
  end.

(** [s] starts with the character [c]: what follows it. *)
Definition starts (c : ascii) (s : string) : option string :=
  match s with
  | String d r => if Ascii.eqb d c then Some r else None
  | EmptyString => None
  end.

(** One digit or more, and the rest. *)
Definition some_digits (s : string) : option (string * string) :=
  match span_digits s with
  | (EmptyString, _) => None
  | (ds, rest) => Some (ds, rest)
  end.

(** The integer part of a number: a zero, or a digit from 1 to 9 followed
    by any digits. *)
Definition scan_int_part (s : string) : option (string * string) :=
  match s with
  | String c r =>
      if Ascii.eqb c "0" then Some ("0", r)
      else if is_digit c then
        let '(ds, rest) := span_digits r in Some (String c ds, rest)
      else None
  | EmptyString => None
  end.

(** The optional fraction: a point and one digit or more. *)
Definition scan_frac_part (s : string) : option (string * string) :=
  match starts "." s with
  | Some r =>
      match some_digits r with
      | Some (fs, rest) => Some ("." +:+ fs, rest)
      | None => None
      end
  | None => Some (EmptyString, s)
  end.

(** The optional exponent: an [e] or [E], an optional sign and one digit or
    more. *)
Definition scan_exp_part (s : string) : option (string * string) :=
  match s with
  | String e r =>
      if Ascii.eqb e "e" || Ascii.eqb e "E" then
        let '(sg, r) :=
          match starts "+" r, starts "-" r with
          | Some r', _ => ("+", r')
          | None, Some r' => ("-", r')
          | None, None => (EmptyString, r)
          end in
        match some_digits r with
        | Some (es, rest) => Some (str1 e +:+ sg +:+ es, rest)
        | None => None
        end
      else Some (EmptyString, s)
  | EmptyString => Some (EmptyString, s)
  end.

(** A number: an optional minus sign, the integer part, the optional
    fraction and the optional exponent. *)
Definition scan_number (s : string) : option (string * string) :=
  let '(sign, s) :=
    match starts "-" s with
    | Some r => ("-", r)
    | None => (EmptyString, s)
    end in
  match scan_int_part s with
  | None => None
  | Some (i, s) =>
      match scan_frac_part s with
      | None => None
      | Some (f, s) =>
          match scan_exp_part s with
          | None => None
          | Some (e, s) => Some (sign +:+ i +:+ f +:+ e, s)
          end
      end
  end.

(** [s] starts with [p]: what follows it. *)
Fixpoint expect (p s : string) : option string :=
  match p with
  | EmptyString => Some s
  | String c p' =>
      match s with
      | String d s' => if Ascii.eqb c d then expect p' s' else None
      | EmptyString => None
      end
  end.

Fixpoint parse_value (fuel : nat) (s : string) : option (json * string) :=
  match fuel with
  | O => None
  | S fuel =>
      match skip_ws s with
      | EmptyString => None
      | String c r =>
          if Ascii.eqb c "{" then
            match starts "}" (skip_ws r) with
            | Some r' => Some (JObj [], r')
            | None =>
                match parse_members fuel r with
                | Some (ms, r') => Some (JObj ms, r')
                | None => None
                end
            end
          else if Ascii.eqb c "[" then
            match starts "]" (skip_ws r) with
            | Some r' => Some (JArr [], r')
            | None =>
                match parse_elements fuel r with
                | Some (vs, r') => Some (JArr vs, r')
                | None => None
                end
            end
          else if Ascii.eqb c quote then
            match scan_string r with
            | Some (raw, r') => Some (JStr raw, r')
            | None => None
            end
          else if Ascii.eqb c "t" then
            match expect "rue" r with
            | Some r' => Some (JBool true, r')
            | None => None
            end
          else if Ascii.eqb c "f" then
            match expect "alse" r with
            | Some r' => Some (JBool false, r')
            | None => None
            end
          else if Ascii.eqb c "n" then
            match expect "ull" r with
            | Some r' => Some (JNull, r')
            | None => None
            end
          else
            match scan_number (String c r) with
            | Some (l, r') => Some (JNum l, r')
            | None => None
            end
      end
  end
with parse_elements (fuel : nat) (s : string) : option (list json * string) :=
  match fuel with
  | O => None
  | S fuel =>
      match parse_value fuel s with
      | None => None
      | Some (v, r) =>
          match starts "," (skip_ws r) with
          | Some r' =>
              match parse_elements fuel r' with
              | Some (vs, r'') => Some (v :: vs, r'')
              | None => None
              end
          | None =>
              match starts "]" (skip_ws r) with
              | Some r' => Some ([v], r')
              | None => None
              end
          end
      end
  end
with parse_members (fuel : nat) (s : string)
  : option (list (string * json) * string) :=
  match fuel with
  | O => None
  | S fuel =>
      match starts quote (skip_ws s) with
      | None => None
      | Some r =>
          match scan_string r with
          | None => None
          | Some (key, r1) =>
              match starts ":" (skip_ws r1) with
              | None => None
              | Some r2 =>
                  match parse_value fuel r2 with
                  | None => None
                  | Some (v, r3) =>
                      match starts "," (skip_ws r3) with
                      | Some r4 =>
                          match parse_members fuel r4 with
                          | Some (ms, r5) => Some ((key, v) :: ms, r5)
                          | None => None
                          end
                      | None =>
                          match starts "}" (skip_ws r3) with
                          | Some r4 => Some ([(key, v)], r4)
                          | None => None
                          end
                      end
                  end
              end
          end
      end
  end.

Definition parse_document (s : string) : option json :=
  match parse_value (2 * String.length s + 2) s with
  | Some (j, rest) =>
      match skip_ws rest with
      | EmptyString => Some j
      | _ => None
      end
  | None => None
  end.

(** *** Storing a document into the structs

    The second step of [json.Unmarshal].  A key selects the field whose tag
    it equals when letter case is ignored (no two tags of a struct differ in
    case alone, so the exact match that Go tries first selects the same
    field); only the case of ASCII letters is folded.  A key that selects no
    field is skipped, a [null] leaves the field as it is, a later member for
    the same field is stored over the earlier one, and a value of the wrong
    kind is an error.  The error itself is not modelled: the result is
    [None] for every input that makes [Unmarshal] return an error. *)

Definition hex_value (c : ascii) : N :=
  let n := N_of_ascii c in
  (if n <=? 57 then n - 48 else if n <=? 70 then n - 55 else n - 87)%N.

Definition hex4 (h1 h2 h3 h4 : ascii) : N :=
  (((hex_value h1 * 16 + hex_value h2) * 16 + hex_value h3) * 16 + hex_value h4)%N.

(** The UTF-8 encoding of a code point. *)
Definition utf8_encode (cp : N) : string :=
  (if cp <? 128 then str1 (ascii_of_N cp)
   else if cp <? 2048 then
     String (ascii_of_N (192 + cp / 64)) (str1 (ascii_of_N (128 + cp mod 64)))
   else if cp <? 65536 then
     String (ascii_of_N (224 + cp / 4096))
       (String (ascii_of_N (128 + (cp / 64) mod 64))
          (str1 (ascii_of_N (128 + cp mod 64))))
   else
     String (ascii_of_N (240 + cp / 262144))
       (String (ascii_of_N (128 + (cp / 4096) mod 64))
          (String (ascii_of_N (128 + (cp / 64) mod 64))
             (str1 (ascii_of_N (128 + cp mod 64))))))%N.

(** U+FFFD, which stands for half a surrogate pair. *)
Definition replacement : string := utf8_encode 65533.

Definition is_high_surrogate (cp : N) : bool := ((55296 <=? cp) && (cp <? 56320))%N.
Definition is_low_surrogate (cp : N) : bool := ((56320 <=? cp) && (cp <? 57344))%N.

(** The character that a simple escape stands for. *)
Definition unescape (e : ascii) : ascii :=
  let n := N_of_ascii e in
  (if n =? 98 then ascii_of_N 8
   else if n =? 102 then ascii_of_N 12
   else if n =? 110 then ascii_of_N 10
   else if n =? 114 then ascii_of_N 13
   else if n =? 116 then ascii_of_N 9
   else e)%N.

(** The string that a raw token stands for.  Raw tokens come from
    [scan_string], so every backslash is followed by a valid escape.  Bytes
    from 0x80 on are copied, as in [escape_byte]. *)
Fixpoint unquote (s : string) : string :=
  match s with
  | EmptyString => EmptyString
  | String c r =>
      if Ascii.eqb c backslash then
        match r with
        | EmptyString => EmptyString
        | String e r' =>
            if Ascii.eqb e "u" then
              match r' with
              | String h1 (String h2 (String h3 (String h4 r''))) =>
                  let cp := hex4 h1 h2 h3 h4 in
                  if is_high_surrogate cp then
                    match r'' with
                    | String b (String u (String k1 (String k2 (String k3
                        (String k4 r3))))) =>
                        let lo := hex4 k1 k2 k3 k4 in
                        if Ascii.eqb b backslash && Ascii.eqb u "u"
                           && is_low_surrogate lo
                        then utf8_encode (65536 + (cp - 55296) * 1024 + (lo - 56320))%N
                             +:+ unquote r3
                        else replacement +:+ unquote r''
                    | _ => replacement +:+ unquote r''
                    end
                  else if is_low_surrogate cp then replacement +:+ unquote r''
                  else utf8_encode cp +:+ unquote r''
              | _ => EmptyString
              end
            else String (unescape e) (unquote r')
        end
      else String c (unquote r)
  end.

Definition lower (c : ascii) : ascii :=
  let n := N_of_ascii c in
  (if (65 <=? n) && (n <=? 90) then ascii_of_N (n + 32) else c)%N.

Fixpoint fold_name (s : string) : string :=
  match s with
  | EmptyString => EmptyString
  | String c r => String (lower c) (fold_name r)
  end.

(** The field that a raw key selects. *)
Definition field_of (key : string) : string := fold_name (unquote key).

Definition decode_string (j : json) (old : string) : option string :=
  match j with
  | JNull => Some old
  | JStr raw => Some (unquote raw)
  | _ => None
  end.

Definition decode_bool (j : json) (old : bool) : option bool :=
  match j with
  | JNull => Some old
  | JBool b => Some b
  | _ => None
  end.

Fixpoint has_point_or_exponent (l : string) : bool :=
  match l with
  | EmptyString => false
  | String c r =>
      Ascii.eqb c "." || Ascii.eqb c "e" || Ascii.eqb c "E"
      || has_point_or_exponent r
  end.

(** A Go [int] has 64 bits. *)
Definition is_int64 (z : Z) : bool :=
  ((- 9223372036854775808 <=? z) && (z <=? 9223372036854775807))%Z.

(** A number goes into an [int] field when it is written as an integer
    ([strconv.ParseInt]) and fits. *)
Definition decode_int (j : json) (old : Z) : option Z :=
  match j with
  | JNull => Some old
  | JNum l =>
      if has_point_or_exponent l then None
      else
        match NilZero.int_of_string l with
        | Some d => if is_int64 (Z.of_int d) then Some (Z.of_int d) else None
        | None => None
        end
  | _ => None
  end.

(** *** RFC 3339 text as a time.Time *)

Definition digit_value (c : ascii) : Z := Z.of_N (N_of_ascii c) - 48.

(** Exactly [w] digits: their value after [acc], and the rest. *)
Fixpoint take_digits (w : nat) (acc : Z) (s : string) : option (Z * string) :=
  match w with
  | O => Some (acc, s)
  | S w' =>
      match s with
      | String c r =>
          if is_digit c then take_digits w' (10 * acc + digit_value c) r else None
      | EmptyString => None
      end
  end.

Definition in_range (lo hi x : Z) : bool := ((lo <=? x) && (x <=? hi))%Z.

Definition isLeap (y : Z) : bool :=
  ((y mod 4 =? 0) && (negb (y mod 100 =? 0) || (y mod 400 =? 0)))%Z.

Definition daysIn (m y : Z) : Z :=
  (if m =? 2 then (if isLeap y then 29 else 28)
   else if (m =? 4) || (m =? 6) || (m =? 9) || (m =? 11) then 30
   else 31)%Z.

(** The value of the first [w] digits of a fraction, as if [w] digits had
    been written. *)
Fixpoint nanos (w : nat) (acc : Z) (s : string) : Z :=
  match w with
  | O => acc
  | S w' =>
      match s with
      | String c r => nanos w' (10 * acc + digit_value c) r
      | EmptyString => nanos w' (10 * acc) s
      end
  end.

(** The zone: a [Z], or a sign, two digits, a colon and two digits. *)
Definition parse_zone (s : string) : option Z :=
  match s with
  | String "Z" EmptyString => Some 0%Z
  | String sg (String h1 (String h2 (String ":" (String m1 (String m2 EmptyString))))) =>
      match take_digits 2 0 (String h1 (str1 h2)), take_digits 2 0 (String m1 (str1 m2)) with
      | Some (hr, _), Some (mm, _) =>
          if in_range 0 23 hr && in_range 0 59 mm then
            if Ascii.eqb sg "+" then Some ((hr * 60 + mm) * 60)%Z
            else if Ascii.eqb sg "-" then Some (- ((hr * 60 + mm) * 60))%Z
            else None
          else None
      | _, _ => None
      end
  | _ => None
  end.

(** The fraction of a second, when a point and a digit come next: all the
    digits that follow are read, and nine of them count. *)
Definition read_fraction (s : string) : Z * string :=
  match s with
  | String "." (String c r) =>
      if is_digit c then
        let '(ds, rest) := span_digits (String c r) in (nanos 9 0 ds, rest)
      else (0%Z, s)
  | _ => (0%Z, s)
  end.

(** A step of the parser: a number of digits. *)
Definition field (w : nat) (s : string) : option (Z * string) := take_digits w 0 s.

(** [Time.UnmarshalJSON] on the text between the quotes, which it reads as
    it is written, without resolving escapes. *)
Definition parse_time (s : string) : option Time :=
  match field 4 s with None => None | Some (y, s) =>
  match starts "-" s with None => None | Some s =>
  match field 2 s with None => None | Some (mo, s) =>
  match starts "-" s with None => None | Some s =>
  match field 2 s with None => None | Some (d, s) =>
  match starts "T" s with None => None | Some s =>
  match field 2 s with None => None | Some (h, s) =>
  match starts ":" s with None => None | Some s =>
  match field 2 s with None => None | Some (mi, s) =>
  match starts ":" s with None => None | Some s =>
  match field 2 s with None => None | Some (sec, s) =>
    if in_range 0 9999 y && in_range 1 12 mo && in_range 1 (daysIn mo y) d
       && in_range 0 23 h && in_range 0 59 mi && in_range 0 59 sec
    then
      let '(ns, s) := read_fraction s in
      match parse_zone s with
      | Some off =>
          Some {| year := y; month := mo; day := d; hour := h; minute := mi;
                  second := sec; nanosecond := ns; zoneOffset := off |}
      | None => None
      end
    else None
  end end end end end end end end end end end.

Definition decode_time (j : json) (old : Time) : option Time :=
  match j with
  | JNull => Some old
  | JStr raw => parse_time raw
  | _ => None
  end.

(** *** The three structs *)

(** The zero [time.Time]: the first instant of the year 1, UTC. *)
Definition zero_Time : Time :=
  {| year := 1; month := 1; day := 1; hour := 0; minute := 0; second := 0;
     nanosecond := 0; zoneOffset := 0 |}.

Definition zero_PrecheckResult : PrecheckResult :=
  {| pr_Name := EmptyString; pr_Status := EmptyString; pr_Message := EmptyString;
     pr_Details := EmptyString; pr_Timestamp := zero_Time;
     pr_Duration := EmptyString; pr_Remediation := EmptyString |}.

Definition zero_PrecheckSummary : PrecheckSummary :=
  {| Total := 0; Passed := 0; Warnings := 0; Failed := 0; CanProceed := false |}.

Definition zero_PrecheckResults : PrecheckResults :=
  {| Results := []; Summary := zero_PrecheckSummary; Timestamp := zero_Time;
     ClusterRef := EmptyString |}.

(** The members of an object, stored one after the other. *)
Fixpoint decode_members {A : Type} (store : string -> json -> A -> option A)
    (members : list (string * json)) (v : A) : option A :=
  match members with
  | [] => Some v
  | (key, j) :: rest =>
      match store (field_of key) j v with
      | Some v' => decode_members store rest v'
      | None => None
      end
  end.

Definition store_PrecheckResult (k : string) (j : json) (r : PrecheckResult)
  : option PrecheckResult :=
  if k =? "name" then
    match decode_string j (pr_Name r) with
    | Some s =>
        Some {| pr_Name := s; pr_Status := pr_Status r; pr_Message := pr_Message r;
                pr_Details := pr_Details r; pr_Timestamp := pr_Timestamp r;
                pr_Duration := pr_Duration r; pr_Remediation := pr_Remediation r |}
    | None => None
    end
  else if k =? "status" then
    match decode_string j (pr_Status r) with
    | Some s =>
        Some {| pr_Name := pr_Name r; pr_Status := s; pr_Message := pr_Message r;
                pr_Details := pr_Details r; pr_Timestamp := pr_Timestamp r;
                pr_Duration := pr_Duration r; pr_Remediation := pr_Remediation r |}
    | None => None
    end
  else if k =? "message" then
    match decode_string j (pr_Message r) with
    | Some s =>
        Some {| pr_Name := pr_Name r; pr_Status := pr_Status r; pr_Message := s;
                pr_Details := pr_Details r; pr_Timestamp := pr_Timestamp r;
                pr_Duration := pr_Duration r; pr_Remediation := pr_Remediation r |}
    | None => None
    end
  else if k =? "details" then
    match decode_string j (pr_Details r) with
    | Some s =>
        Some {| pr_Name := pr_Name r; pr_Status := pr_Status r;
                pr_Message := pr_Message r;
                pr_Details := s; pr_Timestamp := pr_Timestamp r;
                pr_Duration := pr_Duration r; pr_Remediation := pr_Remediation r |}
    | None => None
    end
  else if k =? "timestamp" then
    match decode_time j (pr_Timestamp r) with
    | Some t =>
        Some {| pr_Name := pr_Name r; pr_Status := pr_Status r;
                pr_Message := pr_Message r;
                pr_Details := pr_Details r; pr_Timestamp := t;
                pr_Duration := pr_Duration r; pr_Remediation := pr_Remediation r |}
    | None => None
    end
  else if k =? "duration" then
    match decode_string j (pr_Duration r) with
    | Some s =>
        Some {| pr_Name := pr_Name r; pr_Status := pr_Status r;
                pr_Message := pr_Message r;
                pr_Details := pr_Details r; pr_Timestamp := pr_Timestamp r;
                pr_Duration := s; pr_Remediation := pr_Remediation r |}
    | None => None
    end
  else if k =? "remediation" then
    match decode_string j (pr_Remediation r) with
    | Some s =>
        Some {| pr_Name := pr_Name r; pr_Status := pr_Status r;
                pr_Message := pr_Message r;
                pr_Details := pr_Details r; pr_Timestamp := pr_Timestamp r;
                pr_Duration := pr_Duration r; pr_Remediation := s |}
    | None => None
    end
  else Some r.

Definition decode_PrecheckResult (j : json) (old : PrecheckResult)
  : option PrecheckResult :=
  match j with
  | JNull => Some old
  | JObj members => decode_members store_PrecheckResult members old
  | _ => None
  end.

Definition store_PrecheckSummary (k : string) (j : json) (s : PrecheckSummary)
  : option PrecheckSummary :=
  if k =? "total" then
    match decode_int j (Total s) with
    | Some z => Some {| Total := z; Passed := Passed s; Warnings := Warnings s;
                        Failed := Failed s; CanProceed := CanProceed s |}
    | None => None
    end
  else if k =? "passed" then
    match decode_int j (Passed s) with
    | Some z => Some {| Total := Total s; Passed := z; Warnings := Warnings s;
                        Failed := Failed s; CanProceed := CanProceed s |}
    | None => None
    end
  else if k =? "warnings" then
    match decode_int j (Warnings s) with
    | Some z => Some {| Total := Total s; Passed := Passed s; Warnings := z;
                        Failed := Failed s; CanProceed := CanProceed s |}
    | None => None
    end
  else if k =? "failed" then
    match decode_int j (Failed s) with
    | Some z => Some {| Total := Total s; Passed := Passed s; Warnings := Warnings s;
                        Failed := z; CanProceed := CanProceed s |}
    | None => None
    end
  else if k =? "canproceed" then
    match decode_bool j (CanProceed s) with
    | Some b => Some {| Total := Total s; Passed := Passed s; Warnings := Warnings s;
                        Failed := Failed s; CanProceed := b |}
    | None => None
    end
  else Some s.

Definition decode_PrecheckSummary (j : json) (old : PrecheckSummary)
  : option PrecheckSummary :=
  match j with
  | JNull => Some old
  | JObj members => decode_members store_PrecheckSummary members old
  | _ => None
  end.

(** The elements of an array, each stored into a fresh element. *)
Fixpoint decode_elements (elements : list json) : option (list PrecheckResult) :=
  match elements with
  | [] => Some []
  | j :: rest =>
      match decode_PrecheckResult j zero_PrecheckResult with
      | Some r =>
          match decode_elements rest with
          | Some rs => Some (r :: rs)
          | None => None
          end
      | None => None
      end
  end.

Definition decode_results (j : json) (old : list PrecheckResult)
  : option (list PrecheckResult) :=
  match j with
  | JNull => Some []
  | JArr elements => decode_elements elements
  | _ => None
  end.

Definition store_PrecheckResults (k : string) (j : json) (r : PrecheckResults)
  : option PrecheckResults :=
  if k =? "results" then
    match decode_results j (Results r) with
    | Some l => Some {| Results := l; Summary := Summary r;
                        Timestamp := Timestamp r; ClusterRef := ClusterRef r |}
    | None => None
    end
  else if k =? "summary" then
    match decode_PrecheckSummary j (Summary r) with
    | Some s => Some {| Results := Results r; Summary := s;
                        Timestamp := Timestamp r; ClusterRef := ClusterRef r |}
    | None => None
    end
  else if k =? "timestamp" then
    match decode_time j (Timestamp r) with
    | Some t => Some {| Results := Results r; Summary := Summary r;
                        Timestamp := t; ClusterRef := ClusterRef r |}
    | None => None
    end
  else if k =? "clusterref" then
    match decode_string j (ClusterRef r) with
    | Some s => Some {| Results := Results r; Summary := Summary r;
                        Timestamp := Timestamp r; ClusterRef := s |}
    | None => None
    end
  else Some r.

Definition decode_PrecheckResults (j : json) (old : PrecheckResults)
  : option PrecheckResults :=
  match j with
  | JNull => Some old
  | JObj members => decode_members store_PrecheckResults members old
  | _ => None
  end.

(** [PrecheckResultsFromJSON]: the report behind the returned pointer, or
    [None] when the function returns nil and an error. *)
Definition PrecheckResultsFromJSON (jsonStr : string) : option PrecheckResults :=
  match parse_document jsonStr with
  | Some j => decode_PrecheckResults j zero_PrecheckResults
  | None => None
  end.

(** An [error] value; only its message is ever used. *)
Record error := Error { message : string }.

(** [func (r *PrecheckResults) ToJSON() (string, error)] *)
Definition ToJSON (r : PrecheckResults) : string + error :=
  match enc_PrecheckResults r with
  | Some j => inl (render j)
  | None => inr (Error "json: error calling MarshalJSON for type time.Time")
  end.

(** ** The cluster object and its surroundings

    The Go types of [api/v1] are not part of the handler package; the
    records keep the fields the handlers touch.  [*group.Replicas] is the
    desired replica count of a group, taken as present. *)

(** [metav1.Condition] *)
Record Condition := {
  c_Type : string;
  c_Status : string;            (* True, False or Unknown *)
  c_Reason : string;
  c_Message : string;
  c_LastTransitionTime : Time
}.

Definition ConditionTrue : string := "True".
Definition ConditionFalse : string := "False".

Record MarklogicGroups := {
  g_Name : string;
  g_Replicas : Z
}.

Record ClusterStatus := {
  st_UpgradePaused : bool;
  st_UpgradeState : string;
  st_CurrentImage : string;
  st_LastUpgradeTime : option Time;
  st_Conditions : list Condition
}.

Record MarklogicCluster := {
  Name : string;
  Namespace : string;
  CreationTimestamp : Time;
  Annotations : gmap string string;
  Image : string;                           (* Spec.Image *)
  MarkLogicGroups : list MarklogicGroups;   (* Spec.MarkLogicGroups *)
  Status : ClusterStatus
}.

(** [appsv1.StatefulSet], of which only [Status.ReadyReplicas] is read. *)
Record StatefulSet := { ReadyReplicas : Z }.

(** An event of the recorder: [Recorder.Event(cluster, type, reason, message)]. *)
Record Event := {
  ev_Type : string;
  ev_Reason : string;
  ev_Message : string
}.

Definition EventTypeNormal : string := "Normal".
Definition EventTypeWarning : string := "Warning".

(** [ctrl.Result] *)
Record Result := {
  Requeue : bool;
  RequeueAfter : Z
}.

Definition NoRequeue : Result := {| Requeue := false; RequeueAfter := 0 |}.
Definition After (d : Z) : Result := {| Requeue := false; RequeueAfter := d |}.

(** *** The world of one handler call

    - [obj] is the object behind the [cluster] pointer;
    - [persisted] is the same object as the API server holds it;
    - [statefulsets] are the StatefulSets the server holds, by namespace and
      name;
    - [events] are the events recorded so far, oldest first;
    - [faults] are the outcomes of the coming write calls of the client, in
      order: [None] for a write that succeeds, [Some e] for one that fails
      with [e]; once the list is used up every write succeeds;
    - [clock] is what the next reading of the clock returns and [ticks] are
      the readings after it.

    The client is modelled by its contract with the handler, the status
    being a subresource of the object: [Update] stores the object except
    for its status, [Status().Update] stores the status and nothing else,
    and a call that succeeds reads the reply of the server, which is the
    object as it is now stored, back into the object behind the pointer.
    So after [Update] the status in memory is the stored one, whatever was
    assigned to it before the call.  A failed call stores nothing and leaves
    the object in memory as it is. *)

Record World := {
  obj : MarklogicCluster;
  persisted : MarklogicCluster;
  statefulsets : gmap (string * string) StatefulSet;
  events : list Event;
  faults : list (option error);
  clock : Time;
  ticks : list Time
}.

Definition M (A : Type) : Type := World -> A * World.

Definition ret {A} (a : A) : M A := fun w => (a, w).

Definition bind {A B} (m : M A) (k : A -> M B) : M B :=
  fun w => let '(a, w') := m w in k a w'.

Notation "x <- c ;; k" := (bind c (fun x => k))
  (at level 100, c at next level, right associativity).
Notation "c ;; k" := (bind c (fun _ => k))
  (at level 100, right associativity).

Definition with_obj (c : MarklogicCluster) (w : World) : World :=
  {| obj := c; persisted := persisted w; statefulsets := statefulsets w;
     events := events w; faults := faults w; clock := clock w; ticks := ticks w |}.

Definition with_persisted (c : MarklogicCluster) (w : World) : World :=
  {| obj := obj w; persisted := c; statefulsets := statefulsets w;
     events := events w; faults := faults w; clock := clock w; ticks := ticks w |}.

Definition with_events (l : list Event) (w : World) : World :=
  {| obj := obj w; persisted := persisted w; statefulsets := statefulsets w;
     events := l; faults := faults w; clock := clock w; ticks := ticks w |}.

Definition with_faults (l : list (option error)) (w : World) : World :=
  {| obj := obj w; persisted := persisted w; statefulsets := statefulsets w;
     events := events w; faults := l; clock := clock w; ticks := ticks w |}.

Definition with_clock (t : Time) (l : list Time) (w : World) : World :=
  {| obj := obj w; persisted := persisted w; statefulsets := statefulsets w;
     events := events w; faults := faults w; clock := t; ticks := l |}.

Definition with_Annotations (a : gmap string string) (c : MarklogicCluster)
  : MarklogicCluster :=
  {| Name := Name c; Namespace := Namespace c;
     CreationTimestamp := CreationTimestamp c; Annotations := a;
     Image := Image c; MarkLogicGroups := MarkLogicGroups c;
     Status := Status c |}.

Definition with_Status (s : ClusterStatus) (c : MarklogicCluster)
  : MarklogicCluster :=
  {| Name := Name c; Namespace := Namespace c;
     CreationTimestamp := CreationTimestamp c; Annotations := Annotations c;
     Image := Image c; MarkLogicGroups := MarkLogicGroups c;
     Status := s |}.

(** The cluster pointer: reading it and assigning through it. *)
Definition cluster : M MarklogicCluster := fun w => (obj w, w).

Definition assign (f : MarklogicCluster -> MarklogicCluster) : M unit :=
  fun w => (tt, with_obj (f (obj w)) w).

(** [cluster.SetAnnotations(annotations)] *)
Definition SetAnnotations (a : gmap string string) : M unit :=
  assign (with_Annotations a).

(** [cluster.GetAnnotations()], with [make(map[string]string)] for nil. *)
Definition GetAnnotations : M (gmap string string) :=
  c <- cluster ;; ret (Annotations c).

(** [h.Recorder.Event(cluster, type, reason, message)] *)
Definition RecordEvent (ty reason msg : string) : M unit :=
  fun w => (tt, with_events (events w ++
              [{| ev_Type := ty; ev_Reason := reason; ev_Message := msg |}]) w).

(** The outcome of the next write call. *)
Definition next_fault : M (option error) :=
  fun w => (hd None (faults w), with_faults (tl (faults w)) w).

(** [h.Update(ctx, cluster)] *)
Definition Update : M (option error) :=
  e <- next_fault ;;
  match e with
  | Some err => ret (Some err)
  | None =>
      fun w =>
        let stored := with_Status (Status (persisted w)) (obj w) in
        (None, with_obj stored (with_persisted stored w))
  end.

(** [h.Status().Update(ctx, cluster)] *)
Definition StatusUpdate : M (option error) :=
  e <- next_fault ;;
  match e with
  | Some err => ret (Some err)
  | None =>
      fun w =>
        let stored := with_Status (Status (obj w)) (persisted w) in
        (None, with_obj stored (with_persisted stored w))
  end.

(** [r.Get(ctx, key, &sts)]: the StatefulSet, or an error when there is
    none under that key. *)
Definition GetStatefulSet (namespace name : string) : M (option StatefulSet) :=
  fun w => (statefulsets w !! (namespace, name), w).

(** [time.Now()] and [metav1.Now()] *)
Definition Now : M Time :=
  fun w => (clock w, with_clock (hd (clock w) (ticks w)) (tl (ticks w)) w).

(** [time.Since(t)] *)
Definition Since (t : Time) : M Z :=
  n <- Now ;; ret (unixNano n - unixNano t)%Z.

(** [time.Sleep(d)]: the readings of the clock are the environment's, so
    sleeping changes nothing that the handlers can observe. *)
Definition Sleep (d : Z) : M unit := ret tt.

(** ** The precheck handler (precheck_handler.go) *)

(** The annotation keys and the states of upgrade_handler.go, which the
    precheck handler shares. *)
Definition AnnotationTriggerUpgrade : string := "marklogic.com/trigger-upgrade".
Definition AnnotationProceedUpgrade : string := "marklogic.com/proceed-with-upgrade".
Definition AnnotationCancelUpgrade : string := "marklogic.com/cancel-upgrade".
Definition AnnotationUpgradeState : string := "marklogic.com/upgrade-state".
Definition AnnotationPrecheckResults : string := "marklogic.com/precheck-results".
Definition AnnotationSkipForestCheck : string := "marklogic.com/skip-forest-check".

(** [type UpgradeState string] *)
Abbreviation UpgradeState := string (only parsing).

Definition UpgradeStateIdle : UpgradeState := "Idle".
Definition UpgradeStatePrecheckStart : UpgradeState := "PrecheckStarted".
Definition UpgradeStatePrecheckDone : UpgradeState := "PrecheckCompleted".
Definition UpgradeStatePrecheck : UpgradeState := "PrecheckStarted".
Definition UpgradeStateWaitingUser : UpgradeState := "WaitingForUserApproval".
Definition UpgradeStateWaitingApproval : UpgradeState := "WaitingForUserApproval".
Definition UpgradeStateInProgress : UpgradeState := "UpgradeInProgress".
Definition UpgradeStateCompleted : UpgradeState := "UpgradeCompleted".
Definition UpgradeStateFailed : UpgradeState := "UpgradeFailed".
Definition UpgradeStateCancelled : UpgradeState := "UpgradeCancelled".
Definition UpgradeStatePaused : UpgradeState := "UpgradePaused".

(** [StartPrechecks] *)
Definition StartPrechecks : M (option error) :=
  RecordEvent EventTypeNormal "PrecheckStarted" "Starting upgrade prechecks" ;;
  ret None.

(** The loop of [generateMockPrecheckResults] that counts the results by
    status.  The counters are Go [int]s; they are bounded by the length of
    the slice, which is an [int] itself, so they never wrap. *)
Fixpoint count_results (results : list PrecheckResult) (passed warnings failed : Z)
  : Z * Z * Z :=
  match results with
  | [] => (passed, warnings, failed)
  | result :: rest =>
      if pr_Status result =? "PASS" then count_results rest (passed + 1) warnings failed
      else if pr_Status result =? "WARN" then count_results rest passed (warnings + 1) failed
      else if pr_Status result =? "FAIL" then count_results rest passed warnings (failed + 1)
      else count_results rest passed warnings failed
  end.

(** The part of [generateMockPrecheckResults] below [// Calculate summary]. *)
Definition calculate_summary (results : list PrecheckResult) : PrecheckSummary :=
  let total := Z.of_nat (length results) in
  let '(passed, warnings, failed) := count_results results 0 0 0 in
  (* Can proceed if no failures (warnings are acceptable) *)
  let canProceed := (failed =? 0)%Z in
  {| Total := total; Passed := passed; Warnings := warnings;
     Failed := failed; CanProceed := canProceed |}.

(** The eight results, appended in the order of the source. *)
Definition mock_results (c : MarklogicCluster) (skipForestCheck : bool) (now : Time)
  : list PrecheckResult :=
  let results := [] in
  (* Image Change Validation Check *)
  let results := results ++ [
    {| pr_Name := "Image Change Validation"; pr_Status := "PASS";
       pr_Message := "New image version validated and accessible";
       pr_Details := "Target image: " +:+ Image c;
       pr_Timestamp := now; pr_Duration := "1.5s";
       pr_Remediation := EmptyString |}] in
  (* Cluster Health Check *)
  let results := results ++ [
    {| pr_Name := "Cluster Health Check"; pr_Status := "PASS";
       pr_Message := "All cluster nodes are healthy and responding";
       pr_Details := EmptyString;
       pr_Timestamp := now; pr_Duration := "2.5s";
       pr_Remediation := EmptyString |}] in
  (* Database Connectivity Check *)
  let results := results ++ [
    {| pr_Name := "Database Connectivity"; pr_Status := "PASS";
       pr_Message := "All databases are accessible and responsive";
       pr_Details := EmptyString;
       pr_Timestamp := now; pr_Duration := "1.8s";
       pr_Remediation := EmptyString |}] in
  (* Forest Health Check (conditional) *)
  let results :=
    if negb skipForestCheck then
      results ++ [
        {| pr_Name := "Forest Health Check"; pr_Status := "WARN";
           pr_Message := "Some forests show minor performance degradation";
           pr_Details := "Forests in data-node-2 showing 5% higher response times";
           pr_Timestamp := now; pr_Duration := "4.2s";
           pr_Remediation := "Monitor forest performance during upgrade" |}]
    else
      results ++ [
        {| pr_Name := "Forest Health Check"; pr_Status := "PASS";
           pr_Message := "Forest health check skipped per annotation";
           pr_Details := EmptyString;
           pr_Timestamp := now; pr_Duration := "0s";
           pr_Remediation := EmptyString |}] in
  (* Resource Availability Check *)
  let results := results ++ [
    {| pr_Name := "Resource Availability"; pr_Status := "PASS";
       pr_Message := "Sufficient CPU and memory available for upgrade";
       pr_Details := "CPU: 65% used, Memory: 70% used, Storage: 45% used";
       pr_Timestamp := now; pr_Duration := "1.2s";
       pr_Remediation := EmptyString |}] in
  (* Backup Status Check *)
  let results := results ++ [
    {| pr_Name := "Backup Status"; pr_Status := "WARN";
       pr_Message := "Latest backup is 25 hours old";
       pr_Details := "Last successful backup: 2024-01-15 10:30:00 UTC";
       pr_Timestamp := now; pr_Duration := "0.8s";
       pr_Remediation := "Consider creating a fresh backup before proceeding" |}] in
  (* License Validation *)
  let results := results ++ [
    {| pr_Name := "License Validation"; pr_Status := "PASS";
       pr_Message := "MarkLogic license is valid and has sufficient capacity";
       pr_Details := EmptyString;
       pr_Timestamp := now; pr_Duration := "0.5s";
       pr_Remediation := EmptyString |}] in
  (* Network Connectivity *)
  let results := results ++ [
    {| pr_Name := "Network Connectivity"; pr_Status := "PASS";
       pr_Message := "All inter-node network connections are healthy";
       pr_Details := EmptyString;
       pr_Timestamp := now; pr_Duration := "3.1s";
       pr_Remediation := EmptyString |}] in
  results.

(** [generateMockPrecheckResults] *)
Definition generateMockPrecheckResults (skipForestCheck : bool) : M PrecheckResults :=
  now <- Now ;;
  c <- cluster ;;
  let results := mock_results c skipForestCheck now in
  let summary := calculate_summary results in
  ret {| Results := results;
         Summary := summary;
         Timestamp := now;
         ClusterRef := Namespace c +:+ "/" +:+ Name c |}.

(** [CheckPrecheckStatus] *)
Definition CheckPrecheckStatus : M (bool * option PrecheckResults * option error) :=
  annotations <- GetAnnotations ;;
  let skipForestCheck := get annotations AnnotationSkipForestCheck =? "true" in
  results <- generateMockPrecheckResults skipForestCheck ;;
  ret (true, Some results, None).

(** ** The rolling-upgrade handler (rolling_upgrade_handler.go) *)

(** [for _, step := range steps]: an event for each, then a pause. *)
Fixpoint report_steps (reason : string) (pause : Z) (steps : list string) : M unit :=
  match steps with
  | [] => ret tt
  | step :: rest =>
      RecordEvent EventTypeNormal reason step ;;
      Sleep pause ;;
      report_steps reason pause rest
  end.

(** [performRollingUpgrade] *)
Definition performRollingUpgrade : M (option error) :=
  let steps := [
    "Updating cluster specification";
    "Rolling out new image to StatefulSets";
    "Waiting for pod updates";
    "Validating cluster health";
    "Finalizing upgrade configuration" ] in
  report_steps "UpgradeProgress" (1 * Second) steps ;;
  ret None.

(** [StartRollingUpgrade] *)
Definition StartRollingUpgrade : M (option error) :=
  RecordEvent EventTypeNormal "RollingUpgradeStarted" "Rolling upgrade initiated" ;;
  performRollingUpgrade.

(** [checkStatefulSetUpgradeStatus] *)
Definition checkStatefulSetUpgradeStatus (group : MarklogicGroups)
  : M (bool * option error) :=
  c <- cluster ;;
  let statefulSetName := g_Name group in
  sts <- GetStatefulSet (Namespace c) statefulSetName ;;
  match sts with
  | None => ret (false, None)              (* StatefulSet not found *)
  | Some sts =>
      if (ReadyReplicas sts =? g_Replicas group)%Z then ret (true, None)
      else ret (false, None)
  end.

(** [performClusterHealthCheck] *)
Definition performClusterHealthCheck : M (bool * option error) :=
  let healthChecks := [
    "Checking MarkLogic cluster status";
    "Validating node connectivity";
    "Testing database access";
    "Verifying cluster configuration";
    "Running basic functionality tests" ] in
  report_steps "HealthCheck" (500 * Millisecond) healthChecks ;;
  RecordEvent EventTypeNormal "HealthCheckPassed"
    "Post-upgrade cluster health check passed" ;;
  ret (true, None).

Section Rollout.

(** The final cluster health check, as [checkUpgradeProgress] calls it.
    The handler's own is [performClusterHealthCheck]; the progress check
    is written over any probe so that what it does with the probe's
    answers can be stated. *)
Variable healthCheck : M (bool * option error).

(** The loop of [checkUpgradeProgress] over the groups; [allUpdated] is
    the flag of that name.  The result is the flag after the loop, or the
    error that ended it. *)
Fixpoint check_groups (groups : list MarklogicGroups) (allUpdated : bool)
  : M (bool * option error) :=
  match groups with
  | [] => ret (allUpdated, None)
  | group :: rest =>
      r <- checkStatefulSetUpgradeStatus group ;;
      match snd r with
      | Some err => ret (false, Some err)
      | None =>
          if negb (fst r) then check_groups rest false
          else check_groups rest allUpdated
      end
  end.

Definition checkUpgradeProgress_with : M (bool * option error) :=
  c <- cluster ;;
  r <- check_groups (MarkLogicGroups c) true ;;
  match snd r with
  | Some err => ret (false, Some err)
  | None =>
      if fst r then
        (* Final cluster health check *)
        h <- healthCheck ;;
        match snd h with
        | Some err => ret (false, Some err)
        | None =>
            if negb (fst h) then ret (false, None)
            else ret (true, None)
        end
      else ret (false, None)
  end.

End Rollout.

(** [checkUpgradeProgress] *)
Definition checkUpgradeProgress : M (bool * option error) :=
  checkUpgradeProgress_with performClusterHealthCheck.

(** [CheckUpgradeStatus] *)
Definition CheckUpgradeStatus : M (bool * option error) :=
  r <- checkUpgradeProgress ;;
  match snd r with
  | Some err => ret (false, Some err)
  | None =>
      (if fst r then
         RecordEvent EventTypeNormal "RollingUpgradeCompleted"
           "Rolling upgrade completed successfully"
       else ret tt) ;;
      ret (fst r, None)
  end.

(** ** The upgrade handler (upgrade_handler.go) *)

Definition with_CurrentImage (i : string) (s : ClusterStatus) : ClusterStatus :=
  {| st_UpgradePaused := st_UpgradePaused s; st_UpgradeState := st_UpgradeState s;
     st_CurrentImage := i; st_LastUpgradeTime := st_LastUpgradeTime s;
     st_Conditions := st_Conditions s |}.

Definition with_UpgradePaused (b : bool) (s : ClusterStatus) : ClusterStatus :=
  {| st_UpgradePaused := b; st_UpgradeState := st_UpgradeState s;
     st_CurrentImage := st_CurrentImage s; st_LastUpgradeTime := st_LastUpgradeTime s;
     st_Conditions := st_Conditions s |}.

Definition with_UpgradeState (u : string) (s : ClusterStatus) : ClusterStatus :=
  {| st_UpgradePaused := st_UpgradePaused s; st_UpgradeState := u;
     st_CurrentImage := st_CurrentImage s; st_LastUpgradeTime := st_LastUpgradeTime s;
     st_Conditions := st_Conditions s |}.

Definition with_LastUpgradeTime (t : option Time) (s : ClusterStatus) : ClusterStatus :=
  {| st_UpgradePaused := st_UpgradePaused s; st_UpgradeState := st_UpgradeState s;
     st_CurrentImage := st_CurrentImage s; st_LastUpgradeTime := t;
     st_Conditions := st_Conditions s |}.

Definition with_Conditions (l : list Condition) (s : ClusterStatus) : ClusterStatus :=
  {| st_UpgradePaused := st_UpgradePaused s; st_UpgradeState := st_UpgradeState s;
     st_CurrentImage := st_CurrentImage s; st_LastUpgradeTime := st_LastUpgradeTime s;
     st_Conditions := l |}.

(** An assignment to a field of [cluster.Status]. *)
Definition assign_status (f : ClusterStatus -> ClusterStatus) : M unit :=
  assign (fun c => with_Status (f (Status c)) c).

(** [updateCondition] *)
Fixpoint updateCondition (conditions : list Condition) (newCondition : Condition)
  : list Condition :=
  match conditions with
  | [] => [newCondition]
  | condition :: rest =>
      if c_Type condition =? c_Type newCondition then newCondition :: rest
      else condition :: updateCondition rest newCondition
  end.

(** [detectImageChanges] *)
Definition detectImageChanges (c : MarklogicCluster) : bool :=
  let currentImage := st_CurrentImage (Status c) in
  let desiredImage := Image c in
  if currentImage =? EmptyString then false
  else negb (currentImage =? desiredImage).

(** [updateCurrentImages] *)
Definition updateCurrentImages : M (option error) :=
  assign (fun c => with_Status (with_CurrentImage (Image c) (Status c)) c) ;;
  StatusUpdate.

(** [updateStatusAfterDeployment] *)
Definition updateStatusAfterDeployment : M (option error) :=
  assign (fun c => with_Status (with_CurrentImage (Image c) (Status c)) c) ;;
  StatusUpdate.

(** The loop of [isClusterDeployed] over the conditions. *)
Fixpoint has_deployment_condition (conditions : list Condition) : bool :=
  match conditions with
  | [] => false
  | condition :: rest =>
      if (c_Type condition =? "Ready") && (c_Status condition =? ConditionTrue) then true
      else if (c_Type condition =? "Deployed") && (c_Status condition =? ConditionTrue) then true
      else has_deployment_condition rest
  end.

(** [isClusterDeployed] *)
Definition isClusterDeployed : M bool :=
  c <- cluster ;;
  if negb (st_CurrentImage (Status c) =? EmptyString) then ret true
  else
    age <- Since (CreationTimestamp c) ;;
    if (age <? 5 * Minute)%Z then ret false
    else if has_deployment_condition (st_Conditions (Status c)) then ret true
    else
      age <- Since (CreationTimestamp c) ;;
      ret (5 * Minute <? age)%Z.

Definition is_final (state : UpgradeState) : bool :=
  (state =? UpgradeStateCompleted) || (state =? UpgradeStateFailed)
  || (state =? UpgradeStateCancelled).

(** [updateUpgradeStateWithResults] *)
Definition updateUpgradeStateWithResults (state : UpgradeState)
    (results : option PrecheckResults) : M (Result * option error) :=
  annotations <- GetAnnotations ;;
  let annotations := <[AnnotationUpgradeState := state]> annotations in
  let annotations :=
    match results with
    | Some results =>
        match ToJSON results with
        | inr err => annotations          (* logged, nothing stored *)
        | inl resultsJson => <[AnnotationPrecheckResults := resultsJson]> annotations
        end
    | None => annotations
    end in
  SetAnnotations annotations ;;
  (* Update status fields *)
  assign_status (with_UpgradePaused (state =? UpgradeStateWaitingUser)) ;;
  assign_status (with_UpgradeState state) ;;
  (* Update condition *)
  now <- Now ;;
  let condition :=
    {| c_Type := "UpgradeInProgress";
       c_Status := if is_final state then ConditionFalse else ConditionTrue;
       c_Reason := state;
       c_Message := "Upgrade workflow in state: " +:+ state;
       c_LastTransitionTime := now |} in
  (if is_final state then
     if state =? UpgradeStateCompleted then
       now <- Now ;;
       assign_status (with_LastUpgradeTime (Some now))
     else ret tt
   else ret tt) ;;
  (* Update or add condition *)
  assign_status (fun s => with_Conditions (updateCondition (st_Conditions s) condition) s) ;;
  err <- Update ;;
  match err with
  | Some err => ret (NoRequeue, Some err)
  | None =>
      err <- StatusUpdate ;;
      match err with
      | Some err => ret (NoRequeue, Some err)
      | None => ret (NoRequeue, None)
      end
  end.

(** [updateUpgradeState] *)
Definition updateUpgradeState (state : UpgradeState) : M (Result * option error) :=
  updateUpgradeStateWithResults state None.

(** [cleanupUpgradeAnnotations] *)
Definition cleanupUpgradeAnnotations (finalState : UpgradeState)
  : M (Result * option error) :=
  annotations <- GetAnnotations ;;
  (* Set final state but remove control annotations *)
  let annotations := <[AnnotationUpgradeState := finalState]> annotations in
  let annotations := delete AnnotationTriggerUpgrade annotations in
  let annotations := delete AnnotationProceedUpgrade annotations in
  let annotations := delete AnnotationCancelUpgrade annotations in
  (* Keep precheck results for reference *)
  SetAnnotations annotations ;;
  assign_status (with_UpgradePaused false) ;;
  assign_status (with_UpgradeState finalState) ;;
  (* Set last upgrade time for completed state *)
  (if finalState =? UpgradeStateCompleted then
     now <- Now ;;
     assign_status (with_LastUpgradeTime (Some now))
   else ret tt) ;;
  (* Update final condition *)
  now <- Now ;;
  let condition :=
    {| c_Type := "UpgradeInProgress";
       c_Status := ConditionFalse;
       c_Reason := finalState;
       c_Message := "Upgrade workflow completed with state: " +:+ finalState;
       c_LastTransitionTime := now |} in
  assign_status (fun s => with_Conditions (updateCondition (st_Conditions s) condition) s) ;;
  err <- Update ;;
  match err with
  | Some err => ret (NoRequeue, Some err)
  | None =>
      err <- StatusUpdate ;;
      match err with
      | Some err => ret (NoRequeue, Some err)
      | None => ret (NoRequeue, None)
      end
  end.

(** [handleIdleState] *)
Definition handleIdleState (annotations : gmap string string)
  : M (Result * option error) :=
  if get annotations AnnotationTriggerUpgrade =? "true" then
    err <- StartPrechecks ;;
    match err with
    | Some err =>
        RecordEvent EventTypeWarning "PrecheckFailed"
          ("Failed to start prechecks: " +:+ message err) ;;
        updateUpgradeState UpgradeStateFailed
    | None =>
        RecordEvent EventTypeNormal "PrecheckStarted" "Upgrade prechecks started" ;;
        updateUpgradeState UpgradeStatePrecheckStart
    end
  else ret (NoRequeue, None).

(** [len(results.Results)] of a report pointer that may be nil only when
    the check has not completed. *)
Definition len_Results (results : option PrecheckResults) : Z :=
  match results with
  | Some r => Z.of_nat (length (Results r))
  | None => 0
  end.

(** [handlePrecheckStartState] *)
Definition handlePrecheckStartState (annotations : gmap string string)
  : M (Result * option error) :=
  r <- CheckPrecheckStatus ;;
  let '(completed, results, err) := r in
  match err with
  | Some err =>
      RecordEvent EventTypeWarning "PrecheckError"
        ("Error during prechecks: " +:+ message err) ;;
      updateUpgradeState UpgradeStateFailed
  | None =>
      if negb completed then
        ret (After (2 * Minute), None)     (* Check again in 2 minutes *)
      else
        RecordEvent EventTypeNormal "PrecheckCompleted"
          ("Prechecks completed with " +:+ string_of_Z (len_Results results)
           +:+ " checks") ;;
        updateUpgradeStateWithResults UpgradeStatePrecheckDone results
  end.

(** [handlePrecheckDoneState] *)
Definition handlePrecheckDoneState (annotations : gmap string string)
  : M (Result * option error) :=
  RecordEvent EventTypeNormal "AwaitingApproval"
    ("Prechecks completed. Review results and set annotation "
     +:+ AnnotationProceedUpgrade +:+ "=true to proceed or "
     +:+ AnnotationCancelUpgrade +:+ "=true to cancel") ;;
  updateUpgradeState UpgradeStateWaitingUser.

(** [handleWaitingUserState] *)
Definition handleWaitingUserState (annotations : gmap string string)
  : M (Result * option error) :=
  if get annotations AnnotationProceedUpgrade =? "true" then
    RecordEvent EventTypeNormal "UpgradeApproved"
      "User approved upgrade, starting rolling upgrade" ;;
    (* Start rolling upgrade *)
    err <- StartRollingUpgrade ;;
    match err with
    | Some err =>
        RecordEvent EventTypeWarning "UpgradeFailed"
          ("Failed to start rolling upgrade: " +:+ message err) ;;
        updateUpgradeState UpgradeStateFailed
    | None => updateUpgradeState UpgradeStateInProgress
    end
  else
    (* Still waiting for user input *)
    ret (After (5 * Minute), None).

(** [handleInProgressState] *)
Definition handleInProgressState (annotations : gmap string string)
  : M (Result * option error) :=
  r <- CheckUpgradeStatus ;;
  match snd r with
  | Some err =>
      RecordEvent EventTypeWarning "UpgradeError"
        ("Error during rolling upgrade: " +:+ message err) ;;
      updateUpgradeState UpgradeStateFailed
  | None =>
      if negb (fst r) then
        ret (After (2 * Minute), None)     (* Check again in 2 minutes *)
      else
        RecordEvent EventTypeNormal "UpgradeCompleted"
          "Rolling upgrade completed successfully" ;;
        (* a failure to update the current image does not fail the upgrade *)
        updateCurrentImages ;;
        cleanupUpgradeAnnotations UpgradeStateCompleted
  end.

(** [handleCancellation] *)
Definition handleCancellation (annotations : gmap string string)
  : M (Result * option error) :=
  let currentState := get annotations AnnotationUpgradeState in
  if currentState =? UpgradeStateInProgress then
    (* Cannot cancel in-progress upgrade safely *)
    RecordEvent EventTypeWarning "CancellationDenied"
      "Cannot cancel upgrade while rolling upgrade is in progress" ;;
    ret (NoRequeue, None)
  else
    RecordEvent EventTypeNormal "UpgradeCancelled" "Upgrade cancelled by user" ;;
    cleanupUpgradeAnnotations UpgradeStateCancelled.

(** The [switch currentState] of [HandleUpgradeWorkflow]. *)
Definition dispatch (currentState : UpgradeState) (annotations : gmap string string)
  : M (Result * option error) :=
  if currentState =? UpgradeStateIdle then handleIdleState annotations
  else if currentState =? UpgradeStatePrecheckStart then handlePrecheckStartState annotations
  else if currentState =? UpgradeStatePrecheckDone then handlePrecheckDoneState annotations
  else if currentState =? UpgradeStateWaitingUser then handleWaitingUserState annotations
  else if currentState =? UpgradeStateInProgress then handleInProgressState annotations
  else if is_final currentState then
    (* These are terminal states, clean up and return to idle *)
    cleanupUpgradeAnnotations UpgradeStateIdle
  else
    (* Unknown upgrade state, resetting to idle *)
    updateUpgradeState UpgradeStateIdle.

(** [HandleUpgradeWorkflow] *)
Definition HandleUpgradeWorkflow : M (Result * option error) :=
  annotations <- GetAnnotations ;;
  let currentState := get annotations AnnotationUpgradeState in
  let currentState :=
    if currentState =? EmptyString then UpgradeStateIdle else currentState in
  (* For new clusters that aren't deployed yet, update status with current image *)
  fresh <- (if currentState =? UpgradeStateIdle
            then deployed <- isClusterDeployed ;; ret (negb deployed)
            else ret false) ;;
  if (fresh : bool) then
    err <- updateStatusAfterDeployment ;;
    match err with
    | Some err => ret (NoRequeue, Some err)
    | None => ret (NoRequeue, None)       (* no upgrade workflow for new clusters *)
    end
  else
    (* Check for image changes and trigger upgrade automatically *)
    deployed <- (if currentState =? UpgradeStateIdle
                 then isClusterDeployed else ret false) ;;
    triggered <-
      (if (deployed : bool) then
         c <- cluster ;;
         if detectImageChanges c then
           (* Set trigger annotation automatically *)
           let annotations := <[AnnotationTriggerUpgrade := "true"]> annotations in
           SetAnnotations annotations ;;
           err <- Update ;;
           ret (annotations, err)
         else ret (annotations, None)
       else ret (annotations, None)) ;;
    match snd triggered with
    | Some err => ret (NoRequeue, Some err)
    | None =>
        let annotations := fst triggered in
        (* Early return for idle state with no trigger *)
        if (currentState =? UpgradeStateIdle)
           && negb (get annotations AnnotationTriggerUpgrade =? "true")
        then ret (NoRequeue, None)
        (* Check for cancellation first *)
        else if get annotations AnnotationCancelUpgrade =? "true"
        then handleCancellation annotations
        else dispatch currentState annotations
    end.

(** One invocation of the orchestrator: [Reconcile] fetches the object
    from the API server and hands it to [HandleUpgradeWorkflow]. *)
Definition invocation : M (Result * option error) :=
  (fun w => (tt, with_obj (persisted w) w)) ;;
  HandleUpgradeWorkflow.

(** ** Vocabulary of the statements *)

(** The upgrade state an object carries in its annotations. *)
Definition state_of (c : MarklogicCluster) : UpgradeState :=
  get (Annotations c) AnnotationUpgradeState.

(** A control signal is set when its annotation reads [true]. *)
Definition signal (k : string) (c : MarklogicCluster) : bool :=
  get (Annotations c) k =? "true".

(** The next [n] write calls of the client succeed. *)
Fixpoint writes_succeed (n : nat) (l : list (option error)) : Prop :=
  match n with
  | O => True
  | S n' => hd None l = None /\ writes_succeed n' (tl l)
  end.

(** What [cleanupUpgradeAnnotations] makes of the annotations. *)
Definition cleaned (s : UpgradeState) (a : gmap string string) : gmap string string :=
  delete AnnotationCancelUpgrade
    (delete AnnotationProceedUpgrade
       (delete AnnotationTriggerUpgrade (<[AnnotationUpgradeState := s]> a))).

(** The annotations that [updateUpgradeStateWithResults] hands to the
    client. *)
Definition stored (state : UpgradeState) (results : option PrecheckResults)
    (a : gmap string string) : gmap string string :=
  match results with
  | Some results =>
      match ToJSON results with
      | inr _ => <[AnnotationUpgradeState := state]> a
      | inl resultsJson =>
          <[AnnotationPrecheckResults := resultsJson]>
            (<[AnnotationUpgradeState := state]> a)
      end
  | None => <[AnnotationUpgradeState := state]> a
  end.

(** The three control signals that the cleanup removes. *)
Definition control_signals : list string :=
  [AnnotationTriggerUpgrade; AnnotationProceedUpgrade; AnnotationCancelUpgrade].

(** The results of a report that carry a given status. *)
Definition with_status (st : string) (results : list PrecheckResult)
  : list PrecheckResult :=
  List.filter (fun r => pr_Status r =? st) results.

Definition has_fail (report : PrecheckResults) : Prop :=
  exists r, In r (Results report) /\ pr_Status r = "FAIL".

(** A group has converged when its StatefulSet exists and reports as many
    ready replicas as the group asks for. *)
Definition converged (w : World) (group : MarklogicGroups) : bool :=
  match statefulsets w !! (Namespace (obj w), g_Name group) with
  | Some sts => (ReadyReplicas sts =? g_Replicas group)%Z
  | None => false
  end.

Definition all_converged (w : World) : bool :=
  forallb (converged w) (MarkLogicGroups (obj w)).

(** The states that [HandleUpgradeWorkflow] dispatches on. *)
Definition recognized_states : list UpgradeState :=
  [UpgradeStateIdle; UpgradeStatePrecheckStart; UpgradeStatePrecheckDone;
   UpgradeStateWaitingUser; UpgradeStateInProgress; UpgradeStateCompleted;
   UpgradeStateFailed; UpgradeStateCancelled].

(** [n] invocations in a row, with nothing else touching the world. *)
Fixpoint invocations (n : nat) (w : World) : World :=
  match n with
  | O => w
  | S n' => invocations n' (snd (invocation w))
  end.

(** The events of [StartRollingUpgrade]. *)
Definition rollout_started : list Event :=
  {| ev_Type := EventTypeNormal; ev_Reason := "RollingUpgradeStarted";
     ev_Message := "Rolling upgrade initiated" |} ::
  map (fun step => {| ev_Type := EventTypeNormal; ev_Reason := "UpgradeProgress";
                      ev_Message := step |})
      [ "Updating cluster specification";
        "Rolling out new image to StatefulSets";
        "Waiting for pod updates";
        "Validating cluster health";
        "Finalizing upgrade configuration" ].

(** The event of an approval. *)
Definition approved : Event :=
  {| ev_Type := EventTypeNormal; ev_Reason := "UpgradeApproved";
     ev_Message := "User approved upgrade, starting rolling upgrade" |}.

(** The events of the cancel check. *)
Definition cancellation_denied : Event :=
  {| ev_Type := EventTypeWarning; ev_Reason := "CancellationDenied";
     ev_Message := "Cannot cancel upgrade while rolling upgrade is in progress" |}.

Definition upgrade_cancelled : Event :=
  {| ev_Type := EventTypeNormal; ev_Reason := "UpgradeCancelled";
     ev_Message := "Upgrade cancelled by user" |}.

(** The events of [handleIdleState] when it starts the prechecks. *)
Definition prechecks_started : list Event :=
  [ {| ev_Type := EventTypeNormal; ev_Reason := "PrecheckStarted";
       ev_Message := "Starting upgrade prechecks" |};
    {| ev_Type := EventTypeNormal; ev_Reason := "PrecheckStarted";
       ev_Message := "Upgrade prechecks started" |} ].

(** The object is idle: it carries no state, or the state Idle. *)
Definition idle (c : MarklogicCluster) : Prop :=
  state_of c = EmptyString \/ state_of c = UpgradeStateIdle.

(** The world after the write that sets the trigger for a changed image. *)
Definition auto_triggered (w : World) : World :=
  let c := with_Status (Status (persisted w))
             (with_Annotations
                (<[AnnotationTriggerUpgrade := "true"]> (Annotations (obj w)))
                (obj w)) in
  with_persisted c (with_faults (tl (faults w)) (with_obj c w)).

(** The events of [performClusterHealthCheck]. *)
Definition health_checked : list Event :=
  map (fun check => {| ev_Type := EventTypeNormal; ev_Reason := "HealthCheck";
                       ev_Message := check |})
      [ "Checking MarkLogic cluster status";
        "Validating node connectivity";
        "Testing database access";
        "Verifying cluster configuration";
        "Running basic functionality tests" ]
  ++ [ {| ev_Type := EventTypeNormal; ev_Reason := "HealthCheckPassed";
          ev_Message := "Post-upgrade cluster health check passed" |} ].

(** *** Well-formed reports

    What a report has to satisfy for the round trip: its strings are ASCII
    (for these the model of the codec does what Go does), its times are
    civil times of the years 0 to 9999 in a zone of whole minutes, and the
    counters of its summary are 64-bit integers. *)

Fixpoint is_ascii (s : string) : bool :=
  match s with
  | EmptyString => true
  | String c r => (N_of_ascii c <? 128)%N && is_ascii r
  end.

Definition valid_time (t : Time) : Prop :=
  (0 <= year t <= 9999 /\ 1 <= month t <= 12 /\
   1 <= day t <= daysIn (month t) (year t) /\
   0 <= hour t <= 23 /\ 0 <= minute t <= 59 /\ 0 <= second t <= 59 /\
   0 <= nanosecond t < 1000000000 /\
   - 86400 < zoneOffset t < 86400 /\ zoneOffset t mod 60 = 0)%Z.

Definition well_formed_result (r : PrecheckResult) : Prop :=
  is_ascii (pr_Name r) = true /\ is_ascii (pr_Status r) = true /\
  is_ascii (pr_Message r) = true /\ is_ascii (pr_Details r) = true /\
  is_ascii (pr_Duration r) = true /\ is_ascii (pr_Remediation r) = true /\
  valid_time (pr_Timestamp r).

Definition well_formed_summary (s : PrecheckSummary) : Prop :=
  is_int64 (Total s) = true /\ is_int64 (Passed s) = true /\
  is_int64 (Warnings s) = true /\ is_int64 (Failed s) = true.

Definition well_formed (r : PrecheckResults) : Prop :=
  Forall well_formed_result (Results r) /\
  well_formed_summary (Summary r) /\
  valid_time (Timestamp r) /\
  is_ascii (ClusterRef r) = true.

Fixpoint all_digits (s : string) : bool :=
  match s with
  | EmptyString => true
  | String c r => is_digit c && all_digits r
  end.

(** The next character, if any, is not a digit. *)
Definition no_digit_ahead (rest : string) : Prop :=
  match rest with
  | EmptyString => True
  | String c _ => is_digit c = false
  end.

(** A tree that [render] writes and [parse_value] reads back: its strings
    and keys are raw tokens that end at the closing quote, and its numbers
    are integers as [enc_int] writes them. *)
Definition raw_token (raw : string) : Prop :=
  forall rest, scan_string (raw +:+ String quote rest) = Some (raw, rest).

Fixpoint canonical (j : json) : Prop :=
  match j with
  | JNull | JBool _ => True
  | JNum l => exists z, l = string_of_Z z
  | JStr raw => raw_token raw
  | JArr l =>
      (fix all (l : list json) : Prop :=
         match l with
         | [] => True
         | x :: r => canonical x /\ all r
         end) l
  | JObj l =>
      (fix all (l : list (string * json)) : Prop :=
         match l with
         | [] => True
         | (k, v) :: r => (raw_token k /\ canonical v) /\ all r
         end) l
  end.

(** The same for the elements of an array and the members of an object. *)
Fixpoint canonical_elements (l : list json) : Prop :=
  match l with
  | [] => True
  | x :: r => canonical x /\ canonical_elements r
  end.

Fixpoint canonical_members (l : list (string * json)) : Prop :=
  match l with
  | [] => True
  | (k, v) :: r => (raw_token k /\ canonical v) /\ canonical_members r
  end.

(** What may follow a value in a rendered document. *)
Definition closes (rest : string) : Prop :=
  match rest with
  | EmptyString => True
  | String c _ => c = ","%char \/ c = "}"%char \/ c = "]"%char
  end.

(** The nodes of a tree, which bound the fuel that reading it takes. *)
Fixpoint nodes (j : json) : nat :=
  match j with
  | JArr l =>
      S ((fix sum (l : list json) : nat :=
            match l with
            | [] => O
            | x :: r => S (nodes x + sum r)
            end) l)
  | JObj l =>
      S ((fix sum (l : list (string * json)) : nat :=
            match l with
            | [] => O
            | (_, v) :: r => S (nodes v + sum r)
            end) l)
  | _ => 1%nat
  end.

Fixpoint nodes_elements (l : list json) : nat :=
  match l with
  | [] => O
  | x :: r => S (nodes x + nodes_elements r)
  end.

Fixpoint nodes_members (l : list (string * json)) : nat :=
  match l with
  | [] => O
  | (_, v) :: r => S (nodes v + nodes_members r)
  end.

(** The characters that a value can start with. *)
Definition value_start (c : ascii) : bool :=
  let n := N_of_ascii c in
  (is_digit c || (n =? 45) || (n =? 34) || (n =? 123) || (n =? 91)
   || (n =? 116) || (n =? 102) || (n =? 110))%N.

(** ** Example worlds

    The cluster of the demo: one group with one replica, deployed with the
    11.3.0 image and asked to run 11.4.0. *)

Definition example_time : Time :=
  {| year := 2024; month := 1; day := 15; hour := 10; minute := 30;
     second := 0; nanosecond := 0; zoneOffset := 0 |}.

Definition example_status (state : string) : ClusterStatus :=
  {| st_UpgradePaused := false; st_UpgradeState := state;
     st_CurrentImage := "progressofficial/marklogic-db:11.3.0-ubi-rootless";
     st_LastUpgradeTime := None; st_Conditions := [] |}.

(** The example cluster with the given annotations. *)
Definition example_cluster (a : list (string * string)) : MarklogicCluster :=
  {| Name := "test-cluster"; Namespace := "default";
     CreationTimestamp := example_time;
     Annotations := list_to_map a;
     Image := "progressofficial/marklogic-db:11.4.0-ubi-rootless";
     MarkLogicGroups := [ {| g_Name := "node"; g_Replicas := 1 |} ];
     Status := example_status (default EmptyString
                 (snd <$> List.find (fun kv => fst kv =? AnnotationUpgradeState) a)) |}.

(** A world around a cluster: the StatefulSet of the group with [ready]
    replicas ready, no events yet, and the given outcomes of the writes. *)
Definition example_world (c : MarklogicCluster) (ready : Z)
    (outcomes : list (option error)) : World :=
  {| obj := c; persisted := c;
     statefulsets := {[ ("default", "node") := {| ReadyReplicas := ready |} ]};
     events := []; faults := outcomes;
     clock := example_time; ticks := [] |}.

(** A report with one failed check. *)
Definition failing_report : PrecheckResults :=
  let results :=
    [ {| pr_Name := "Cluster Health Check"; pr_Status := "FAIL";
         pr_Message := "A cluster node is not responding";
         pr_Details := EmptyString; pr_Timestamp := example_time;
         pr_Duration := "2.5s"; pr_Remediation := EmptyString |} ] in
  {| Results := results; Summary := calculate_summary results;
     Timestamp := example_time; ClusterRef := "default/test-cluster" |}.

Definition failing_report_json : string :=
  match ToJSON failing_report with
  | inl s => s
  | inr _ => EmptyString
  end.

(** The cluster waiting for approval with the proceed signal set, a stored
    report with a failed check, and no force annotation. *)
Definition approved_despite_failure : World :=
  example_world
    (example_cluster
       [(AnnotationUpgradeState, UpgradeStateWaitingUser);
        (AnnotationPrecheckResults, failing_report_json);
        (AnnotationProceedUpgrade, "true")])
    1 [].

(** The same cluster once the desired image is the one it runs. *)
Definition settled (c : MarklogicCluster) : MarklogicCluster :=
  {| Name := Name c; Namespace := Namespace c;
     CreationTimestamp := CreationTimestamp c; Annotations := Annotations c;
     Image := st_CurrentImage (Status c);
     MarkLogicGroups := MarkLogicGroups c; Status := Status c |}.

(** ** The rest of the rolling-upgrade handler and the controller *)

(** [rollbackUpgrade], which no handler calls yet. *)
Definition rollbackUpgrade : M (option error) :=
  RecordEvent EventTypeWarning "UpgradeRollback"
    "Rolling back upgrade due to failure" ;;
  ret None.

Section Controller.

(** What [Reconcile] calls outside the handler package, and what is not
    part of these files: [k8sutil.CreateClusterContext], after which
    [cc.GetMarkLogicCluster()] is the cluster pointer, [errors.IsNotFound],
    and the normal reconciliation [cc.ReconsileMarklogicClusterHandler]. *)
Variable CreateClusterContext : M (option error).
Variable IsNotFound : error -> bool.
Variable ReconsileMarklogicClusterHandler : M (Result * option error).

(** [Reconcile] (marklogiccluster_controller.go) *)
Definition Reconcile : M (Result * option error) :=
  err <- CreateClusterContext ;;
  match err with
  | Some err =>
      if IsNotFound err then ret (NoRequeue, None)   (* nothing to do *)
      else ret (NoRequeue, Some err)
  | None =>
      (* Handle interactive upgrade workflow using handlers *)
      r <- HandleUpgradeWorkflow ;;
      let '(upgradeResult, err) := r in
      match err with
      | Some err => ret (NoRequeue, Some err)
      | None =>
          (* If upgrade workflow is active, prioritize it *)
          if Requeue upgradeResult || (0 <? RequeueAfter upgradeResult)%Z
          then ret (upgradeResult, None)
          else
            annotations <- GetAnnotations ;;
            let upgradeState := get annotations AnnotationUpgradeState in
            (* Skip normal reconciliation during upgrade states *)
            if negb (upgradeState =? EmptyString)
               && negb (upgradeState =? UpgradeStateIdle)
               && negb (upgradeState =? UpgradeStateCompleted)
               && negb (upgradeState =? UpgradeStateFailed)
               && negb (upgradeState =? UpgradeStateCancelled)
            then ret (NoRequeue, None)
            else
              (* Continue with normal reconciliation *)
              r <- ReconsileMarklogicClusterHandler ;;
              match snd r with
              | Some err => ret (NoRequeue, Some err)
              | None => ret (fst r, None)
              end
      end
  end.

End Controller.

(** ** Vocabulary of the further statements *)

(** A cluster context for an object that exists: the cluster pointer holds
    what the API server holds. *)
Definition fetched : M (option error) :=
  fun w => (None, with_obj (persisted w) w).

(** [kubectl annotate]: the user sets an annotation of the stored object. *)
Definition annotate (k v : string) (w : World) : World :=
  with_persisted
    (with_Annotations (<[k := v]> (Annotations (persisted w))) (persisted w)) w.

(** The annotations that the workflow writes or removes. *)
Definition managed_keys : list string :=
  [AnnotationUpgradeState; AnnotationTriggerUpgrade; AnnotationProceedUpgrade;
   AnnotationCancelUpgrade; AnnotationPrecheckResults].

(** What the workflow reads of an object but has no business changing. *)
Definition spec_of (c : MarklogicCluster)
  : string * string * Time * string * list MarklogicGroups :=
  (Name c, Namespace c, CreationTimestamp c, Image c, MarkLogicGroups c).

(** The conditions of an object that are not the workflow's own. *)
Definition other_conditions (c : MarklogicCluster) : list Condition :=
  List.filter (fun x => negb (c_Type x =? "UpgradeInProgress"))
    (st_Conditions (Status c)).

(** Two objects that differ at most in what the workflow manages: the five
    annotations, the upgrade fields of the status and the condition
    UpgradeInProgress. *)
Definition alike (c c' : MarklogicCluster) : Prop :=
  spec_of c' = spec_of c /\
  other_conditions c' = other_conditions c /\
  forall k, ~ In k managed_keys -> Annotations c' !! k = Annotations c !! k.

(** The world after a step, seen from the world before it: the StatefulSets
    are the same, events have only been added, the outcomes of the writes
    have been used up from the front, and when the object in memory and the
    stored one were alike, both are still like they were. *)
Definition frame (w w' : World) : Prop :=
  statefulsets w' = statefulsets w /\
  (exists new, events w' = events w ++ new) /\
  (exists used, faults w = used ++ faults w') /\
  (alike (obj w) (persisted w) ->
   alike (obj w) (obj w') /\ alike (persisted w) (persisted w')).

(** Every run of a computation is a step of the relation; every run keeps
    the invariant. *)
Definition respects (R : World -> World -> Prop) {A : Type} (m : M A) : Prop :=
  forall w, R w (snd (m w)).

Definition keeps (I : World -> Prop) {A : Type} (m : M A) : Prop :=
  forall w, I w -> I (snd (m w)).

(** The outcomes of the writes are used up from the front. *)
Definition consumes (w w' : World) : Prop :=
  exists used, faults w = used ++ faults w'.

(** A computation whose error, when its value carries one, is the outcome
    of one of the writes it made. *)
Definition reports {A : Type} (err : A -> option error) (m : M A) : Prop :=
  forall w e, err (fst (m w)) = Some e -> In (Some e) (faults w).

(** A handler that reports its error in this way and asks for no requeue
    with it. *)
Definition blames (m : M (Result * option error)) : Prop :=
  forall w e, snd (fst (m w)) = Some e ->
    fst (fst (m w)) = NoRequeue /\ In (Some e) (faults w).

(** A handler that never asks to be called again. *)
Definition quiet (m : M (Result * option error)) : Prop :=
  forall w, fst (fst (m w)) = NoRequeue.

(** The events of the steps of the workflow. *)
Definition precheck_completed : Event :=
  {| ev_Type := EventTypeNormal; ev_Reason := "PrecheckCompleted";
     ev_Message := "Prechecks completed with 8 checks" |}.

Definition awaiting_approval : Event :=
  {| ev_Type := EventTypeNormal; ev_Reason := "AwaitingApproval";
     ev_Message := "Prechecks completed. Review results and set annotation marklogic.com/proceed-with-upgrade=true to proceed or marklogic.com/cancel-upgrade=true to cancel" |}.

Definition upgrade_completed : list Event :=
  health_checked ++
  [ {| ev_Type := EventTypeNormal; ev_Reason := "RollingUpgradeCompleted";
       ev_Message := "Rolling upgrade completed successfully" |};
    {| ev_Type := EventTypeNormal; ev_Reason := "UpgradeCompleted";
       ev_Message := "Rolling upgrade completed successfully" |} ].

(** Every coming write succeeds. *)
Definition calm (w : World) : Prop :=
  Forall (fun outcome => outcome = None) (faults w).

(** The states in which [Reconcile] skips the normal reconciliation. *)
Definition upgrade_active (state : string) : bool :=
  negb (state =? EmptyString) && negb (state =? UpgradeStateIdle)
  && negb (state =? UpgradeStateCompleted) && negb (state =? UpgradeStateFailed)
  && negb (state =? UpgradeStateCancelled).

(** What [Reconcile] returns for the outcome of a handler. *)
Definition returned (r : (Result * option error) * World)
  : (Result * option error) * World :=
  match snd (fst r) with
  | Some err => ((NoRequeue, Some err), snd r)
  | None => ((fst (fst r), None), snd r)
  end.

(** A result whose status is one of the three that the summary counts. *)
Definition counted (r : PrecheckResult) : Prop :=
  pr_Status r = "PASS" \/ pr_Status r = "WARN" \/ pr_Status r = "FAIL".

(** A time that [Time.MarshalJSON] can write. *)
Definition formattable (t : Time) : Prop :=
  (0 <= year t <= 9999 /\ - 86400 < zoneOffset t < 86400)%Z.

(** The names of the eight mock prechecks, in the order of the report. *)
Definition precheck_names : list string :=
  [ "Image Change Validation"; "Cluster Health Check"; "Database Connectivity";
    "Forest Health Check"; "Resource Availability"; "Backup Status";
    "License Validation"; "Network Connectivity" ].

(** A step after which the annotations of the object in memory are those
    of the object in memory or of the stored one before it, and so are the
    annotations of the stored object: a step that at most stores the
    annotations or reads them back. *)
Definition annot_step (w w' : World) : Prop :=
  (Annotations (obj w') = Annotations (obj w) \/
   Annotations (obj w') = Annotations (persisted w)) /\
  (Annotations (persisted w') = Annotations (persisted w) \/
   Annotations (persisted w') = Annotations (obj w)).

(** A property of annotations that holds of the object in memory and of the
    stored one. *)
Definition annotations_satisfy (P : gmap string string -> Prop) (w : World) : Prop :=
  P (Annotations (obj w)) /\ P (Annotations (persisted w)).

(** A step that writes nothing: the object in memory, the stored object and
    the outcomes of the coming writes are as before. *)
Definition unwritten (w w' : World) : Prop :=
  obj w' = obj w /\ persisted w' = persisted w /\ faults w' = faults w.

(** A status that is [s0], but for its current image, which may be
    [image]. *)
Definition image_only (s0 : ClusterStatus) (image : string) (s : ClusterStatus)
  : Prop :=
  s = s0 \/ s = with_CurrentImage image s0.

(** During a pass on an object fetched with the status [s0] and the desired
    image [image], up to the call of a function that writes a state: the
    desired image is [image], and the status in memory and the stored one
    are [s0] but for the current image. *)
Definition within (s0 : ClusterStatus) (image : string) (w : World) : Prop :=
  Image (obj w) = image /\ Image (persisted w) = image /\
  image_only s0 image (Status (obj w)) /\
  image_only s0 image (Status (persisted w)).

(** The stored status is [s0] but for the current image. *)
Definition stores_image_only (s0 : ClusterStatus) (image : string) (w : World)
  : Prop :=
  image_only s0 image (Status (persisted w)).

(** Every run of a computation from a world in [I] ends in a world in [J]. *)
Definition leads (I J : World -> Prop) {A : Type} (m : M A) : Prop :=
  forall w, I w -> J (snd (m w)).



(** * Properties *)

(** ** The summary of a report *)

Lemma count_results_spec (results : list PrecheckResult) (p w f : Z) :
  count_results results p w f =
  ((p + Z.of_nat (length (with_status "PASS" results)))%Z,
   (w + Z.of_nat (length (with_status "WARN" results)))%Z,
   (f + Z.of_nat (length (with_status "FAIL" results)))%Z).
Proof.
  revert p w f.
  induction results as [|r rest IH]; intros p w f.
  - cbn. repeat (apply pair_equal_spec; split); lia.
  - cbn [count_results].
    unfold with_status in *. cbn [List.filter].
    destruct (pr_Status r =? "PASS") eqn:Hp.
    { apply String.eqb_eq in Hp. rewrite Hp. cbn -[Z.of_nat Z.add].
      rewrite IH. cbn [length]. repeat (apply pair_equal_spec; split); lia. }
    destruct (pr_Status r =? "WARN") eqn:Hw.
    { apply String.eqb_eq in Hw. rewrite Hw. cbn -[Z.of_nat Z.add].
      rewrite IH. cbn [length]. repeat (apply pair_equal_spec; split); lia. }
    destruct (pr_Status r =? "FAIL") eqn:Hf.
    { rewrite IH. cbn [length]. repeat (apply pair_equal_spec; split); lia. }
    apply IH.
Qed.

Lemma summary_failed (results : list PrecheckResult) :
  Failed (calculate_summary results) =
  Z.of_nat (length (with_status "FAIL" results)).
Proof.
  unfold calculate_summary. rewrite count_results_spec. reflexivity.
Qed.

Lemma summary_canProceed_eq (results : list PrecheckResult) :
  CanProceed (calculate_summary results) =
  (Failed (calculate_summary results) =? 0)%Z.
Proof.
  unfold calculate_summary. rewrite count_results_spec. reflexivity.
Qed.

Lemma no_fail_filter (results : list PrecheckResult) :
  with_status "FAIL" results = [] <->
  (forall r, In r results -> pr_Status r <> "FAIL").
Proof.
  unfold with_status. induction results as [|x rest IH]; cbn.
  - split; [intros _ r [] | reflexivity].
  - destruct (pr_Status x =? "FAIL") eqn:E.
    + apply String.eqb_eq in E. split; [discriminate |].
      intros H. exfalso. apply (H x); auto.
    + apply String.eqb_neq in E. rewrite IH. split.
      * intros H r [<- | Hr]; auto.
      * intros H r Hr. apply H. auto.
Qed.

Lemma summary_canProceed_iff (results : list PrecheckResult) :
  CanProceed (calculate_summary results) = true <->
  (forall r, In r results -> pr_Status r <> "FAIL").
Proof.
  rewrite summary_canProceed_eq, summary_failed, <- no_fail_filter.
  rewrite Z.eqb_eq.
  destruct (with_status "FAIL" results); cbn [length]; split; intros H;
    try reflexivity; try discriminate; lia.
Qed.

(** C4.  In every report that the precheck handler produces the summary
    satisfies canProceed = (failed == 0), and canProceed is true exactly when
    no result has the status FAIL; the same holds for the summary of any
    list of results, so that warnings never make canProceed false. *)
Theorem canProceed_iff_no_fail :
  (forall (skipForestCheck : bool) (w : World),
      let report := fst (generateMockPrecheckResults skipForestCheck w) in
      CanProceed (Summary report) = (Failed (Summary report) =? 0)%Z /\
      (CanProceed (Summary report) = true <->
       forall r, In r (Results report) -> pr_Status r <> "FAIL")) /\
  (forall results : list PrecheckResult,
      let summary := calculate_summary results in
      CanProceed summary = (Failed summary =? 0)%Z /\
      (CanProceed summary = true <->
       forall r, In r results -> pr_Status r <> "FAIL") /\
      ((forall r, In r results -> pr_Status r = "PASS" \/ pr_Status r = "WARN") ->
       CanProceed summary = true)).
Proof.
  split.
  - intros skip w. cbn zeta.
    change (Summary (fst (generateMockPrecheckResults skip w)))
      with (calculate_summary (Results (fst (generateMockPrecheckResults skip w)))).
    split; [apply summary_canProceed_eq | apply summary_canProceed_iff].
  - intros results. cbn zeta.
    split; [apply summary_canProceed_eq |].
    split; [apply summary_canProceed_iff |].
    intros H. apply summary_canProceed_iff.
    intros r Hr E. destruct (H r Hr) as [E' | E']; rewrite E' in E; discriminate.
Qed.

(** ** The precheck handler always has its report ready *)

Lemma mock_results_length c skip now : length (mock_results c skip now) = 8%nat.
Proof. destruct skip; reflexivity. Qed.




Lemma CheckPrecheckStatus_spec w :
  CheckPrecheckStatus w =
  ((true, Some (fst (generateMockPrecheckResults (signal AnnotationSkipForestCheck (obj w)) w)), None),
   with_clock (hd (clock w) (ticks w)) (tl (ticks w)) w).
Proof. destruct w; reflexivity. Qed.


(** ** The two writes of a state transition *)

(** Symbolic execution of a handler on a world given by its fields. *)
Ltac exec :=
  repeat (unfold bind, ret, GetAnnotations, cluster, SetAnnotations, assign,
            assign_status, Update, StatusUpdate, next_fault, Now, Since,
            RecordEvent, Sleep, GetStatefulSet, with_obj, with_persisted,
            with_events, with_faults, with_clock;
          cbn).

Lemma updateCondition_In conditions c :
  In c (updateCondition conditions c).
Proof.
  induction conditions as [|x rest IH]; cbn; [auto |].
  destruct (c_Type x =? c_Type c); cbn; auto.
Qed.

Lemma update_first_fails state results w e :
  hd None (faults w) = Some e ->
  exists w',
    updateUpgradeStateWithResults state results w = ((NoRequeue, Some e), w') /\
    persisted w' = persisted w /\ events w' = events w /\
    statefulsets w' = statefulsets w /\ faults w' = tl (faults w).
Proof.
  destruct w as [o p sts ev fl ck tk]. cbn. intros H.
  unfold updateUpgradeStateWithResults.
  destruct (is_final state); destruct (state =? UpgradeStateCompleted);
    exec; rewrite H; exec; eauto 10.
Qed.

Lemma update_second_fails state results w e :
  hd None (faults w) = None -> hd None (tl (faults w)) = Some e ->
  exists w',
    updateUpgradeStateWithResults state results w = ((NoRequeue, Some e), w') /\
    Annotations (persisted w') = stored state results (Annotations (obj w)) /\
    Status (persisted w') = Status (persisted w) /\ events w' = events w /\
    statefulsets w' = statefulsets w /\ faults w' = tl (tl (faults w)).
Proof.
  destruct w as [o p sts ev fl ck tk]. cbn. intros H1 H2.
  unfold updateUpgradeStateWithResults, stored.
  destruct (is_final state); destruct (state =? UpgradeStateCompleted);
    exec; rewrite H1; exec; rewrite H2; exec; eauto 15.
Qed.

Lemma update_succeeds state results w :
  writes_succeed 2 (faults w) ->
  exists w',
    updateUpgradeStateWithResults state results w = ((NoRequeue, None), w') /\
    Annotations (persisted w') = stored state results (Annotations (obj w)) /\
    Status (persisted w') = Status (persisted w) /\
    Image (persisted w') = Image (obj w) /\
    obj w' = persisted w' /\
    events w' = events w /\ statefulsets w' = statefulsets w /\
    faults w' = tl (tl (faults w)).
Proof.
  destruct w as [o p sts ev fl ck tk]. cbn. intros (H1 & H2 & _).
  unfold updateUpgradeStateWithResults, stored.
  destruct (is_final state); destruct (state =? UpgradeStateCompleted);
    exec; rewrite H1; exec; rewrite H2; exec;
    (eexists; split; [reflexivity |]; cbn; repeat split; reflexivity).
Qed.

Lemma cleanup_first_fails state w e :
  hd None (faults w) = Some e ->
  exists w',
    cleanupUpgradeAnnotations state w = ((NoRequeue, Some e), w') /\
    persisted w' = persisted w /\ events w' = events w /\
    statefulsets w' = statefulsets w /\ faults w' = tl (faults w).
Proof.
  destruct w as [o p sts ev fl ck tk]. cbn. intros H.
  unfold cleanupUpgradeAnnotations.
  destruct (state =? UpgradeStateCompleted);
    exec; rewrite H; exec; eauto 10.
Qed.

Lemma cleanup_second_fails state w e :
  hd None (faults w) = None -> hd None (tl (faults w)) = Some e ->
  exists w',
    cleanupUpgradeAnnotations state w = ((NoRequeue, Some e), w') /\
    Annotations (persisted w') = cleaned state (Annotations (obj w)) /\
    Status (persisted w') = Status (persisted w) /\ events w' = events w /\
    statefulsets w' = statefulsets w /\ faults w' = tl (tl (faults w)).
Proof.
  destruct w as [o p sts ev fl ck tk]. cbn. intros H1 H2.
  unfold cleanupUpgradeAnnotations, cleaned.
  destruct (state =? UpgradeStateCompleted);
    exec; rewrite H1; exec; rewrite H2; exec; eauto 15.
Qed.

Lemma cleanup_succeeds state w :
  writes_succeed 2 (faults w) ->
  exists w',
    cleanupUpgradeAnnotations state w = ((NoRequeue, None), w') /\
    Annotations (persisted w') = cleaned state (Annotations (obj w)) /\
    Status (persisted w') = Status (persisted w) /\
    Image (persisted w') = Image (obj w) /\
    obj w' = persisted w' /\
    events w' = events w /\ statefulsets w' = statefulsets w /\
    faults w' = tl (tl (faults w)).
Proof.
  destruct w as [o p sts ev fl ck tk]. cbn. intros (H1 & H2 & _).
  unfold cleanupUpgradeAnnotations, cleaned.
  destruct (state =? UpgradeStateCompleted);
    exec; rewrite H1; exec; rewrite H2; exec;
    (eexists; split; [reflexivity |]; cbn; repeat split; reflexivity).
Qed.

Lemma stored_state state results a :
  stored state results a !! AnnotationUpgradeState = Some state.
Proof.
  unfold stored. destruct results as [r|]; [destruct (ToJSON r) |];
    rewrite ?lookup_insert_ne by discriminate; apply lookup_insert_eq.
Qed.



(** ** One invocation *)

Lemma invocation_unfold w :
  invocation w = HandleUpgradeWorkflow (with_obj (persisted w) w).
Proof. reflexivity. Qed.

(** Outside the idle state an invocation goes straight to the cancel check
    and then to the dispatch on the state. *)
Lemma workflow_not_idle w :
  state_of (obj w) <> EmptyString -> state_of (obj w) <> UpgradeStateIdle ->
  HandleUpgradeWorkflow w =
  (if signal AnnotationCancelUpgrade (obj w)
   then handleCancellation (Annotations (obj w))
   else dispatch (state_of (obj w)) (Annotations (obj w))) w.
Proof.
  intros H1 H2. apply String.eqb_neq in H1, H2.
  destruct w as [o p sts ev fl ck tk].
  unfold HandleUpgradeWorkflow, signal, state_of in *. cbn in H1, H2.
  exec. rewrite H1, H2. cbn. rewrite ?H2. reflexivity.
Qed.

Lemma StartRollingUpgrade_spec w :
  StartRollingUpgrade w = (None, with_events (events w ++ rollout_started) w).
Proof.
  destruct w as [o p sts ev fl ck tk].
  unfold StartRollingUpgrade, performRollingUpgrade. exec.
  repeat rewrite <- app_assoc. reflexivity.
Qed.

(** The approval gate looks at the proceed signal and at nothing else. *)
Lemma waiting_proceeds annotations w :
  get annotations AnnotationProceedUpgrade = "true" ->
  writes_succeed 2 (faults w) ->
  exists w',
    handleWaitingUserState annotations w = ((NoRequeue, None), w') /\
    Annotations (persisted w') =
      <[AnnotationUpgradeState := UpgradeStateInProgress]> (Annotations (obj w)) /\
    Status (persisted w') = Status (persisted w) /\
    events w' = events w ++ approved :: rollout_started /\
    statefulsets w' = statefulsets w.
Proof.
  intros Hp Hw. unfold handleWaitingUserState. rewrite Hp.
  cbn [String.eqb Ascii.eqb Bool.eqb].
  unfold bind at 1. unfold RecordEvent at 1.
  unfold bind at 1. rewrite StartRollingUpgrade_spec.
  unfold updateUpgradeState.
  match goal with |- context [updateUpgradeStateWithResults _ _ ?w1] =>
    destruct (update_succeeds UpgradeStateInProgress None w1) as (w' & E & Ha & Hs & _ & _ & He & Hst & _);
      [destruct w; exact Hw |]
  end.
  exists w'. split; [exact E |].
  destruct w. cbn in *. rewrite <- app_assoc in He. auto.
Qed.

(** C1, as the code has it.  In the state WaitingForUserApproval with the
    proceed signal set and the cancel signal not set, an invocation whose
    writes succeed starts the rollout and moves to UpgradeInProgress,
    whatever the stored precheck report says: the report is not read, and it
    is left as it was. *)
Theorem approval_ignores_report (w : World) :
  state_of (persisted w) = UpgradeStateWaitingUser ->
  signal AnnotationProceedUpgrade (persisted w) = true ->
  signal AnnotationCancelUpgrade (persisted w) = false ->
  writes_succeed 2 (faults w) ->
  let r := invocation w in
  fst r = (NoRequeue, None) /\
  state_of (persisted (snd r)) = UpgradeStateInProgress /\
  events (snd r) = events w ++ approved :: rollout_started /\
  Annotations (persisted (snd r)) !! AnnotationPrecheckResults
  = Annotations (persisted w) !! AnnotationPrecheckResults.
Proof.
  intros Hs Hp Hc Hw r. subst r.
  destruct w as [o p sts ev fl ck tk]. cbn in Hs, Hp, Hc, Hw.
  rewrite invocation_unfold, workflow_not_idle;
    try (cbn; rewrite Hs; discriminate).
  cbn [with_obj obj persisted].
  rewrite Hc, Hs.
  unfold dispatch. cbn [String.eqb Ascii.eqb Bool.eqb UpgradeStateWaitingUser
    UpgradeStateIdle UpgradeStatePrecheckStart UpgradeStatePrecheckDone].
  apply String.eqb_eq in Hp.
  match goal with |- context [handleWaitingUserState ?a ?w1] =>
    destruct (waiting_proceeds a w1 Hp Hw) as (w' & E & Ha & _ & He & _)
  end.
  rewrite E. cbn [fst snd]. cbn in Ha, He.
  split; [reflexivity |].
  unfold state_of, get. rewrite Ha.
  split; [rewrite lookup_insert_eq; reflexivity |].
  split; [exact He |].
  rewrite lookup_insert_ne by discriminate. reflexivity.
Qed.

Lemma approval_ignores_report_witness :
  let w := example_world
             (example_cluster
                [(AnnotationUpgradeState, UpgradeStateWaitingUser);
                 (AnnotationProceedUpgrade, "true")]) 1 [] in
  state_of (persisted w) = UpgradeStateWaitingUser /\
  state_of (persisted (snd (invocation w))) = UpgradeStateInProgress.
Proof.
  cbn zeta. split; [vm_compute; reflexivity |].
  apply approval_ignores_report; vm_compute; auto.
Defined.

(** C1 fails as stated: the stored report has a failed check and says that
    the upgrade cannot proceed, the proceed signal is set, no force
    annotation is present, and the invocation starts the rollout and leaves
    WaitingForUserApproval for UpgradeInProgress. *)
Lemma failed_precheck_does_not_block :
  let w := approved_despite_failure in
  let r := invocation w in
  ToJSON failing_report
  = inl (get (Annotations (persisted w)) AnnotationPrecheckResults) /\
  has_fail failing_report /\
  CanProceed (Summary failing_report) = false /\
  state_of (persisted w) = UpgradeStateWaitingUser /\
  signal AnnotationProceedUpgrade (persisted w) = true /\
  Annotations (persisted w) !! "marklogic.com/upgrade-force-reason" = None /\
  Annotations (persisted w) !! "marklogic.com/upgrade-force-proceed-reason" = None /\
  fst r = (NoRequeue, None) /\
  state_of (persisted (snd r)) = UpgradeStateInProgress /\
  state_of (persisted (snd r)) <> UpgradeStateWaitingUser /\
  events (snd r) = approved :: rollout_started.
Proof.
  cbn zeta.
  repeat match goal with |- _ /\ _ => split end;
    try (vm_compute; reflexivity).
  - eexists. split; [left; reflexivity | reflexivity].
  - vm_compute. discriminate.
Qed.

Lemma cancellation_refused annotations w :
  get annotations AnnotationUpgradeState = UpgradeStateInProgress ->
  handleCancellation annotations w =
  ((NoRequeue, None), with_events (events w ++ [cancellation_denied]) w).
Proof.
  intros H. unfold handleCancellation. rewrite H. reflexivity.
Qed.

Lemma cancellation_accepted annotations w :
  get annotations AnnotationUpgradeState <> UpgradeStateInProgress ->
  writes_succeed 2 (faults w) ->
  exists w',
    handleCancellation annotations w = ((NoRequeue, None), w') /\
    Annotations (persisted w') = cleaned UpgradeStateCancelled (Annotations (obj w)) /\
    Status (persisted w') = Status (persisted w) /\
    events w' = events w ++ [upgrade_cancelled] /\
    statefulsets w' = statefulsets w.
Proof.
  intros H Hw. apply String.eqb_neq in H.
  unfold handleCancellation. rewrite H.
  unfold bind at 1. unfold RecordEvent at 1.
  match goal with |- context [cleanupUpgradeAnnotations _ ?w1] =>
    destruct (cleanup_succeeds UpgradeStateCancelled w1)
      as (w' & E & Ha & Hs & _ & _ & He & Hst & _);
      [destruct w; exact Hw |]
  end.
  exists w'. split; [exact E |]. destruct w; cbn in *. auto.
Qed.

Lemma cleaned_state s a : cleaned s a !! AnnotationUpgradeState = Some s.
Proof.
  unfold cleaned. rewrite !lookup_delete_ne by discriminate.
  apply lookup_insert_eq.
Qed.

Lemma cleaned_signals s a k :
  In k control_signals -> cleaned s a !! k = None.
Proof.
  unfold cleaned, control_signals.
  intros [<- | [<- | [<- | []]]].
  - rewrite !lookup_delete_ne by discriminate. apply lookup_delete_eq.
  - rewrite lookup_delete_ne by discriminate. apply lookup_delete_eq.
  - apply lookup_delete_eq.
Qed.

Lemma cleaned_other s a k :
  k <> AnnotationUpgradeState -> ~ In k control_signals ->
  cleaned s a !! k = a !! k.
Proof.
  unfold cleaned, control_signals. cbn [In]. intros H1 H2.
  rewrite !lookup_delete_ne by (intros E; apply H2; auto).
  apply lookup_insert_ne. auto.
Qed.

(** The idle state of a cluster with a recorded current image. *)
Lemma workflow_idle_deployed w :
  idle (obj w) -> st_CurrentImage (Status (obj w)) <> EmptyString ->
  HandleUpgradeWorkflow w =
  if detectImageChanges (obj w) then
    match hd None (faults w) with
    | Some err => ((NoRequeue, Some err), with_faults (tl (faults w))
                     (with_obj (with_Annotations
                        (<[AnnotationTriggerUpgrade := "true"]> (Annotations (obj w)))
                        (obj w)) w))
    | None =>
        (if signal AnnotationCancelUpgrade (obj w)
         then handleCancellation
                (<[AnnotationTriggerUpgrade := "true"]> (Annotations (obj w)))
         else handleIdleState
                (<[AnnotationTriggerUpgrade := "true"]> (Annotations (obj w))))
          (auto_triggered w)
    end
  else
    (if negb (signal AnnotationTriggerUpgrade (obj w)) then ret (NoRequeue, None)
     else if signal AnnotationCancelUpgrade (obj w)
          then handleCancellation (Annotations (obj w))
          else handleIdleState (Annotations (obj w))) w.
Proof.
  intros Hi Hd. apply String.eqb_neq in Hd.
  destruct w as [o p sts ev fl ck tk]. cbn in Hi, Hd |- *.
  unfold HandleUpgradeWorkflow, isClusterDeployed, signal, auto_triggered.
  assert (Hs : (if get (Annotations o) AnnotationUpgradeState =? EmptyString
                then UpgradeStateIdle
                else get (Annotations o) AnnotationUpgradeState) = UpgradeStateIdle).
  { destruct Hi as [Hi | Hi]; unfold state_of in Hi; rewrite Hi; reflexivity. }
  exec. rewrite Hs. cbn. rewrite Hd. cbn. rewrite Hd. cbn.
  destruct (detectImageChanges o) eqn:Hc.
  - cbn. destruct (hd None fl) as [e|]; cbn; [reflexivity |].
    unfold get. rewrite lookup_insert_eq. cbn.
    rewrite lookup_insert_ne by discriminate.
    destruct (default EmptyString (Annotations o !! AnnotationCancelUpgrade) =? "true");
      reflexivity.
  - cbn.
    destruct (get (Annotations o) AnnotationTriggerUpgrade =? "true"); cbn;
      [| reflexivity].
    destruct (get (Annotations o) AnnotationCancelUpgrade =? "true"); reflexivity.
Qed.

Lemma handleIdleState_starts annotations w :
  get annotations AnnotationTriggerUpgrade = "true" ->
  writes_succeed 2 (faults w) ->
  exists w',
    handleIdleState annotations w = ((NoRequeue, None), w') /\
    Annotations (persisted w') =
      <[AnnotationUpgradeState := UpgradeStatePrecheckStart]> (Annotations (obj w)) /\
    Status (persisted w') = Status (persisted w) /\
    events w' = events w ++ prechecks_started /\
    statefulsets w' = statefulsets w.
Proof.
  intros Ht Hw. unfold handleIdleState. rewrite Ht.
  cbn [String.eqb Ascii.eqb Bool.eqb].
  unfold StartPrechecks, updateUpgradeState.
  unfold bind at 1. unfold bind at 1. unfold RecordEvent at 1.
  unfold ret at 1. unfold bind at 1. unfold RecordEvent at 1.
  match goal with |- context [updateUpgradeStateWithResults _ _ ?w1] =>
    destruct (update_succeeds UpgradeStatePrecheckStart None w1)
      as (w' & E & Ha & Hs & _ & _ & He & Hst & _);
      [destruct w; exact Hw |]
  end.
  exists w'. split; [exact E |].
  destruct w; cbn in *. rewrite <- app_assoc in He. auto.
Qed.

Lemma writes_succeed_S n l : writes_succeed (S n) l -> writes_succeed n l.
Proof.
  revert l. induction n as [|n IH]; intros l; [exact (fun _ => I) |].
  intros (H1 & H2). split; [exact H1 | apply IH, H2].
Qed.

(** Projections of a world that was built from another one. *)
Ltac fields :=
  cbn [obj persisted statefulsets events faults clock ticks
       with_obj with_persisted with_events with_faults with_clock].
Ltac fields_in H :=
  cbn [obj persisted statefulsets events faults clock ticks
       with_obj with_persisted with_events with_faults with_clock] in H.

(** C2, as the code has it.  With the cancel signal set:
    - in UpgradeInProgress the cancellation is refused: nothing is stored and
      the only event is the warning;
    - in every other state except the idle one the cancellation is accepted
      when the two writes succeed: the state becomes UpgradeCancelled and the
      three control signals are removed;
    - in the idle state of a cluster with a recorded image the cancel signal
      is looked at only when a trigger is set or the image has changed, and
      is then accepted as well; without either the invocation returns before
      the cancel check and changes nothing. *)
Theorem cancellation (w : World) :
  signal AnnotationCancelUpgrade (persisted w) = true ->
  let r := invocation w in
  (state_of (persisted w) = UpgradeStateInProgress ->
     fst r = (NoRequeue, None) /\
     persisted (snd r) = persisted w /\
     events (snd r) = events w ++ [cancellation_denied]) /\
  (state_of (persisted w) <> UpgradeStateInProgress ->
   ~ idle (persisted w) ->
   writes_succeed 2 (faults w) ->
     fst r = (NoRequeue, None) /\
     state_of (persisted (snd r)) = UpgradeStateCancelled /\
     (forall k, In k control_signals ->
        Annotations (persisted (snd r)) !! k = None) /\
     events (snd r) = events w ++ [upgrade_cancelled]) /\
  (idle (persisted w) ->
   st_CurrentImage (Status (persisted w)) <> EmptyString ->
   signal AnnotationTriggerUpgrade (persisted w) = true
   \/ st_CurrentImage (Status (persisted w)) <> Image (persisted w) ->
   writes_succeed 3 (faults w) ->
     fst r = (NoRequeue, None) /\
     state_of (persisted (snd r)) = UpgradeStateCancelled /\
     (forall k, In k control_signals ->
        Annotations (persisted (snd r)) !! k = None) /\
     events (snd r) = events w ++ [upgrade_cancelled]) /\
  (idle (persisted w) ->
   st_CurrentImage (Status (persisted w)) <> EmptyString ->
   signal AnnotationTriggerUpgrade (persisted w) = false ->
   st_CurrentImage (Status (persisted w)) = Image (persisted w) ->
     fst r = (NoRequeue, None) /\
     persisted (snd r) = persisted w /\
     events (snd r) = events w).
Proof.
  intros Hc r. subst r.
  rewrite invocation_unfold.
  destruct w as [o p sts ev fl ck tk].
  fields_in Hc. fields.
  split; [| split; [| split]].
  - intros Hs.
    rewrite workflow_not_idle by (fields; rewrite Hs; discriminate).
    fields. rewrite Hc. rewrite cancellation_refused by exact Hs.
    cbn. auto.
  - intros Hs Hi Hw.
    rewrite workflow_not_idle by (fields; intros E; apply Hi; red; auto).
    fields. rewrite Hc.
    match goal with |- context [handleCancellation ?a ?w1] =>
      destruct (cancellation_accepted a w1 Hs Hw) as (w' & E & Ha & _ & He & _)
    end.
    rewrite E. fields_in Ha. fields_in He. cbn [fst snd]. unfold state_of, get. rewrite Ha.
    split; [reflexivity |]. rewrite cleaned_state.
    split; [reflexivity |]. split; [| exact He].
    intros k Hk. apply cleaned_signals, Hk.
  - intros Hi Hd Ht Hw. pose proof (writes_succeed_S _ _ Hw) as Hw'.
    destruct Hw as (Hw1 & Hw2).
    rewrite workflow_idle_deployed by (fields; auto).
    fields. rewrite Hc.
    assert (Hne : forall a : gmap string string,
               get a AnnotationUpgradeState = EmptyString \/
               get a AnnotationUpgradeState = UpgradeStateIdle ->
               get a AnnotationUpgradeState <> UpgradeStateInProgress).
    { intros a [E | E]; rewrite E; discriminate. }
    destruct (detectImageChanges p) eqn:Hch.
    + rewrite Hw1.
      match goal with |- context [handleCancellation ?a ?w1] =>
        destruct (cancellation_accepted a w1) as (w' & E & Ha & _ & He & _);
          [| exact Hw2 |]
      end.
      { unfold get. rewrite lookup_insert_ne by discriminate. apply Hne, Hi. }
      rewrite E. fields_in Ha. fields_in He. cbn [fst snd]. unfold state_of, get. rewrite Ha.
      split; [reflexivity |]. rewrite cleaned_state.
      split; [reflexivity |]. split; [| exact He].
      intros k Hk. apply cleaned_signals, Hk.
    + assert (Htr : signal AnnotationTriggerUpgrade p = true).
      { destruct Ht as [Ht | Ht]; [exact Ht |].
        unfold detectImageChanges in Hch.
        apply String.eqb_neq in Hd, Ht. rewrite Hd, Ht in Hch. discriminate. }
      rewrite Htr. cbn [negb].
      match goal with |- context [handleCancellation ?a ?w1] =>
        destruct (cancellation_accepted a w1) as (w' & E & Ha & _ & He & _);
          [apply Hne, Hi | exact Hw' |]
      end.
      rewrite E. fields_in Ha. fields_in He. cbn [fst snd]. unfold state_of, get. rewrite Ha.
      split; [reflexivity |]. rewrite cleaned_state.
      split; [reflexivity |]. split; [| exact He].
      intros k Hk. apply cleaned_signals, Hk.
  - intros Hi Hd Ht Him.
    rewrite workflow_idle_deployed by (fields; auto).
    fields. rewrite Ht.
    unfold detectImageChanges. rewrite Him.
    apply String.eqb_neq in Hd. rewrite Him in Hd. rewrite Hd, String.eqb_refl.
    cbn. auto.
Qed.

Lemma cancellation_witness :
  let w := example_world
             (example_cluster
                [(AnnotationUpgradeState, UpgradeStateWaitingUser);
                 (AnnotationCancelUpgrade, "true")]) 1 [] in
  signal AnnotationCancelUpgrade (persisted w) = true /\
  state_of (persisted (snd (invocation w))) = UpgradeStateCancelled.
Proof.
  cbn zeta.
  assert (H : signal AnnotationCancelUpgrade
                (persisted (example_world
                   (example_cluster
                      [(AnnotationUpgradeState, UpgradeStateWaitingUser);
                       (AnnotationCancelUpgrade, "true")]) 1 [])) = true)
    by (vm_compute; reflexivity).
  split; [exact H |].
  destruct (cancellation _ H) as (_ & H2 & _).
  apply H2.
  - vm_compute. discriminate.
  - vm_compute. intros [E | E]; discriminate.
  - vm_compute. auto.
Defined.

(** C2 fails as stated: the cluster is idle, deployed and runs the image it
    is asked to run, no trigger is set and the cancel signal is; the
    invocation returns before the cancel check, the state is not
    UpgradeCancelled and the cancel signal is still there. *)
Lemma cancel_ignored_when_idle :
  let w := example_world
             (settled (example_cluster
                [(AnnotationUpgradeState, UpgradeStateIdle);
                 (AnnotationCancelUpgrade, "true")])) 1 [] in
  let r := invocation w in
  signal AnnotationCancelUpgrade (persisted w) = true /\
  state_of (persisted w) = UpgradeStateIdle /\
  state_of (persisted w) <> UpgradeStateInProgress /\
  fst r = (NoRequeue, None) /\
  state_of (persisted (snd r)) = UpgradeStateIdle /\
  state_of (persisted (snd r)) <> UpgradeStateCancelled /\
  signal AnnotationCancelUpgrade (persisted (snd r)) = true /\
  events (snd r) = [].
Proof.
  cbn zeta.
  repeat match goal with |- _ /\ _ => split end;
    try (vm_compute; reflexivity); vm_compute; discriminate.
Qed.

(** Without a recorded current image no trigger is set, whatever the clock
    and the conditions say about the age of the cluster. *)
Lemma workflow_idle_no_image w :
  idle (obj w) -> st_CurrentImage (Status (obj w)) = EmptyString ->
  signal AnnotationTriggerUpgrade (obj w) = false ->
  let r := HandleUpgradeWorkflow w in
  Annotations (persisted (snd r)) = Annotations (persisted w) /\
  events (snd r) = events w.
Proof.
  intros Hi Hd Ht.
  destruct w as [o p sts ev fl ck tk]. fields_in Hi. fields_in Hd. fields_in Ht.
  unfold HandleUpgradeWorkflow, isClusterDeployed, updateStatusAfterDeployment,
    signal, detectImageChanges in *.
  assert (Hs : (if get (Annotations o) AnnotationUpgradeState =? EmptyString
                then UpgradeStateIdle
                else get (Annotations o) AnnotationUpgradeState) = UpgradeStateIdle).
  { destruct Hi as [Hi | Hi]; unfold state_of in Hi; rewrite Hi; reflexivity. }
  exec. rewrite Hs. cbn.
  repeat (rewrite ?Hd, ?Ht; cbn; rewrite ?Hd, ?Ht; cbn;
          match goal with
          | |- context [match hd None ?l with _ => _ end] => destruct (hd None l); cbn
          | |- context [if ?b then _ else _] => destruct b eqn:?; cbn
          end);
    rewrite ?Hd, ?Ht; cbn; auto; rewrite Ht in *; cbn [negb] in *; try discriminate;
    cbn; auto.
Qed.

(** C6, as the code has it.  For an idle cluster with the cancel signal not
    set: when a current image is recorded and differs from the desired one,
    an invocation whose writes succeed sets the trigger and moves to
    PrecheckStarted in the same invocation; when no current image is
    recorded and no trigger is set, the invocation sets no trigger and
    leaves the annotations as they were. *)
Theorem image_change_triggers_prechecks (w : World) :
  idle (persisted w) ->
  signal AnnotationCancelUpgrade (persisted w) = false ->
  let r := invocation w in
  (st_CurrentImage (Status (persisted w)) <> EmptyString ->
   st_CurrentImage (Status (persisted w)) <> Image (persisted w) ->
   writes_succeed 3 (faults w) ->
     fst r = (NoRequeue, None) /\
     get (Annotations (persisted (snd r))) AnnotationTriggerUpgrade = "true" /\
     state_of (persisted (snd r)) = UpgradeStatePrecheckStart /\
     events (snd r) = events w ++ prechecks_started) /\
  (st_CurrentImage (Status (persisted w)) = EmptyString ->
   signal AnnotationTriggerUpgrade (persisted w) = false ->
     Annotations (persisted (snd r)) = Annotations (persisted w) /\
     events (snd r) = events w).
Proof.
  intros Hi Hc r. subst r.
  rewrite invocation_unfold.
  destruct w as [o p sts ev fl ck tk]. fields_in Hi. fields_in Hc. fields.
  split.
  - intros Hd Him (Hw1 & Hw2).
    rewrite workflow_idle_deployed by (fields; auto).
    fields. rewrite Hc.
    unfold detectImageChanges.
    apply String.eqb_neq in Hd, Him. rewrite Hd, Him. cbn [negb].
    rewrite Hw1.
    match goal with |- context [handleIdleState ?a ?w1] =>
      destruct (handleIdleState_starts a w1) as (w' & E & Ha & _ & He & _);
        [unfold get; rewrite lookup_insert_eq; reflexivity | exact Hw2 |]
    end.
    rewrite E. cbn [fst snd]. unfold auto_triggered in Ha, He.
    fields_in Ha. fields_in He. cbn [Annotations with_Annotations with_Status] in Ha.
    unfold state_of, get. rewrite Ha.
    split; [reflexivity |].
    split; [rewrite lookup_insert_ne by discriminate;
            rewrite lookup_insert_eq; reflexivity |].
    split; [rewrite lookup_insert_eq; reflexivity | exact He].
  - intros Hd Ht.
    apply (workflow_idle_no_image
             {| obj := p; persisted := p; statefulsets := sts; events := ev;
                faults := fl; clock := ck; ticks := tk |}); assumption.
Qed.

Lemma image_change_triggers_prechecks_witness :
  let w := example_world (example_cluster []) 1 [] in
  idle (persisted w) /\
  signal AnnotationCancelUpgrade (persisted w) = false /\
  get (Annotations (persisted (snd (invocation w)))) AnnotationTriggerUpgrade = "true" /\
  state_of (persisted (snd (invocation w))) = UpgradeStatePrecheckStart.
Proof.
  cbn zeta.
  assert (Hi : idle (persisted (example_world (example_cluster []) 1 [])))
    by (left; vm_compute; reflexivity).
  assert (Hc : signal AnnotationCancelUpgrade
                 (persisted (example_world (example_cluster []) 1 [])) = false)
    by (vm_compute; reflexivity).
  split; [exact Hi |]. split; [exact Hc |].
  destruct (image_change_triggers_prechecks _ Hi Hc) as (H & _).
  destruct H as (_ & H1 & H2 & _).
  - vm_compute. discriminate.
  - vm_compute. discriminate.
  - vm_compute. auto.
  - split; assumption.
Defined.

(** C6 fails as stated: the cluster is idle and deployed, the desired image
    differs from the current one, no trigger is set, and the cancel signal
    is; the invocation ends in UpgradeCancelled with the trigger removed, not
    in PrecheckStarted. *)
Lemma image_change_cancelled :
  let w := example_world
             (example_cluster [(AnnotationCancelUpgrade, "true")]) 1 [] in
  let r := invocation w in
  idle (persisted w) /\
  st_CurrentImage (Status (persisted w)) <> EmptyString /\
  st_CurrentImage (Status (persisted w)) <> Image (persisted w) /\
  Annotations (persisted w) !! AnnotationTriggerUpgrade = None /\
  fst r = (NoRequeue, None) /\
  state_of (persisted (snd r)) = UpgradeStateCancelled /\
  state_of (persisted (snd r)) <> UpgradeStatePrecheckStart /\
  Annotations (persisted (snd r)) !! AnnotationTriggerUpgrade = None.
Proof.
  cbn zeta.
  repeat match goal with |- _ /\ _ => split end;
    try (vm_compute; reflexivity); try (vm_compute; discriminate).
  left. vm_compute. reflexivity.
Qed.

Lemma is_final_cases s :
  is_final s = true ->
  s = UpgradeStateCompleted \/ s = UpgradeStateFailed \/ s = UpgradeStateCancelled.
Proof.
  unfold is_final. rewrite !orb_true_iff, !String.eqb_eq. tauto.
Qed.

Lemma dispatch_final s annotations :
  is_final s = true ->
  dispatch s annotations = cleanupUpgradeAnnotations UpgradeStateIdle.
Proof.
  intros H. destruct (is_final_cases s H) as [-> | [-> | ->]]; reflexivity.
Qed.

Lemma dispatch_unknown s annotations :
  ~ In s recognized_states ->
  dispatch s annotations = updateUpgradeState UpgradeStateIdle.
Proof.
  unfold recognized_states. cbn [In]. intros H.
  assert (E : forall c, In c recognized_states -> (s =? c) = false).
  { intros c Hc. apply String.eqb_neq. intros ->. apply H. exact Hc. }
  unfold dispatch, is_final.
  rewrite !E by (unfold recognized_states; cbn [In]; tauto).
  reflexivity.
Qed.

(** C7, as the code has it.  From a terminal state an invocation whose
    writes succeed removes the three control signals, leaves the stored
    precheck results and every other annotation but the state as they were,
    and sets the state to Idle; when the cancel signal is set the state
    it sets is UpgradeCancelled instead. *)
Theorem terminal_state_cleanup (w : World) :
  is_final (state_of (persisted w)) = true ->
  writes_succeed 2 (faults w) ->
  let r := invocation w in
  let a := Annotations (persisted w) in
  let a' := Annotations (persisted (snd r)) in
  fst r = (NoRequeue, None) /\
  state_of (persisted (snd r)) =
    (if signal AnnotationCancelUpgrade (persisted w)
     then UpgradeStateCancelled else UpgradeStateIdle) /\
  (forall k, In k control_signals -> a' !! k = None) /\
  a' !! AnnotationPrecheckResults = a !! AnnotationPrecheckResults /\
  (forall k, k <> AnnotationUpgradeState -> ~ In k control_signals ->
     a' !! k = a !! k).
Proof.
  intros Hf Hw r a a'. subst r a a'.
  rewrite invocation_unfold.
  destruct w as [o p sts ev fl ck tk]. fields_in Hf. fields_in Hw. fields.
  assert (Hs : state_of p <> EmptyString /\ state_of p <> UpgradeStateIdle /\
               state_of p <> UpgradeStateInProgress).
  { destruct (is_final_cases _ Hf) as [E | [E | E]]; rewrite E;
      repeat split; discriminate. }
  destruct Hs as (Hs1 & Hs2 & Hs3).
  rewrite workflow_not_idle by (fields; assumption).
  fields.
  assert (Hres : forall s (w' : World),
             Annotations (persisted w') = cleaned s (Annotations p) ->
             state_of (persisted w') = s /\
             (forall k, In k control_signals ->
                Annotations (persisted w') !! k = None) /\
             Annotations (persisted w') !! AnnotationPrecheckResults
             = Annotations p !! AnnotationPrecheckResults /\
             (forall k, k <> AnnotationUpgradeState -> ~ In k control_signals ->
                Annotations (persisted w') !! k = Annotations p !! k)).
  { intros s w' Ha. unfold state_of, get. rewrite Ha, cleaned_state.
    split; [reflexivity |].
    split; [intros k Hk; apply cleaned_signals, Hk |].
    split; [| intros k H1 H2; apply cleaned_other; assumption].
    apply cleaned_other; [discriminate |].
    unfold control_signals. cbn [In].
    intros [E | [E | [E | []]]]; discriminate. }
  destruct (signal AnnotationCancelUpgrade p).
  - match goal with |- context [handleCancellation ?a ?w1] =>
      destruct (cancellation_accepted a w1 Hs3 Hw) as (w' & E & Ha & _)
    end.
    rewrite E. cbn [fst snd]. fields_in Ha.
    split; [reflexivity | apply Hres, Ha].
  - rewrite dispatch_final by exact Hf.
    match goal with |- context [cleanupUpgradeAnnotations _ ?w1] =>
      destruct (cleanup_succeeds UpgradeStateIdle w1 Hw) as (w' & E & Ha & _)
    end.
    rewrite E. cbn [fst snd]. fields_in Ha.
    split; [reflexivity | apply Hres, Ha].
Qed.

Lemma terminal_state_cleanup_witness :
  let w := example_world
             (example_cluster
                [(AnnotationUpgradeState, UpgradeStateCompleted);
                 (AnnotationPrecheckResults, failing_report_json);
                 (AnnotationProceedUpgrade, "true")]) 1 [] in
  is_final (state_of (persisted w)) = true /\
  state_of (persisted (snd (invocation w))) = UpgradeStateIdle /\
  Annotations (persisted (snd (invocation w))) !! AnnotationProceedUpgrade = None /\
  Annotations (persisted (snd (invocation w))) !! AnnotationPrecheckResults
  = Some failing_report_json.
Proof.
  cbn zeta.
  match goal with |- is_final (state_of (persisted ?w)) = true /\ _ =>
    assert (Hf : is_final (state_of (persisted w)) = true)
      by (vm_compute; reflexivity);
    assert (Hw : writes_succeed 2 (faults w)) by (vm_compute; auto);
    destruct (terminal_state_cleanup w Hf Hw) as (_ & H1 & H2 & H3 & _)
  end.
  split; [exact Hf |].
  split; [exact H1 |].
  split; [apply H2; right; left; reflexivity |].
  rewrite H3. vm_compute. reflexivity.
Defined.

(** C7 fails as stated: in the terminal state UpgradeFailed with the cancel
    signal set, the invocation removes the control signals and sets the
    state to UpgradeCancelled, not to Idle. *)
Lemma terminal_state_cancelled :
  let w := example_world
             (example_cluster
                [(AnnotationUpgradeState, UpgradeStateFailed);
                 (AnnotationCancelUpgrade, "true")]) 1 [] in
  let r := invocation w in
  state_of (persisted w) = UpgradeStateFailed /\
  fst r = (NoRequeue, None) /\
  state_of (persisted (snd r)) = UpgradeStateCancelled /\
  state_of (persisted (snd r)) <> UpgradeStateIdle.
Proof.
  cbn zeta.
  repeat match goal with |- _ /\ _ => split end;
    try (vm_compute; reflexivity); vm_compute; discriminate.
Qed.

(** C9, as the code has it.  For a state that is not empty and not one of
    the eight that are dispatched on, UpgradePaused among them, an
    invocation with the cancel signal not set and with writes that succeed
    sets the state to Idle and returns no error; no other annotation
    changes. *)
Theorem unknown_state_resets (w : World) :
  state_of (persisted w) <> EmptyString ->
  ~ In (state_of (persisted w)) recognized_states ->
  signal AnnotationCancelUpgrade (persisted w) = false ->
  writes_succeed 2 (faults w) ->
  let r := invocation w in
  fst r = (NoRequeue, None) /\
  state_of (persisted (snd r)) = UpgradeStateIdle /\
  Annotations (persisted (snd r))
  = <[AnnotationUpgradeState := UpgradeStateIdle]> (Annotations (persisted w)) /\
  events (snd r) = events w /\
  ~ In UpgradeStatePaused recognized_states.
Proof.
  intros Hs Hu Hc Hw r. subst r.
  rewrite invocation_unfold.
  destruct w as [o p sts ev fl ck tk].
  fields_in Hs. fields_in Hu. fields_in Hc. fields_in Hw. fields.
  rewrite workflow_not_idle
    by (fields; first [assumption | intros E; apply Hu; rewrite E; left; reflexivity]).
  fields. rewrite Hc, dispatch_unknown by exact Hu.
  unfold updateUpgradeState.
  match goal with |- context [updateUpgradeStateWithResults _ _ ?w1] =>
    destruct (update_succeeds UpgradeStateIdle None w1 Hw)
      as (w' & E & Ha & _ & _ & _ & He & _)
  end.
  rewrite E. cbn [fst snd]. fields_in Ha. fields_in He.
  unfold stored in Ha.
  split; [reflexivity |].
  split; [unfold state_of, get; rewrite Ha, lookup_insert_eq; reflexivity |].
  split; [exact Ha |]. split; [exact He |].
  unfold recognized_states. cbn [In].
  intros [E' | [E' | [E' | [E' | [E' | [E' | [E' | [E' | []]]]]]]]]; discriminate.
Qed.

Lemma unknown_state_resets_witness :
  let w := example_world
             (example_cluster [(AnnotationUpgradeState, UpgradeStatePaused)]) 1 [] in
  state_of (persisted w) = UpgradeStatePaused /\
  fst (invocation w) = (NoRequeue, None) /\
  state_of (persisted (snd (invocation w))) = UpgradeStateIdle.
Proof.
  cbn zeta.
  split; [vm_compute; reflexivity |].
  match goal with |- fst (invocation ?w) = _ /\ _ =>
    destruct (unknown_state_resets w) as (H1 & H2 & _)
  end.
  - vm_compute. discriminate.
  - vm_compute.
    intros [E | [E | [E | [E | [E | [E | [E | [E | []]]]]]]]]; discriminate.
  - vm_compute. reflexivity.
  - vm_compute. auto.
  - split; assumption.
Defined.

(** C9 fails as stated: in the state UpgradePaused with the cancel signal
    set, the invocation sets the state to UpgradeCancelled, not to Idle. *)
Lemma unknown_state_cancelled :
  let w := example_world
             (example_cluster
                [(AnnotationUpgradeState, UpgradeStatePaused);
                 (AnnotationCancelUpgrade, "true")]) 1 [] in
  let r := invocation w in
  state_of (persisted w) = UpgradeStatePaused /\
  ~ In (state_of (persisted w)) recognized_states /\
  fst r = (NoRequeue, None) /\
  state_of (persisted (snd r)) = UpgradeStateCancelled /\
  state_of (persisted (snd r)) <> UpgradeStateIdle.
Proof.
  cbn zeta.
  repeat match goal with |- _ /\ _ => split end;
    try (vm_compute; reflexivity); try (vm_compute; discriminate).
  vm_compute.
  intros [E | [E | [E | [E | [E | [E | [E | [E | []]]]]]]]]; discriminate.
Qed.

(** ** The rollout status check *)

Lemma checkStatefulSetUpgradeStatus_spec group w :
  checkStatefulSetUpgradeStatus group w = ((converged w group, None), w).
Proof.
  destruct w as [o p sts ev fl ck tk].
  unfold checkStatefulSetUpgradeStatus, converged. exec.
  destruct (sts !! (Namespace o, g_Name group)) as [s|]; [| reflexivity].
  destruct (ReadyReplicas s =? g_Replicas group)%Z; reflexivity.
Qed.

Lemma check_groups_spec groups allUpdated w :
  check_groups groups allUpdated w =
  ((allUpdated && forallb (converged w) groups, None), w).
Proof.
  revert allUpdated. induction groups as [|g rest IH]; intros b.
  - cbn. rewrite andb_true_r. reflexivity.
  - cbn [check_groups forallb]. unfold bind.
    rewrite checkStatefulSetUpgradeStatus_spec. cbn [fst snd].
    destruct (converged w g); cbn [negb]; rewrite IH.
    + reflexivity.
    + cbn. rewrite andb_false_r. reflexivity.
Qed.

Lemma checkUpgradeProgress_with_spec healthCheck w :
  checkUpgradeProgress_with healthCheck w =
  if all_converged w then
    match healthCheck w with
    | ((_, Some err), w') => ((false, Some err), w')
    | ((healthy, None), w') => ((healthy, None), w')
    end
  else ((false, None), w).
Proof.
  unfold checkUpgradeProgress_with, all_converged, bind, cluster.
  rewrite check_groups_spec. cbn [fst snd andb].
  destruct (forallb (converged w) (MarkLogicGroups (obj w))); [| reflexivity].
  destruct (healthCheck w) as [[h [e|]] w']; cbn; [reflexivity |].
  destruct h; reflexivity.
Qed.

Lemma performClusterHealthCheck_spec w :
  performClusterHealthCheck w =
  ((true, None), with_events (events w ++ health_checked) w).
Proof.
  destruct w as [o p sts ev fl ck tk].
  unfold performClusterHealthCheck. exec.
  repeat rewrite <- app_assoc. reflexivity.
Qed.

Lemma polling_continues annotations w :
  all_converged w = false ->
  handleInProgressState annotations w = ((After (2 * Minute), None), w).
Proof.
  intros H. unfold handleInProgressState, CheckUpgradeStatus, checkUpgradeProgress.
  unfold bind. rewrite checkUpgradeProgress_with_spec, H. reflexivity.
Qed.

Lemma invocation_polls w :
  state_of (persisted w) = UpgradeStateInProgress ->
  signal AnnotationCancelUpgrade (persisted w) = false ->
  all_converged (with_obj (persisted w) w) = false ->
  invocation w = ((After (2 * Minute), None), with_obj (persisted w) w).
Proof.
  intros Hs Hc Hn. rewrite invocation_unfold.
  rewrite workflow_not_idle
    by (destruct w; fields; fields_in Hs; rewrite Hs; discriminate).
  replace (signal AnnotationCancelUpgrade (obj (with_obj (persisted w) w)))
    with false by (destruct w; fields; fields_in Hc; auto).
  replace (state_of (obj (with_obj (persisted w) w)))
    with UpgradeStateInProgress by (destruct w; fields; fields_in Hs; auto).
  unfold dispatch.
  cbn [String.eqb Ascii.eqb Bool.eqb UpgradeStateInProgress UpgradeStateIdle
       UpgradeStatePrecheckStart UpgradeStatePrecheckDone UpgradeStateWaitingUser].
  apply polling_continues, Hn.
Qed.

Lemma invocations_poll n w :
  state_of (persisted w) = UpgradeStateInProgress ->
  signal AnnotationCancelUpgrade (persisted w) = false ->
  all_converged (with_obj (persisted w) w) = false ->
  invocations n w = match n with O => w | S _ => with_obj (persisted w) w end.
Proof.
  revert w. induction n as [|n IH]; intros w Hs Hc Hn; [reflexivity |].
  cbn [invocations]. rewrite invocation_polls by assumption. cbn [snd].
  rewrite IH by (destruct w; first [exact Hs | exact Hc | exact Hn]).
  destruct n; destruct w; reflexivity.
Qed.

(** C8.  The progress check reports the upgrade complete exactly when every
    group has converged and the health check passes; the health check is run
    only when every group has converged, and otherwise the check returns
    not-done without an error and without having touched anything.  A group
    whose StatefulSet is missing or has a different number of ready replicas
    counts as not converged, without an error.  The handler's own health
    check always passes.  While some group has not converged the in-progress
    handler asks to be called again in two minutes and stores nothing, for
    any number of invocations. *)
Theorem rollout_status_check :
  (forall (healthCheck : M (bool * option error)) (w : World),
      let r := checkUpgradeProgress_with healthCheck w in
      (fst (fst r) = true <->
       all_converged w = true /\ fst (healthCheck w) = (true, None)) /\
      (all_converged w = false -> r = ((false, None), w)) /\
      (all_converged w = true -> snd r = snd (healthCheck w))) /\
  (forall w : World,
      fst (performClusterHealthCheck w) = (true, None) /\
      fst (checkUpgradeProgress w) = (all_converged w, None) /\
      events (snd (checkUpgradeProgress w)) =
        (if all_converged w then events w ++ health_checked else events w)) /\
  (forall (group : MarklogicGroups) (w : World),
      checkStatefulSetUpgradeStatus group w = ((converged w group, None), w) /\
      (statefulsets w !! (Namespace (obj w), g_Name group) = None ->
       converged w group = false) /\
      (forall sts, statefulsets w !! (Namespace (obj w), g_Name group) = Some sts ->
       (converged w group = true <-> ReadyReplicas sts = g_Replicas group))) /\
  (forall (annotations : gmap string string) (w : World),
      all_converged w = false ->
      handleInProgressState annotations w = ((After (2 * Minute), None), w)) /\
  (forall (n : nat) (w : World),
      state_of (persisted w) = UpgradeStateInProgress ->
      signal AnnotationCancelUpgrade (persisted w) = false ->
      all_converged (with_obj (persisted w) w) = false ->
      fst (invocation (invocations n w)) = (After (2 * Minute), None) /\
      persisted (invocations (S n) w) = persisted w /\
      state_of (persisted (invocations (S n) w)) = UpgradeStateInProgress).
Proof.
  repeat match goal with |- _ /\ _ => split end.
  - intros healthCheck w r. subst r.
    rewrite checkUpgradeProgress_with_spec.
    destruct (all_converged w).
    + destruct (healthCheck w) as [[h [e|]] w']; cbn.
      * split; [split; [discriminate | intros (_ & E); discriminate] |].
        split; [discriminate | reflexivity].
      * split; [split; [intros ->; auto | intros (_ & E); congruence] |].
        split; [discriminate | reflexivity].
    + cbn. split; [split; [discriminate | intros (E & _); discriminate] |].
      split; [intros _; reflexivity | discriminate].
  - intros w. split; [| split].
    + rewrite performClusterHealthCheck_spec. reflexivity.
    + unfold checkUpgradeProgress.
      rewrite checkUpgradeProgress_with_spec, performClusterHealthCheck_spec.
      destruct (all_converged w); reflexivity.
    + unfold checkUpgradeProgress.
      rewrite checkUpgradeProgress_with_spec, performClusterHealthCheck_spec.
      destruct (all_converged w); destruct w; reflexivity.
  - intros group w. split; [| split].
    + apply checkStatefulSetUpgradeStatus_spec.
    + intros H. unfold converged. rewrite H. reflexivity.
    + intros sts H. unfold converged. rewrite H. apply Z.eqb_eq.
  - intros annotations w. apply polling_continues.
  - intros n w Hs Hc Hn.
    rewrite (invocations_poll n), (invocations_poll (S n)) by assumption.
    split; [| split].
    + destruct n; [rewrite invocation_polls by assumption; reflexivity |].
      assert (Hs' : state_of (persisted (with_obj (persisted w) w))
                    = UpgradeStateInProgress) by (destruct w; exact Hs).
      assert (Hc' : signal AnnotationCancelUpgrade
                      (persisted (with_obj (persisted w) w)) = false)
        by (destruct w; exact Hc).
      assert (Hn' : all_converged
                      (with_obj (persisted (with_obj (persisted w) w))
                         (with_obj (persisted w) w)) = false)
        by (destruct w; exact Hn).
      rewrite invocation_polls by assumption. reflexivity.
    + destruct w; reflexivity.
    + destruct w; exact Hs.
Qed.

(** ** The report survives the trip through JSON *)

(** Appending to a string that starts with known characters computes. *)
#[local] Arguments String.append !s1 s2 / : simpl nomatch.

(** *** Strings *)

Lemma append_assoc (a b c : string) : (a +:+ b) +:+ c = a +:+ (b +:+ c).
Proof. induction a as [|x a IH]; [reflexivity | exact (f_equal (String x) IH)]. Qed.

Lemma append_nil_r (a : string) : a +:+ EmptyString = a.
Proof. induction a as [|x a IH]; [reflexivity | exact (f_equal (String x) IH)]. Qed.

Lemma unquote_escape_byte (c : ascii) (r : string) :
  unquote (escape_byte c +:+ r) = String c (unquote r).
Proof.
  destruct c as [[] [] [] [] [] [] [] []]; reflexivity.
Qed.

Lemma unquote_escape (s : string) : unquote (escape s) = s.
Proof.
  induction s as [|c s IH]; [reflexivity |].
  cbn [escape]. rewrite unquote_escape_byte, IH. reflexivity.
Qed.

Lemma scan_escape_byte (c : ascii) (r : string) :
  scan_string (escape_byte c +:+ r) = prepend (escape_byte c) (scan_string r).
Proof.
  destruct c as [[] [] [] [] [] [] [] []]; reflexivity.
Qed.

Lemma escape_raw_token (s : string) : raw_token (escape s).
Proof.
  intros rest. induction s as [|c s IH]; [reflexivity |].
  cbn [escape]. rewrite append_assoc, scan_escape_byte, IH.
  reflexivity.
Qed.

(** *** Integers *)

Lemma span_digits_all (s rest : string) :
  all_digits s = true -> no_digit_ahead rest ->
  span_digits (s +:+ rest) = (s, rest).
Proof.
  intros Hs Hr. induction s as [|c s IH].
  - cbn [String.append]. destruct rest as [|d rest]; [reflexivity |].
    cbn [span_digits no_digit_ahead] in Hr |- *. rewrite Hr. reflexivity.
  - cbn [all_digits String.append span_digits] in Hs |- *.
    apply andb_true_iff in Hs as (Hc & Hs).
    rewrite Hc, IH by exact Hs. reflexivity.
Qed.

Lemma uint_string_digits (d : Decimal.uint) :
  all_digits (NilEmpty.string_of_uint d) = true.
Proof. induction d; cbn; auto. Qed.

Lemma nzhead_head (d : Decimal.uint) :
  match Decimal.nzhead d with Decimal.D0 _ => False | _ => True end.
Proof. induction d; cbn; auto. Qed.

Lemma to_uint_normal (p : positive) :
  match Pos.to_uint p with
  | Decimal.Nil | Decimal.D0 _ => False
  | _ => True
  end.
Proof.
  pose proof (DecimalPos.Unsigned.to_of (Pos.to_uint p)) as H.
  rewrite DecimalPos.Unsigned.of_to in H. cbn [N.to_uint] in H.
  pose proof (DecimalPos.Unsigned.to_uint_nonnil p) as Hn.
  pose proof (DecimalPos.Unsigned.to_uint_nonzero p) as Hz.
  pose proof (nzhead_head (Pos.to_uint p)) as Hh.
  unfold Decimal.unorm in H.
  destruct (Pos.to_uint p) eqn:E; try exact I; try congruence.
  destruct (Decimal.nzhead (Decimal.D0 u)) eqn:E'; try congruence;
    try (rewrite H in Hh; exact Hh).
Qed.

(** The text of a positive number: a digit that is not a zero, then digits. *)
Lemma positive_string (p : positive) :
  exists c ds,
    NilZero.string_of_uint (Pos.to_uint p) = String c ds /\
    is_digit c = true /\ Ascii.eqb c "0" = false /\ Ascii.eqb c "-" = false /\
    all_digits ds = true.
Proof.
  pose proof (to_uint_normal p) as H.
  pose proof (uint_string_digits (Pos.to_uint p)) as Hd.
  destruct (Pos.to_uint p) eqn:E; try contradiction;
    cbn in Hd |- *; eexists; eexists; repeat split; exact Hd.
Qed.

Lemma closes_no_digit rest : closes rest -> no_digit_ahead rest.
Proof.
  destruct rest as [|c rest]; [auto |].
  cbn. intros [-> | [-> | ->]]; reflexivity.
Qed.

Lemma scan_tail_closes rest :
  closes rest ->
  scan_frac_part rest = Some (EmptyString, rest) /\
  scan_exp_part rest = Some (EmptyString, rest).
Proof.
  destruct rest as [|c rest]; [auto |].
  cbn. intros [-> | [-> | ->]]; split; reflexivity.
Qed.

Lemma scan_unsigned (p : positive) (rest : string) :
  closes rest ->
  scan_int_part (NilZero.string_of_uint (Pos.to_uint p) +:+ rest)
  = Some (NilZero.string_of_uint (Pos.to_uint p), rest).
Proof.
  intros Hr.
  destruct (positive_string p) as (c & ds & -> & Hc & H0 & _ & Hds).
  cbn. rewrite H0, Hc.
  rewrite span_digits_all by (auto using closes_no_digit). reflexivity.
Qed.

Lemma scan_number_int (z : Z) (rest : string) :
  closes rest ->
  scan_number (string_of_Z z +:+ rest) = Some (string_of_Z z, rest).
Proof.
  intros Hr. destruct (scan_tail_closes rest Hr) as (Hf & He).
  unfold string_of_Z. destruct z as [|p|p]; cbn [Z.to_int NilZero.string_of_int].
  - cbn. unfold scan_number. cbn. rewrite Hf, He. reflexivity.
  - unfold scan_number.
    destruct (positive_string p) as (c & ds & E & _ & _ & Hm & _).
    assert (Hs : starts "-" (NilZero.string_of_uint (Pos.to_uint p) +:+ rest) = None).
    { rewrite E. cbn. rewrite Hm. reflexivity. }
    rewrite Hs, scan_unsigned, Hf, He by exact Hr.
    cbn. rewrite !append_nil_r. reflexivity.
  - unfold scan_number. cbn [String.append starts]. cbn [Ascii.eqb Bool.eqb].
    rewrite scan_unsigned, Hf, He by exact Hr.
    cbn. rewrite !append_nil_r. reflexivity.
Qed.

Lemma string_of_Z_integer (z : Z) : has_point_or_exponent (string_of_Z z) = false.
Proof.
  assert (H : forall s, all_digits s = true -> has_point_or_exponent s = false).
  { induction s as [|c s IH]; [reflexivity |]. cbn.
    intros Hc. apply andb_true_iff in Hc as (Hc & Hs). rewrite (IH Hs).
    destruct c as [[] [] [] [] [] [] [] []]; try discriminate; reflexivity. }
  unfold string_of_Z. destruct z as [|p|p]; cbn [Z.to_int NilZero.string_of_int].
  - reflexivity.
  - destruct (positive_string p) as (c & ds & E & Hc & _ & _ & Hds).
    rewrite E. apply H. cbn. rewrite Hc, Hds. reflexivity.
  - destruct (positive_string p) as (c & ds & E & Hc & _ & _ & Hds).
    rewrite E.
    assert (H' : has_point_or_exponent (String c ds) = false)
      by (apply H; cbn; rewrite Hc, Hds; reflexivity).
    cbn [has_point_or_exponent] in H' |- *. cbn [Ascii.eqb Bool.eqb orb].
    exact H'.
Qed.

Lemma decode_enc_int (z old : Z) :
  is_int64 z = true -> decode_int (enc_int z) old = Some z.
Proof.
  intros Hz. unfold decode_int, enc_int.
  rewrite string_of_Z_integer. unfold string_of_Z.
  rewrite NilZero.isi.
  - rewrite DecimalZ.of_to, Hz. reflexivity.
  - destruct z as [|p|p]; cbn; try discriminate.
    intros [= E]. apply (DecimalPos.Unsigned.to_uint_nonnil p E).
  - destruct z as [|p|p]; cbn; try discriminate.
    intros [= E]. apply (DecimalPos.Unsigned.to_uint_nonnil p E).
Qed.

(** *** Times *)

Lemma digit_facts (k : Z) :
  (0 <= k <= 9)%Z -> is_digit (digit k) = true /\ digit_value (digit k) = k.
Proof.
  intros H.
  assert (E : (k = 0 \/ k = 1 \/ k = 2 \/ k = 3 \/ k = 4 \/ k = 5 \/ k = 6
               \/ k = 7 \/ k = 8 \/ k = 9)%Z) by lia.
  repeat (destruct E as [-> | E]; [split; reflexivity |]).
  subst k. split; reflexivity.
Qed.

Lemma last_digit (x : Z) :
  is_digit (digit (x mod 10)) = true /\ digit_value (digit (x mod 10)) = (x mod 10)%Z.
Proof. apply digit_facts. pose proof (Z.mod_pos_bound x 10). lia. Qed.

Lemma all_digits_app (a b : string) :
  all_digits (a +:+ b) = all_digits a && all_digits b.
Proof.
  induction a as [|c a IH]; [reflexivity |].
  cbn. rewrite IH, andb_assoc. reflexivity.
Qed.

Lemma digits_all (w : nat) (x : Z) : all_digits (digits w x) = true.
Proof.
  revert x. induction w as [|w IH]; intros x; [reflexivity |].
  cbn [digits]. rewrite all_digits_app, IH. cbn.
  rewrite (proj1 (last_digit x)). reflexivity.
Qed.

Lemma take_digits_app (w1 w2 : nat) (acc : Z) (s : string) :
  take_digits (w1 + w2) acc s =
  match take_digits w1 acc s with
  | Some (v, r) => take_digits w2 v r
  | None => None
  end.
Proof.
  revert acc s. induction w1 as [|w1 IH]; intros acc s; [reflexivity |].
  cbn [Nat.add take_digits]. destruct s as [|c r]; [reflexivity |].
  destruct (is_digit c); [apply IH | reflexivity].
Qed.

Lemma pow10_succ (w : nat) : (10 ^ Z.of_nat (S w) = 10 * 10 ^ Z.of_nat w)%Z.
Proof. rewrite Nat2Z.inj_succ, Z.pow_succ_r by lia. reflexivity. Qed.

Lemma take_digits_digits (w : nat) (x acc : Z) (rest : string) :
  (0 <= x < 10 ^ Z.of_nat w)%Z ->
  take_digits w acc (digits w x +:+ rest) = Some ((acc * 10 ^ Z.of_nat w + x)%Z, rest).
Proof.
  revert x acc rest. induction w as [|w IH]; intros x acc rest Hx.
  - cbn in Hx |- *. do 2 f_equal. lia.
  - rewrite pow10_succ in Hx |- *.
    cbn [digits]. rewrite append_assoc.
    rewrite <- (Nat.add_1_r w).
    rewrite take_digits_app, IH by (Z.to_euclidean_division_equations; lia).
    cbn [String.append str1 take_digits].
    destruct (last_digit x) as (-> & ->).
    do 2 f_equal. Z.to_euclidean_division_equations. lia.
Qed.

Lemma field_digits (w : nat) (x : Z) (rest : string) :
  (0 <= x < 10 ^ Z.of_nat w)%Z ->
  field w (digits w x +:+ rest) = Some (x, rest).
Proof.
  intros H. unfold field. rewrite take_digits_digits by exact H.
  reflexivity.
Qed.

Lemma nanos_nil (w : nat) (acc : Z) :
  nanos w acc EmptyString = (acc * 10 ^ Z.of_nat w)%Z.
Proof.
  revert acc. induction w as [|w IH]; intros acc.
  - cbn. lia.
  - cbn [nanos]. rewrite IH, pow10_succ. lia.
Qed.

Lemma nanos_short (w : nat) (acc : Z) (s : string) :
  (String.length s <= w)%nat -> nanos (S w) acc s = (10 * nanos w acc s)%Z.
Proof.
  revert acc s. induction w as [|w IH]; intros acc s Hs.
  - destruct s; [cbn; lia | cbn in Hs; lia].
  - destruct s as [|c s].
    + rewrite !nanos_nil, pow10_succ. lia.
    + cbn [String.length] in Hs.
      change (nanos (S (S w)) acc (String c s))
        with (nanos (S w) (10 * acc + digit_value c) s).
      rewrite IH by lia. reflexivity.
Qed.

Lemma nanos_take (w : nat) (acc v : Z) (s : string) :
  take_digits w acc (s +:+ EmptyString) = Some (v, EmptyString) ->
  nanos w acc s = v.
Proof.
  rewrite append_nil_r.
  revert acc s. induction w as [|w IH]; intros acc s.
  - cbn. congruence.
  - destruct s as [|c s]; cbn [take_digits nanos]; [discriminate |].
    destruct (is_digit c); [apply IH | discriminate].
Qed.

Lemma fraction_length (w : nat) (x : Z) :
  (String.length (fraction w x) <= w)%nat /\ all_digits (fraction w x) = true.
Proof.
  revert x. induction w as [|w IH]; intros x; [split; [cbn; lia | reflexivity] |].
  cbn [fraction]. destruct (x mod 10 =? 0)%Z.
  - destruct (IH (x / 10)%Z). split; [lia | assumption].
  - split; [| apply digits_all].
    clear IH. generalize (S w) as n. intros n. revert x.
    induction n as [|n IHn]; intros x; [cbn; lia |].
    cbn [digits].
    assert (L : forall a b, String.length (a +:+ b)
                            = (String.length a + String.length b)%nat).
    { induction a as [|c a IHa]; intros b; cbn; [reflexivity | rewrite IHa; reflexivity]. }
    rewrite L. cbn. specialize (IHn (x / 10)%Z). lia.
Qed.

Lemma nanos_fraction (w : nat) (x acc : Z) :
  (0 <= x < 10 ^ Z.of_nat w)%Z ->
  nanos w acc (fraction w x) = (acc * 10 ^ Z.of_nat w + x)%Z.
Proof.
  revert x acc. induction w as [|w IH]; intros x acc Hx.
  - cbn in Hx |- *. lia.
  - rewrite pow10_succ in Hx. cbn [fraction].
    destruct (x mod 10 =? 0)%Z eqn:E.
    + apply Z.eqb_eq in E.
      rewrite nanos_short by apply fraction_length.
      rewrite IH by (Z.to_euclidean_division_equations; lia).
      rewrite pow10_succ. pose proof (Z.div_mod x 10). lia.
    + apply nanos_take. apply take_digits_digits.
      rewrite pow10_succ. exact Hx.
Qed.

Lemma two_digits (x : Z) :
  (0 <= x < 100)%Z ->
  exists h1 h2,
    digits 2 x = String h1 (str1 h2) /\
    take_digits 2 0 (String h1 (str1 h2)) = Some (x, EmptyString).
Proof.
  intros Hx. exists (digit ((x / 10) mod 10)), (digit (x mod 10)).
  split; [reflexivity |].
  cbn [take_digits str1].
  destruct (last_digit (x / 10)) as (-> & ->).
  destruct (last_digit x) as (-> & ->).
  do 2 f_equal. Z.to_euclidean_division_equations. lia.
Qed.

Lemma parse_format_zone (off : Z) :
  (- 86400 < off < 86400)%Z -> (off mod 60 = 0)%Z ->
  parse_zone (format_zone off) = Some off.
Proof.
  intros Hr Hm. unfold format_zone.
  destruct (off =? 0)%Z eqn:E0; [apply Z.eqb_eq in E0; subst; reflexivity |].
  apply Z.eqb_neq in E0.
  assert (Hq : (Z.quot off 60 = off / 60)%Z).
  { apply Z.mod_divide in Hm; [| lia]. destruct Hm as (k & ->).
    rewrite Z.quot_mul, Z.div_mul by lia. reflexivity. }
  rewrite Hq.
  set (zone := Z.abs (off / 60)).
  assert (Hz : (0 <= zone < 1440)%Z)
    by (subst zone; Z.to_euclidean_division_equations; lia).
  destruct (two_digits (zone / 60)) as (h1 & h2 & -> & Hh);
    [Z.to_euclidean_division_equations; lia |].
  destruct (two_digits (zone mod 60)) as (m1 & m2 & -> & Hmm);
    [Z.to_euclidean_division_equations; lia |].
  assert (Hin : in_range 0 23 (zone / 60) && in_range 0 59 (zone mod 60) = true).
  { unfold in_range. apply andb_true_iff; split; apply andb_true_iff; split;
      apply Z.leb_le; Z.to_euclidean_division_equations; lia. }
  destruct (off / 60 <? 0)%Z eqn:Es.
  - apply Z.ltb_lt in Es.
    cbn [String.append str1 parse_zone]. cbn [str1] in Hh, Hmm.
    rewrite Hh, Hmm, Hin. cbn [Ascii.eqb Bool.eqb].
    f_equal. subst zone. Z.to_euclidean_division_equations. lia.
  - apply Z.ltb_ge in Es.
    cbn [String.append str1 parse_zone]. cbn [str1] in Hh, Hmm.
    rewrite Hh, Hmm, Hin. cbn [Ascii.eqb Bool.eqb].
    f_equal. subst zone. Z.to_euclidean_division_equations. lia.
Qed.

Lemma zone_no_digit (off : Z) : no_digit_ahead (format_zone off).
Proof.
  unfold format_zone. destruct (off =? 0)%Z; [reflexivity |].
  destruct (Z.quot off 60 <? 0)%Z; reflexivity.
Qed.

Lemma zone_no_point (off : Z) : starts "." (format_zone off) = None.
Proof.
  unfold format_zone. destruct (off =? 0)%Z; [reflexivity |].
  destruct (Z.quot off 60 <? 0)%Z; reflexivity.
Qed.

Lemma in_range_intro (lo hi x : Z) : (lo <= x <= hi)%Z -> in_range lo hi x = true.
Proof.
  intros H. unfold in_range. apply andb_true_iff. split; apply Z.leb_le; lia.
Qed.

Lemma read_fraction_format (ns off : Z) :
  (0 <= ns < 1000000000)%Z ->
  read_fraction
    (match fraction 9 ns with
     | EmptyString => EmptyString
     | _ => "." +:+ fraction 9 ns
     end +:+ format_zone off)
  = (ns, format_zone off).
Proof.
  intros Hn.
  pose proof (nanos_fraction 9 ns 0 Hn) as Hv.
  destruct (fraction_length 9 ns) as (_ & Hd).
  destruct (fraction 9 ns) as [|c fr] eqn:E.
  - rewrite nanos_nil in Hv. assert (ns = 0%Z) by lia. subst ns.
    cbn [String.append].
    unfold format_zone. destruct (off =? 0)%Z; [reflexivity |].
    destruct (Z.quot off 60 <? 0)%Z; reflexivity.
  - cbn [String.append read_fraction].
    cbn [all_digits] in Hd. apply andb_true_iff in Hd as (Hc & Hfr).
    rewrite Hc.
    change (String c (fr +:+ format_zone off))
      with (String c fr +:+ format_zone off).
    rewrite span_digits_all; [| cbn; rewrite Hc, Hfr; reflexivity | apply zone_no_digit].
    rewrite Hv. reflexivity.
Qed.

Lemma parse_format_time (t : Time) :
  valid_time t ->
  exists s, format_time t = Some s /\ parse_time s = Some t.
Proof.
  intros (Hy & Hmo & Hd & Hh & Hmi & Hs & Hn & Ho & Hom).
  assert (Hd' : (1 <= day t <= 31)%Z).
  { split; [lia |]. unfold daysIn in Hd.
    repeat match type of Hd with context [if ?b then _ else _] => destruct b end; lia. }
  unfold format_time.
  replace ((year t <? 0)%Z || (9999 <? year t)%Z) with false
    by (symmetry; apply orb_false_iff; split; [apply Z.ltb_ge | apply Z.ltb_ge]; lia).
  replace (86400 <=? Z.abs (zoneOffset t))%Z with false
    by (symmetry; apply Z.leb_gt; lia).
  eexists. split; [reflexivity |].
  unfold parse_time.
  rewrite ?append_assoc.
  rewrite field_digits by (cbn; lia). cbn [String.append starts Ascii.eqb Bool.eqb].
  rewrite field_digits by (cbn; lia). cbn [String.append starts Ascii.eqb Bool.eqb].
  rewrite field_digits by (cbn; lia). cbn [String.append starts Ascii.eqb Bool.eqb].
  rewrite field_digits by (cbn; lia). cbn [String.append starts Ascii.eqb Bool.eqb].
  rewrite field_digits by (cbn; lia). cbn [String.append starts Ascii.eqb Bool.eqb].
  rewrite field_digits by (cbn; lia).
  rewrite !in_range_intro by lia. cbn [andb].
  rewrite read_fraction_format by lia. cbn [fst snd].
  rewrite parse_format_zone by assumption.
  destruct t; reflexivity.
Qed.

(** *** Documents *)

Lemma canonical_arr l : canonical (JArr l) = canonical_elements l.
Proof. induction l as [|x r IH]; cbn in *; [reflexivity | rewrite IH; reflexivity]. Qed.

Lemma canonical_obj l : canonical (JObj l) = canonical_members l.
Proof.
  induction l as [|[k v] r IH]; cbn in *; [reflexivity | rewrite IH; reflexivity].
Qed.

Lemma nodes_arr l : nodes (JArr l) = S (nodes_elements l).
Proof. induction l as [|x r IH]; cbn in *; [reflexivity | congruence]. Qed.

Lemma nodes_obj l : nodes (JObj l) = S (nodes_members l).
Proof. induction l as [|[k v] r IH]; cbn in *; [reflexivity | congruence]. Qed.

Lemma value_start_facts (c : ascii) :
  value_start c = true ->
  is_ws c = false /\ Ascii.eqb c "]" = false /\ Ascii.eqb c "}" = false.
Proof.
  destruct c as [[] [] [] [] [] [] [] []]; cbn; intros H;
    try discriminate H; repeat split.
Qed.

Lemma number_head (z : Z) :
  exists c r, string_of_Z z = String c r /\
              (is_digit c = true \/ c = "-"%char).
Proof.
  unfold string_of_Z. destruct z as [|p|p]; cbn [Z.to_int NilZero.string_of_int].
  - eexists; eexists; split; [reflexivity | left; reflexivity].
  - destruct (positive_string p) as (c & ds & E & Hc & _).
    rewrite E. eauto.
  - eauto.
Qed.

Lemma render_head (j : json) :
  canonical j -> exists c r, render j = String c r /\ value_start c = true.
Proof.
  destruct j as [|[]|l|raw|l|l]; intros H;
    try (eexists; eexists; split; [reflexivity | reflexivity]).
  destruct H as (z & ->).
  destruct (number_head z) as (c & r & E & Hc).
  exists c, r. split; [exact E |].
  destruct Hc as [Hc | ->]; [| reflexivity].
  unfold value_start. rewrite Hc. reflexivity.
Qed.

Lemma parse_number (fuel : nat) (c : ascii) (r : string) :
  is_digit c = true \/ c = "-"%char ->
  parse_value (S fuel) (String c r) =
  match scan_number (String c r) with
  | Some (l, r') => Some (JNum l, r')
  | None => None
  end.
Proof.
  intros [H | ->]; [| reflexivity].
  destruct c as [[] [] [] [] [] [] [] []]; try discriminate H; reflexivity.
Qed.

Lemma closes_comma rest : closes (String "," rest).
Proof. left. reflexivity. Qed.

Lemma closes_brace rest : closes (String "}" rest).
Proof. right. left. reflexivity. Qed.

Lemma closes_bracket rest : closes (String "]" rest).
Proof. right. right. reflexivity. Qed.

Lemma parse_string (fuel : nat) (r : string) :
  parse_value (S fuel) (String quote r) =
  match scan_string r with
  | Some (raw, r') => Some (JStr raw, r')
  | None => None
  end.
Proof. reflexivity. Qed.

Lemma parse_array (fuel : nat) (r : string) :
  parse_value (S fuel) (String "[" r) =
  match starts "]" (skip_ws r) with
  | Some r' => Some (JArr [], r')
  | None =>
      match parse_elements fuel r with
      | Some (vs, r') => Some (JArr vs, r')
      | None => None
      end
  end.
Proof. reflexivity. Qed.

Lemma parse_object (fuel : nat) (r : string) :
  parse_value (S fuel) (String "{" r) =
  match starts "}" (skip_ws r) with
  | Some r' => Some (JObj [], r')
  | None =>
      match parse_members fuel r with
      | Some (ms, r') => Some (JObj ms, r')
      | None => None
      end
  end.
Proof. reflexivity. Qed.

Lemma skip_ws_value (c : ascii) (r : string) :
  is_ws c = false -> skip_ws (String c r) = String c r.
Proof. intros H. cbn [skip_ws]. rewrite H. reflexivity. Qed.

Lemma parse_elements_step (fuel : nat) (s : string) :
  parse_elements (S fuel) s =
  match parse_value fuel s with
  | None => None
  | Some (v, r) =>
      match starts "," (skip_ws r) with
      | Some r' =>
          match parse_elements fuel r' with
          | Some (vs, r'') => Some (v :: vs, r'')
          | None => None
          end
      | None =>
          match starts "]" (skip_ws r) with
          | Some r' => Some ([v], r')
          | None => None
          end
      end
  end.
Proof. reflexivity. Qed.

Lemma parse_members_step (fuel : nat) (k r : string) :
  raw_token k ->
  parse_members (S fuel) (String quote (k +:+ String quote (String ":" r))) =
  match parse_value fuel r with
  | None => None
  | Some (v, r3) =>
      match starts "," (skip_ws r3) with
      | Some r4 =>
          match parse_members fuel r4 with
          | Some (ms, r5) => Some ((k, v) :: ms, r5)
          | None => None
          end
      | None =>
          match starts "}" (skip_ws r3) with
          | Some r4 => Some ([(k, v)], r4)
          | None => None
          end
      end
  end.
Proof.
  intros Hk.
  change (parse_members (S fuel) (String quote (k +:+ String quote (String ":" r))))
    with (match scan_string (k +:+ String quote (String ":" r)) with
          | None => None
          | Some (key, r1) =>
              match starts ":" (skip_ws r1) with
              | None => None
              | Some r2 =>
                  match parse_value fuel r2 with
                  | None => None
                  | Some (v, r3) =>
                      match starts "," (skip_ws r3) with
                      | Some r4 =>
                          match parse_members fuel r4 with
                          | Some (ms, r5) => Some ((key, v) :: ms, r5)
                          | None => None
                          end
                      | None =>
                          match starts "}" (skip_ws r3) with
                          | Some r4 => Some ([(key, v)], r4)
                          | None => None
                          end
                      end
                  end
              end
          end).
  rewrite (Hk _). reflexivity.
Qed.

Lemma after_comma (r : string) :
  starts "," (skip_ws (String "," r)) = Some r.
Proof. reflexivity. Qed.

Lemma after_bracket (r : string) :
  starts "," (skip_ws (String "]" r)) = None /\
  starts "]" (skip_ws (String "]" r)) = Some r.
Proof. split; reflexivity. Qed.

Lemma after_brace (r : string) :
  starts "," (skip_ws (String "}" r)) = None /\
  starts "}" (skip_ws (String "}" r)) = Some r.
Proof. split; reflexivity. Qed.

(** Reading what was rendered gives the tree back, with enough fuel. *)
Lemma parse_render (fuel : nat) :
  (forall j rest, canonical j -> (nodes j <= fuel)%nat -> closes rest ->
     parse_value fuel (render j +:+ rest) = Some (j, rest)) /\
  (forall l rest, l <> [] -> canonical_elements l ->
     (nodes_elements l <= fuel)%nat ->
     parse_elements fuel (render_elements render l +:+ rest) = Some (l, rest)) /\
  (forall l rest, l <> [] -> canonical_members l ->
     (nodes_members l <= fuel)%nat ->
     parse_members fuel (render_members render l +:+ rest) = Some (l, rest)).
Proof.
  induction fuel as [|fuel (IHv & IHe & IHm)].
  - split; [| split].
    + intros j rest _ H. destruct j; cbn in H; lia.
    + intros [|x r] rest H _ Hn; [congruence | cbn in Hn; lia].
    + intros [|[k v] r] rest H _ Hn; [congruence | cbn in Hn; lia].
  - split; [| split].
    + intros j rest Hc Hn Hr.
      destruct j as [|[]|l|raw|l|l]; try reflexivity.
      * (* a number *)
        destruct Hc as (z & ->). cbn [render].
        destruct (number_head z) as (c & r & E & Hh).
        pose proof (scan_number_int z rest Hr) as Hs.
        rewrite E in Hs |- *. cbn [String.append] in Hs |- *.
        rewrite parse_number, Hs by exact Hh. reflexivity.
      * (* a string *)
        cbn [render String.append]. cbn [canonical] in Hc.
        rewrite parse_string, append_assoc. cbn [str1 String.append].
        rewrite (Hc rest). reflexivity.
      * (* an array *)
        rewrite canonical_arr in Hc. rewrite nodes_arr in Hn.
        destruct l as [|x r]; [reflexivity |].
        cbn [render]. cbn [String.append].
        assert (Hhead : exists c t, render_elements render (x :: r) +:+ rest
                                    = String c t /\ value_start c = true).
        { destruct Hc as (Hx & _).
          destruct (render_head x Hx) as (c & t & E & Hv).
          cbn [render_elements]. destruct r; rewrite E; cbn [String.append]; eauto. }
        destruct Hhead as (c & t & E & Hv).
        destruct (value_start_facts c Hv) as (Hw & Hb & _).
        pose proof (IHe (x :: r) rest ltac:(discriminate) Hc ltac:(lia)) as Hp.
        rewrite parse_array.
        rewrite E in Hp |- *.
        rewrite skip_ws_value by exact Hw.
        cbn [starts]. rewrite Hb, Hp. reflexivity.
      * (* an object *)
        rewrite canonical_obj in Hc. rewrite nodes_obj in Hn.
        destruct l as [|[k v] r]; [reflexivity |].
        cbn [render]. cbn [String.append].
        pose proof (IHm ((k, v) :: r) rest ltac:(discriminate) Hc ltac:(lia)) as Hp.
        assert (E : exists t, render_members render ((k, v) :: r) +:+ rest
                              = String quote t).
        { cbn [render_members]. destruct r; cbn [String.append]; eauto. }
        destruct E as (t & E).
        rewrite parse_object.
        rewrite E in Hp |- *.
        replace (starts "}" (skip_ws (String quote t))) with (@None string)
          by reflexivity.
        rewrite Hp. reflexivity.
    + intros l rest Hl Hc Hn.
      destruct l as [|x r]; [congruence |].
      destruct Hc as (Hx & Hr). cbn [nodes_elements] in Hn.
      rewrite parse_elements_step. cbn [render_elements].
      destruct r as [|y r].
      * rewrite append_assoc. cbn [String.append].
        rewrite IHv by (auto using closes_bracket; lia).
        destruct (after_bracket rest) as (-> & ->). reflexivity.
      * rewrite !append_assoc. cbn [String.append].
        rewrite IHv by (auto using closes_comma; lia).
        rewrite after_comma.
        rewrite IHe by (try discriminate; try assumption; lia). reflexivity.
    + intros l rest Hl Hc Hn.
      destruct l as [|[k v] r]; [congruence |].
      destruct Hc as ((Hk & Hv) & Hr). cbn [nodes_members] in Hn.
      cbn [render_members].
      destruct r as [|y r].
      * cbn [String.append]. rewrite !append_assoc. cbn [String.append].
        rewrite !append_assoc. cbn [String.append].
        rewrite parse_members_step by exact Hk.
        rewrite IHv by (auto using closes_brace; lia).
        destruct (after_brace rest) as (-> & ->). reflexivity.
      * cbn [String.append]. rewrite !append_assoc. cbn [String.append].
        rewrite !append_assoc. cbn [String.append].
        rewrite parse_members_step by exact Hk.
        rewrite IHv by (auto using closes_comma; lia).
        rewrite after_comma.
        rewrite IHm by (try discriminate; try assumption; lia). reflexivity.
Qed.

Lemma json_induction (P : json -> Prop) :
  P JNull -> (forall b, P (JBool b)) -> (forall l, P (JNum l)) ->
  (forall raw, P (JStr raw)) ->
  (forall l, Forall P l -> P (JArr l)) ->
  (forall l, Forall (fun kv => P (snd kv)) l -> P (JObj l)) ->
  forall j, P j.
Proof.
  intros Hnull Hbool Hnum Hstr Harr Hobj.
  exact (fix F (j : json) : P j :=
           match j with
           | JNull => Hnull
           | JBool b => Hbool b
           | JNum l => Hnum l
           | JStr raw => Hstr raw
           | JArr l =>
               Harr l ((fix G (l : list json) : Forall P l :=
                          match l with
                          | [] => @List.Forall_nil _ P
                          | x :: r => @List.Forall_cons _ P x r (F x) (G r)
                          end) l)
           | JObj l =>
               Hobj l ((fix G (l : list (string * json))
                          : Forall (fun kv => P (snd kv)) l :=
                          match l with
                          | [] => @List.Forall_nil _ _
                          | (k, v) :: r =>
                              @List.Forall_cons _ (fun kv => P (snd kv)) (k, v) r (F v) (G r)
                          end) l)
           end).
Qed.

Lemma length_append (a b : string) :
  String.length (a +:+ b) = (String.length a + String.length b)%nat.
Proof.
  induction a as [|c a IH]; [reflexivity |].
  cbn [String.append String.length]. rewrite IH. reflexivity.
Qed.

Lemma render_elements_cons (x y : json) (r : list json) :
  render_elements render (x :: y :: r)
  = render x +:+ "," +:+ render_elements render (y :: r).
Proof. reflexivity. Qed.

Lemma render_members_cons (k : string) (v : json) (y : string * json)
    (r : list (string * json)) :
  render_members render ((k, v) :: y :: r)
  = String quote (k +:+ String quote (":" +:+ render v +:+ ","
                                        +:+ render_members render (y :: r))).
Proof. reflexivity. Qed.

(** A tree has no more nodes than its text has characters. *)
Lemma nodes_bound (j : json) :
  canonical j -> (nodes j <= String.length (render j))%nat.
Proof.
  induction j as [| b | l | raw | l IH | l IH] using json_induction; intros Hc.
  - cbn. lia.
  - destruct b; cbn; lia.
  - destruct Hc as (z & ->). destruct (number_head z) as (c & r & -> & _).
    cbn. lia.
  - cbn. lia.
  - rewrite canonical_arr in Hc. rewrite nodes_arr. cbn [render].
    cbn [String.append String.length]. apply le_n_S.
    induction l as [|x r IHr]; [cbn; lia |].
    inversion IH as [|? ? Hx Hr]; subst. destruct Hc as (Hcx & Hcr).
    specialize (IHr Hr Hcr). specialize (Hx Hcx).
    destruct r as [|y r].
    + cbn [nodes_elements render_elements]. rewrite length_append. cbn. lia.
    + rewrite render_elements_cons, !length_append.
      change (nodes_elements (x :: y :: r))
        with (S (nodes x + nodes_elements (y :: r))).
      cbn [String.length]. lia.
  - rewrite canonical_obj in Hc. rewrite nodes_obj. cbn [render].
    cbn [String.append String.length]. apply le_n_S.
    induction l as [|[k v] r IHr]; [cbn; lia |].
    inversion IH as [|? ? Hx Hr]; subst. destruct Hc as ((_ & Hcx) & Hcr).
    specialize (IHr Hr Hcr). cbn [snd] in Hx. specialize (Hx Hcx).
    destruct r as [|y r].
    + cbn [nodes_members render_members].
      cbn [String.length]. rewrite !length_append. cbn [String.length].
      rewrite !length_append. cbn [String.length]. lia.
    + rewrite render_members_cons.
      change (nodes_members ((k, v) :: y :: r))
        with (S (nodes v + nodes_members (y :: r))).
      cbn [String.length]. rewrite !length_append. cbn [String.length].
      rewrite !length_append. cbn [String.length]. lia.
Qed.

Lemma parse_document_render (j : json) :
  canonical j -> parse_document (render j) = Some j.
Proof.
  intros Hc. unfold parse_document.
  pose proof (nodes_bound j Hc) as Hn.
  destruct (parse_render (2 * String.length (render j) + 2)) as (Hv & _).
  specialize (Hv j EmptyString Hc ltac:(lia) I).
  rewrite append_nil_r in Hv. rewrite Hv. reflexivity.
Qed.

(** *** The structs *)

Lemma escape_app (a b : string) : escape (a +:+ b) = escape a +:+ escape b.
Proof.
  induction a as [|c a IH]; [reflexivity |].
  cbn [String.append escape]. rewrite IH, append_assoc. reflexivity.
Qed.

Lemma escape_digits_string (s : string) : all_digits s = true -> escape s = s.
Proof.
  induction s as [|c s IH]; [reflexivity |].
  cbn [all_digits escape]. intros H. apply andb_true_iff in H as (Hc & Hs).
  rewrite (IH Hs).
  destruct c as [[] [] [] [] [] [] [] []]; try discriminate Hc; reflexivity.
Qed.

Lemma escape_digits (w : nat) (x : Z) : escape (digits w x) = digits w x.
Proof. apply escape_digits_string, digits_all. Qed.

Lemma escape_zone (off : Z) : escape (format_zone off) = format_zone off.
Proof.
  unfold format_zone. destruct (off =? 0)%Z; [reflexivity |].
  destruct (Z.quot off 60 <? 0)%Z;
    rewrite !escape_app, !escape_digits; reflexivity.
Qed.

(** The text of a time needs no escapes. *)
Lemma format_time_raw (t : Time) (s : string) :
  format_time t = Some s -> raw_token s.
Proof.
  unfold format_time. cbv zeta.
  match goal with |- context [Some ?x] => set (body := x) end.
  assert (E : escape body = body).
  { subst body. rewrite !escape_app, !escape_digits, escape_zone.
    destruct (fraction_length 9 (nanosecond t)) as (_ & Hd).
    destruct (fraction 9 (nanosecond t)) as [|c fr]; [reflexivity |].
    rewrite (escape_app "."), (escape_digits_string _ Hd). reflexivity. }
  destruct ((year t <? 0)%Z || (9999 <? year t)%Z); [discriminate |].
  destruct (86400 <=? Z.abs (zoneOffset t))%Z; [discriminate |].
  intros H. assert (Hs : s = body) by congruence.
  rewrite Hs, <- E. apply escape_raw_token.
Qed.

Lemma enc_time_spec (t : Time) :
  valid_time t ->
  exists s, enc_time t = Some (JStr s) /\ raw_token s /\ parse_time s = Some t.
Proof.
  intros H. destruct (parse_format_time t H) as (s & Hf & Hp).
  exists s. unfold enc_time. rewrite Hf.
  split; [reflexivity |]. split; [apply (format_time_raw t), Hf | exact Hp].
Qed.

Lemma key_token (k : string) : escape k = k -> raw_token k.
Proof. intros <-. apply escape_raw_token. Qed.

Lemma enc_string_canonical (s : string) : canonical (enc_string s).
Proof. apply escape_raw_token. Qed.

Lemma enc_int_canonical (z : Z) : canonical (enc_int z).
Proof. exists z. reflexivity. Qed.

Lemma decode_enc_string (s old : string) :
  decode_string (enc_string s) old = Some s.
Proof. cbn. rewrite unquote_escape. reflexivity. Qed.

Create HintDb json.
#[local] Hint Resolve enc_string_canonical enc_int_canonical : json.

Lemma enc_PrecheckSummary_spec (s : PrecheckSummary) :
  well_formed_summary s ->
  canonical (enc_PrecheckSummary s) /\
  decode_PrecheckSummary (enc_PrecheckSummary s) zero_PrecheckSummary = Some s.
Proof.
  intros (H1 & H2 & H3 & H4). split.
  - unfold enc_PrecheckSummary. rewrite canonical_obj. cbn [canonical_members].
    repeat split; auto with json; apply key_token; reflexivity.
  - unfold enc_PrecheckSummary, decode_PrecheckSummary.
    cbn [decode_members].
    repeat match goal with
    | |- context [store_PrecheckSummary (field_of ?k) ?j ?v] =>
        let k' := eval vm_compute in (field_of k) in
        change (field_of k) with k';
        unfold store_PrecheckSummary at 1;
        cbn [String.eqb Ascii.eqb Bool.eqb];
        rewrite ?decode_enc_int by assumption;
        cbn [decode_bool Total Passed Warnings Failed CanProceed]
    end.
    destruct s; reflexivity.
Qed.

Lemma decode_time_str (s : string) (t old : Time) :
  parse_time s = Some t -> decode_time (JStr s) old = Some t.
Proof. intros H. exact H. Qed.

(** One step of storing the members of a result. *)
Ltac store_result :=
  repeat match goal with
  | |- context [store_PrecheckResult (field_of ?k) ?j ?v] =>
      let k' := eval vm_compute in (field_of k) in
      change (field_of k) with k';
      unfold store_PrecheckResult at 1;
      cbn [String.eqb Ascii.eqb Bool.eqb];
      rewrite ?decode_enc_string;
      cbn [pr_Name pr_Status pr_Message pr_Details pr_Timestamp pr_Duration
           pr_Remediation]
  end.

Lemma enc_PrecheckResult_spec (r : PrecheckResult) :
  well_formed_result r ->
  exists j, enc_PrecheckResult r = Some j /\ canonical j /\
            decode_PrecheckResult j zero_PrecheckResult = Some r.
Proof.
  intros (_ & _ & _ & _ & _ & _ & Ht).
  destruct (enc_time_spec _ Ht) as (ts & Hts & Hraw & Hparse).
  unfold enc_PrecheckResult. rewrite Hts.
  eexists. split; [reflexivity |].
  destruct r as [name status msg details t duration remediation].
  cbn [pr_Name pr_Status pr_Message pr_Details pr_Timestamp pr_Duration
       pr_Remediation] in *.
  split.
  - rewrite canonical_obj.
    destruct details, remediation; cbn [omitempty app canonical_members];
      repeat split; auto with json; try (apply key_token; reflexivity);
      exact Hraw.
  - unfold decode_PrecheckResult.
    destruct details as [|d details], remediation as [|m remediation];
      cbn [omitempty app decode_members];
      store_result;
      rewrite (decode_time_str ts t _ Hparse);
      store_result; reflexivity.
Qed.

Lemma enc_results_spec (l : list PrecheckResult) :
  Forall well_formed_result l ->
  exists js, enc_results l = Some js /\ canonical_elements js /\
             decode_elements js = Some l.
Proof.
  induction l as [|r l IH]; intros H.
  - exists []. repeat split.
  - inversion H as [|? ? Hr Hl]; subst.
    destruct (enc_PrecheckResult_spec r Hr) as (j & Ej & Cj & Dj).
    destruct (IH Hl) as (js & Ejs & Cjs & Djs).
    exists (j :: js). cbn [enc_results decode_elements canonical_elements].
    rewrite Ej, Ejs, Dj, Djs. repeat split; assumption.
Qed.

Ltac store_results :=
  repeat match goal with
  | |- context [store_PrecheckResults (field_of ?k) ?j ?v] =>
      let k' := eval vm_compute in (field_of k) in
      change (field_of k) with k';
      unfold store_PrecheckResults at 1;
      cbn [String.eqb Ascii.eqb Bool.eqb];
      rewrite ?decode_enc_string;
      cbn [Results Summary Timestamp ClusterRef]
  end.

Lemma enc_PrecheckResults_spec (r : PrecheckResults) :
  well_formed r ->
  exists j, enc_PrecheckResults r = Some j /\ canonical j /\
            decode_PrecheckResults j zero_PrecheckResults = Some r.
Proof.
  intros (Hl & Hs & Ht & _).
  destruct (enc_results_spec _ Hl) as (js & Ejs & Cjs & Djs).
  destruct (enc_PrecheckSummary_spec _ Hs) as (Cs & Ds).
  destruct (enc_time_spec _ Ht) as (ts & Hts & Hraw & Hparse).
  unfold enc_PrecheckResults. rewrite Ejs, Hts.
  eexists. split; [reflexivity |].
  split.
  - rewrite canonical_obj. cbn [canonical_members].
    rewrite canonical_arr.
    repeat split; auto with json; try (apply key_token; reflexivity);
      assumption.
  - unfold decode_PrecheckResults, zero_PrecheckResults. cbn [decode_members].
    store_results.
    cbn [decode_results]. rewrite Djs. cbn [decode_members].
    store_results. rewrite Ds. cbn [decode_members].
    store_results. rewrite (decode_time_str ts _ _ Hparse). cbn [decode_members].
    store_results.
    destruct r; reflexivity.
Qed.

(** C5.  For every well-formed report, [ToJSON] succeeds and
    [PrecheckResultsFromJSON] gives the report back from its text: the pair
    is a lossless round trip. *)
Theorem json_round_trip (r : PrecheckResults) :
  well_formed r ->
  exists jsonStr,
    ToJSON r = inl jsonStr /\ PrecheckResultsFromJSON jsonStr = Some r.
Proof.
  intros H. destruct (enc_PrecheckResults_spec r H) as (j & Ej & Cj & Dj).
  exists (render j). unfold ToJSON, PrecheckResultsFromJSON.
  rewrite Ej, parse_document_render by exact Cj.
  split; [reflexivity | exact Dj].
Qed.

(** Closed facts about concrete reports, by evaluation. *)
Ltac evaluated :=
  vm_compute;
  repeat match goal with
         | |- _ /\ _ => split
         | |- _ = _ => reflexivity
         | |- _ -> False => discriminate
         end.

Lemma json_round_trip_witness :
  let r := fst (generateMockPrecheckResults false
                  (example_world (example_cluster []) 1 [])) in
  well_formed r /\
  exists jsonStr,
    ToJSON r = inl jsonStr /\ PrecheckResultsFromJSON jsonStr = Some r.
Proof.
  cbn zeta.
  match goal with |- well_formed ?r /\ _ =>
    assert (H : well_formed r)
  end.
  { split; [| split; [| split]].
    - match goal with |- Forall _ ?l =>
        let l' := eval vm_compute in l in change l with l'
      end.
      repeat (constructor; [evaluated |]). constructor.
    - evaluated.
    - evaluated.
    - evaluated. }
  split; [exact H | apply json_round_trip, H].
Defined.

(** * Further properties of the code *)

(** ** Conditions: [updateCondition] *)

Lemma updateCondition_fresh conditions c :
  Forall (fun x => c_Type x <> c_Type c) conditions ->
  updateCondition conditions c = conditions ++ [c].
Proof.
  induction 1 as [|x l Hx _ IH]; [reflexivity |].
  cbn. apply String.eqb_neq in Hx. rewrite Hx, IH. reflexivity.
Qed.

Lemma updateCondition_first pre old post c :
  Forall (fun x => c_Type x <> c_Type c) pre ->
  c_Type old = c_Type c ->
  updateCondition (pre ++ old :: post) c = pre ++ c :: post.
Proof.
  intros Hpre Hold.
  induction Hpre as [|x l Hx _ IH]; cbn.
  - rewrite Hold, String.eqb_refl. reflexivity.
  - apply String.eqb_neq in Hx. rewrite Hx, IH. reflexivity.
Qed.

Lemma updateCondition_cases conditions c :
  (Forall (fun x => c_Type x <> c_Type c) conditions /\
   updateCondition conditions c = conditions ++ [c]) \/
  (exists pre old post,
     conditions = pre ++ old :: post /\
     Forall (fun x => c_Type x <> c_Type c) pre /\ c_Type old = c_Type c /\
     updateCondition conditions c = pre ++ c :: post).
Proof.
  induction conditions as [|x l IH].
  - left. split; [constructor | reflexivity].
  - destruct (String.eqb_spec (c_Type x) (c_Type c)) as [E | N].
    + right. exists [], x, l. cbn. rewrite E, String.eqb_refl. auto.
    + destruct IH as [[F E] | (pre & old & post & -> & F & T & E)].
      * left. split; [constructor; assumption |].
        apply updateCondition_fresh. constructor; assumption.
      * right. exists (x :: pre), old, post.
        split; [reflexivity |]. split; [constructor; assumption |].
        split; [assumption |].
        apply (updateCondition_first (x :: pre)); [constructor |]; assumption.
Qed.

Lemma updateCondition_find conditions c :
  List.find (fun x => c_Type x =? c_Type c) (updateCondition conditions c) = Some c.
Proof.
  induction conditions as [|x l IH]; cbn.
  - rewrite String.eqb_refl. reflexivity.
  - destruct (c_Type x =? c_Type c) eqn:E; cbn.
    + rewrite String.eqb_refl. reflexivity.
    + rewrite E. exact IH.
Qed.

(** X1.  [updateCondition] replaces in place.  When a condition of the type of
    the new one is in the list, the first such condition is replaced by the
    new one, where it stands, and nothing else changes; when there is none,
    the new condition is added at the end.  In both cases the first condition
    of that type is then the new one, and the list grows by one exactly when
    the type was not there. *)
Theorem updateCondition_in_place (c : Condition) :
  (forall pre old post,
      Forall (fun x => c_Type x <> c_Type c) pre ->
      c_Type old = c_Type c ->
      updateCondition (pre ++ old :: post) c = pre ++ c :: post) /\
  (forall conditions,
      Forall (fun x => c_Type x <> c_Type c) conditions ->
      updateCondition conditions c = conditions ++ [c]) /\
  (forall conditions,
      List.find (fun x => c_Type x =? c_Type c) (updateCondition conditions c)
      = Some c /\
      length (updateCondition conditions c) =
        (if existsb (fun x => c_Type x =? c_Type c) conditions
         then length conditions else S (length conditions))).
Proof.
  split; [intros; apply updateCondition_first; assumption |].
  split; [intros; apply updateCondition_fresh; assumption |].
  intros conditions.
  induction conditions as [|x l [IHf IHl]]; cbn.
  - rewrite String.eqb_refl. auto.
  - destruct (c_Type x =? c_Type c) eqn:E; cbn.
    + rewrite String.eqb_refl. auto.
    + rewrite E, IHf, IHl.
      destruct (existsb _ l); auto.
Qed.

Lemma updateCondition_types conditions c :
  forall t, In t (map c_Type (updateCondition conditions c)) ->
            t = c_Type c \/ In t (map c_Type conditions).
Proof.
  induction conditions as [|x l IH]; cbn; intros t H.
  - destruct H as [<- | []]. auto.
  - destruct (String.eqb_spec (c_Type x) (c_Type c)) as [E | N]; cbn in H.
    + destruct H as [<- | H]; auto.
    + destruct H as [<- | H]; auto.
      destruct (IH t H); auto.
Qed.

Lemma updateCondition_NoDup conditions c :
  List.NoDup (map c_Type conditions) ->
  List.NoDup (map c_Type (updateCondition conditions c)).
Proof.
  induction conditions as [|x l IH]; cbn; intros H.
  - constructor; [intros [] | constructor].
  - inversion_clear H as [|? ? Hx Hl].
    destruct (String.eqb_spec (c_Type x) (c_Type c)) as [E | N]; cbn.
    + constructor; [rewrite <- E |]; assumption.
    + constructor; [| apply IH, Hl].
      intros Hin. destruct (updateCondition_types _ _ _ Hin); auto.
Qed.

Lemma updateCondition_overwrite conditions c c' :
  c_Type c = c_Type c' ->
  updateCondition (updateCondition conditions c) c' = updateCondition conditions c'.
Proof.
  intros E. induction conditions as [|x l IH]; cbn.
  - rewrite E, String.eqb_refl. reflexivity.
  - destruct (c_Type x =? c_Type c) eqn:T; cbn.
    + rewrite <- E, T, String.eqb_refl. reflexivity.
    + rewrite <- E, T. f_equal. apply IH.
Qed.

(** X2.  [updateCondition] keeps one condition per type.  A list without two
    conditions of one type stays so; a second update with a condition of the
    same type overwrites the first, so that an update made twice is an update
    made once; and the conditions of every other type are left as they were,
    in their order. *)
Theorem updateCondition_one_per_type (conditions : list Condition) (c : Condition) :
  (List.NoDup (map c_Type conditions) ->
   List.NoDup (map c_Type (updateCondition conditions c))) /\
  (forall c', c_Type c = c_Type c' ->
     updateCondition (updateCondition conditions c) c'
     = updateCondition conditions c') /\
  updateCondition (updateCondition conditions c) c = updateCondition conditions c /\
  (forall t, t <> c_Type c ->
     List.filter (fun x => c_Type x =? t) (updateCondition conditions c)
     = List.filter (fun x => c_Type x =? t) conditions).
Proof.
  split; [apply updateCondition_NoDup |].
  split; [intros; apply updateCondition_overwrite; assumption |].
  split; [apply updateCondition_overwrite; reflexivity |].
  intros t Ht. induction conditions as [|x l IH]; cbn.
  - destruct (String.eqb_spec (c_Type c) t); congruence.
  - destruct (String.eqb_spec (c_Type x) (c_Type c)) as [E | N]; cbn.
    + destruct (String.eqb_spec (c_Type c) t); [congruence |].
      destruct (String.eqb_spec (c_Type x) t); [congruence | reflexivity].
    + rewrite IH. reflexivity.
Qed.

(** ** What an invocation leaves alone

    Properties of every invocation, in every state and for every outcome
    of the writes, are proved by walking over the code of the handlers with
    a relation between the world before and the world after a step. *)

Section Respects.

Variable R : World -> World -> Prop.
Hypothesis R_refl : forall w, R w w.
Hypothesis R_trans : forall a b c, R a b -> R b c -> R a c.

Lemma respects_ret {A} (a : A) : respects R (ret a).
Proof. intros w. apply R_refl. Qed.

Lemma respects_bind {A B} (m : M A) (k : A -> M B) :
  respects R m -> (forall a, respects R (k a)) -> respects R (bind m k).
Proof.
  intros Hm Hk w. unfold bind.
  specialize (Hm w). destruct (m w) as [a w1]. cbn in Hm.
  eapply R_trans; [exact Hm | apply Hk].
Qed.

Lemma respects_keeps {A} (m : M A) w0 : respects R m -> keeps (R w0) m.
Proof. intros H w Hw. eapply R_trans; [exact Hw | apply H]. Qed.

End Respects.

Lemma keeps_ret I {A} (a : A) : keeps I (ret a).
Proof. intros w H. exact H. Qed.

Lemma keeps_bind I {A B} (m : M A) (k : A -> M B) :
  keeps I m -> (forall a, keeps I (k a)) -> keeps I (bind m k).
Proof.
  intros Hm Hk w Hw. unfold bind.
  specialize (Hm w Hw). destruct (m w) as [a w1]. cbn in Hm.
  apply Hk, Hm.
Qed.

Lemma alike_refl c : alike c c.
Proof. repeat split. Qed.

Lemma alike_sym c c' : alike c c' -> alike c' c.
Proof. intros (H1 & H2 & H3). repeat split; auto. intros k Hk. symmetry. auto. Qed.

Lemma alike_trans c1 c2 c3 : alike c1 c2 -> alike c2 c3 -> alike c1 c3.
Proof.
  intros (H1 & H2 & H3) (G1 & G2 & G3). split; [congruence |].
  split; [congruence |]. intros k Hk. rewrite G3, H3; auto.
Qed.

Lemma frame_refl w : frame w w.
Proof.
  split; [reflexivity |]. split; [exists []; symmetry; apply app_nil_r |].
  split; [exists []; reflexivity |].
  intros _. split; apply alike_refl.
Qed.

Lemma frame_trans a b c : frame a b -> frame b c -> frame a c.
Proof.
  intros (S1 & (l1 & E1) & (u1 & F1) & A1) (S2 & (l2 & E2) & (u2 & F2) & A2).
  split; [congruence |].
  split; [exists (l1 ++ l2); rewrite E2, E1, app_assoc; reflexivity |].
  split; [exists (u1 ++ u2); rewrite F1, F2, app_assoc; reflexivity |].
  intros H. destruct (A1 H) as [Ho Hp].
  destruct A2 as [Ho' Hp'].
  { eapply alike_trans; [apply alike_sym, Ho |].
    eapply alike_trans; [exact H | exact Hp]. }
  split; eapply alike_trans; eassumption.
Qed.

Lemma frame_ret {A} (a : A) : respects frame (ret a).
Proof. apply respects_ret, frame_refl. Qed.

Lemma frame_bind {A B} (m : M A) (k : A -> M B) :
  respects frame m -> (forall a, respects frame (k a)) -> respects frame (bind m k).
Proof. apply respects_bind, frame_trans. Qed.

Lemma frame_keeps {A} (m : M A) w0 : respects frame m -> keeps (frame w0) m.
Proof. apply respects_keeps, frame_trans. Qed.

(** One step that leaves the StatefulSets alone. *)
Lemma frame_step w w' :
  statefulsets w' = statefulsets w ->
  (exists new, events w' = events w ++ new) ->
  faults w' = faults w \/ faults w' = tl (faults w) ->
  (alike (obj w) (persisted w) ->
   alike (obj w) (obj w') /\ alike (persisted w) (persisted w')) ->
  frame w w'.
Proof.
  intros S E F A. split; [exact S |]. split; [exact E |]. split; [| exact A].
  destruct F as [-> | ->]; [exists []; reflexivity |].
  destruct (faults w) as [|x l]; [exists [] | exists [x]]; reflexivity.
Qed.

Lemma frame_cluster : respects frame cluster.
Proof. intros w. apply frame_refl. Qed.

Lemma frame_GetAnnotations : respects frame GetAnnotations.
Proof. intros w. apply frame_refl. Qed.

Lemma frame_GetStatefulSet ns n : respects frame (GetStatefulSet ns n).
Proof. intros w. apply frame_refl. Qed.

Lemma frame_Sleep d : respects frame (Sleep d).
Proof. intros w. apply frame_refl. Qed.

Lemma frame_RecordEvent ty reason msg : respects frame (RecordEvent ty reason msg).
Proof.
  intros w. apply frame_step; cbn; auto.
  - eexists. reflexivity.
  - intros _. split; apply alike_refl.
Qed.

Lemma frame_Now : respects frame Now.
Proof.
  intros w. apply frame_step; cbn; auto.
  - exists []. symmetry. apply app_nil_r.
  - intros _. split; apply alike_refl.
Qed.

Lemma frame_Since t : respects frame (Since t).
Proof.
  apply frame_bind; [apply frame_Now | intros ?; apply frame_ret].
Qed.

Lemma frame_Update : respects frame Update.
Proof.
  intros w. unfold Update, bind, next_fault. cbn.
  destruct (hd None (faults w)); cbn.
  - apply frame_step; cbn; auto.
    + exists []. symmetry. apply app_nil_r.
    + intros _. split; apply alike_refl.
  - apply frame_step; cbn; auto.
    + exists []. symmetry. apply app_nil_r.
    + intros H. pose proof (alike_sym _ _ H) as G.
      destruct H as (H1 & H2 & H3). destruct G as (G1 & G2 & G3).
      split; (split; [| split]); auto.
Qed.

Lemma frame_StatusUpdate : respects frame StatusUpdate.
Proof.
  intros w. unfold StatusUpdate, bind, next_fault. cbn.
  destruct (hd None (faults w)); cbn.
  - apply frame_step; cbn; auto.
    + exists []. symmetry. apply app_nil_r.
    + intros _. split; apply alike_refl.
  - apply frame_step; cbn; auto.
    + exists []. symmetry. apply app_nil_r.
    + intros H. pose proof (alike_sym _ _ H) as G.
      destruct H as (H1 & H2 & H3). destruct G as (G1 & G2 & G3).
      split; (split; [| split]); auto.
Qed.

(** An assignment to the object in memory that keeps it like it was. *)
Lemma frame_assign f :
  (forall c, alike c (f c)) -> respects frame (assign f).
Proof.
  intros Hf w. apply frame_step; cbn; auto.
  - exists []. symmetry. apply app_nil_r.
  - intros _. split; [apply Hf | apply alike_refl].
Qed.

Lemma frame_assign_status f :
  (forall s, List.filter (fun x => negb (c_Type x =? "UpgradeInProgress"))
               (st_Conditions (f s))
             = List.filter (fun x => negb (c_Type x =? "UpgradeInProgress"))
                 (st_Conditions s)) ->
  respects frame (assign_status f).
Proof.
  intros Hf. apply frame_assign. intros c.
  split; [reflexivity |]. split; [apply Hf | reflexivity].
Qed.

Lemma other_conditions_update conditions c :
  c_Type c = "UpgradeInProgress" ->
  List.filter (fun x => negb (c_Type x =? "UpgradeInProgress"))
    (updateCondition conditions c)
  = List.filter (fun x => negb (c_Type x =? "UpgradeInProgress")) conditions.
Proof.
  intros Hc. induction conditions as [|x l IH]; cbn.
  - rewrite Hc. reflexivity.
  - rewrite Hc. destruct (c_Type x =? "UpgradeInProgress") eqn:E; cbn.
    + rewrite Hc. reflexivity.
    + rewrite E. cbn. rewrite IH. reflexivity.
Qed.

(** The annotations of the object in memory, rewritten at managed keys. *)
Lemma frame_modify {A} (g : gmap string string -> gmap string string) (rest : M A) :
  (forall a k, ~ In k managed_keys -> g a !! k = a !! k) ->
  respects frame rest ->
  respects frame (annotations <- GetAnnotations ;;
                  SetAnnotations (g annotations) ;; rest).
Proof.
  intros Hg Hrest w.
  change ((annotations <- GetAnnotations ;; SetAnnotations (g annotations) ;; rest) w)
    with (rest (with_obj (with_Annotations (g (Annotations (obj w))) (obj w)) w)).
  eapply frame_trans; [| apply Hrest].
  apply frame_step; cbn; auto.
  - exists []. symmetry. apply app_nil_r.
  - intros _. split; [| apply alike_refl].
    split; [reflexivity |]. split; [reflexivity |].
    intros k Hk. apply Hg, Hk.
Qed.

(** Walks a computation bind by bind, branch by branch; [known] closes the
    calls of the handlers that have been walked before. *)
Ltac known := fail.

Ltac walk :=
  repeat lazymatch goal with
    | |- respects frame (bind _ _) => apply frame_bind; [| intros ?; cbv beta zeta]
    | |- respects frame (if ?b then _ else _) => destruct b
    | |- respects frame (match ?x with _ => _ end) => destruct x
    | |- respects frame (ret _) => exact (frame_ret _)
    | |- respects frame cluster => exact frame_cluster
    | |- respects frame GetAnnotations => exact frame_GetAnnotations
    | |- respects frame (GetStatefulSet _ _) => exact (frame_GetStatefulSet _ _)
    | |- respects frame (Sleep _) => exact (frame_Sleep _)
    | |- respects frame (RecordEvent _ _ _) => exact (frame_RecordEvent _ _ _)
    | |- respects frame Now => exact frame_Now
    | |- respects frame (Since _) => exact (frame_Since _)
    | |- respects frame Update => exact frame_Update
    | |- respects frame StatusUpdate => exact frame_StatusUpdate
    | |- respects frame _ => known
    end.

Lemma frame_StartPrechecks : respects frame StartPrechecks.
Proof. unfold StartPrechecks. walk. Qed.

Lemma frame_generateMockPrecheckResults skip :
  respects frame (generateMockPrecheckResults skip).
Proof. unfold generateMockPrecheckResults. walk. Qed.

Lemma frame_CheckPrecheckStatus : respects frame CheckPrecheckStatus.
Proof.
  unfold CheckPrecheckStatus. walk; apply frame_generateMockPrecheckResults.
Qed.

Lemma frame_report_steps reason pause steps :
  respects frame (report_steps reason pause steps).
Proof. induction steps; cbn [report_steps]; walk; exact IHsteps. Qed.

Lemma frame_performRollingUpgrade : respects frame performRollingUpgrade.
Proof. unfold performRollingUpgrade. walk; apply frame_report_steps. Qed.

Lemma frame_StartRollingUpgrade : respects frame StartRollingUpgrade.
Proof. unfold StartRollingUpgrade. walk; apply frame_performRollingUpgrade. Qed.

Lemma frame_rollbackUpgrade : respects frame rollbackUpgrade.
Proof. unfold rollbackUpgrade. walk. Qed.

Lemma frame_checkStatefulSetUpgradeStatus group :
  respects frame (checkStatefulSetUpgradeStatus group).
Proof. unfold checkStatefulSetUpgradeStatus. walk. Qed.

Lemma frame_check_groups groups allUpdated :
  respects frame (check_groups groups allUpdated).
Proof.
  revert allUpdated. induction groups; intros allUpdated; cbn [check_groups]; walk;
    first [apply frame_checkStatefulSetUpgradeStatus | apply IHgroups].
Qed.

Lemma frame_checkUpgradeProgress_with healthCheck :
  respects frame healthCheck ->
  respects frame (checkUpgradeProgress_with healthCheck).
Proof.
  intros H. unfold checkUpgradeProgress_with. walk;
    first [apply frame_check_groups | exact H].
Qed.

Lemma frame_performClusterHealthCheck : respects frame performClusterHealthCheck.
Proof. unfold performClusterHealthCheck. walk; apply frame_report_steps. Qed.

Lemma frame_CheckUpgradeStatus : respects frame CheckUpgradeStatus.
Proof.
  unfold CheckUpgradeStatus, checkUpgradeProgress. walk;
    apply frame_checkUpgradeProgress_with, frame_performClusterHealthCheck.
Qed.

Lemma frame_record_image :
  respects frame
    (assign (fun c => with_Status (with_CurrentImage (Image c) (Status c)) c)).
Proof. apply frame_assign. intros c. repeat split. Qed.

Lemma frame_updateCurrentImages : respects frame updateCurrentImages.
Proof. unfold updateCurrentImages. walk; apply frame_record_image. Qed.

Lemma frame_updateStatusAfterDeployment : respects frame updateStatusAfterDeployment.
Proof. unfold updateStatusAfterDeployment. walk; apply frame_record_image. Qed.

Lemma frame_isClusterDeployed : respects frame isClusterDeployed.
Proof. unfold isClusterDeployed. walk. Qed.

Lemma frame_status_field f :
  (forall s, st_Conditions (f s) = st_Conditions s) ->
  respects frame (assign_status f).
Proof. intros H. apply frame_assign_status. intros s. rewrite H. reflexivity. Qed.

Lemma frame_upsert c :
  c_Type c = "UpgradeInProgress" ->
  respects frame
    (assign_status (fun s => with_Conditions (updateCondition (st_Conditions s) c) s)).
Proof.
  intros H. apply frame_assign_status. intros s. cbn.
  apply other_conditions_update, H.
Qed.

Ltac known ::=
  lazymatch goal with
  | |- respects frame StartPrechecks => exact frame_StartPrechecks
  | |- respects frame CheckPrecheckStatus => exact frame_CheckPrecheckStatus
  | |- respects frame StartRollingUpgrade => exact frame_StartRollingUpgrade
  | |- respects frame CheckUpgradeStatus => exact frame_CheckUpgradeStatus
  | |- respects frame updateCurrentImages => exact frame_updateCurrentImages
  | |- respects frame updateStatusAfterDeployment =>
      exact frame_updateStatusAfterDeployment
  | |- respects frame isClusterDeployed => exact frame_isClusterDeployed
  | |- respects frame (assign_status (with_UpgradePaused _)) =>
      apply frame_status_field; intros ?; reflexivity
  | |- respects frame (assign_status (with_UpgradeState _)) =>
      apply frame_status_field; intros ?; reflexivity
  | |- respects frame (assign_status (with_LastUpgradeTime _)) =>
      apply frame_status_field; intros ?; reflexivity
  | |- respects frame (assign_status _) => apply frame_upsert; reflexivity
  end.

Lemma stored_other state results a k :
  ~ In k managed_keys -> stored state results a !! k = a !! k.
Proof.
  intros Hk. unfold stored.
  assert (k <> AnnotationUpgradeState) by (intros ->; apply Hk; cbn; auto).
  assert (k <> AnnotationPrecheckResults) by (intros ->; apply Hk; cbn; auto 10).
  destruct results as [r|]; [destruct (ToJSON r) |];
    rewrite ?lookup_insert_ne by congruence; reflexivity.
Qed.

Lemma cleaned_unmanaged s a k :
  ~ In k managed_keys -> cleaned s a !! k = a !! k.
Proof.
  intros Hk. apply cleaned_other.
  - intros ->. apply Hk. cbn. auto.
  - intros H. apply Hk. cbn in H |- *. intuition.
Qed.

Lemma frame_updateUpgradeStateWithResults state results :
  respects frame (updateUpgradeStateWithResults state results).
Proof.
  unfold updateUpgradeStateWithResults.
  apply (frame_modify (stored state results)).
  - intros a k Hk. apply stored_other, Hk.
  - walk.
Qed.

Lemma frame_updateUpgradeState state : respects frame (updateUpgradeState state).
Proof. unfold updateUpgradeState. exact (frame_updateUpgradeStateWithResults _ _). Qed.

Lemma frame_cleanupUpgradeAnnotations state :
  respects frame (cleanupUpgradeAnnotations state).
Proof.
  unfold cleanupUpgradeAnnotations. cbv zeta.
  apply (frame_modify
           (fun a => delete AnnotationCancelUpgrade
                       (delete AnnotationProceedUpgrade
                          (delete AnnotationTriggerUpgrade
                             (<[AnnotationUpgradeState := state]> a))))).
  - intros a k Hk. apply (cleaned_unmanaged state a k Hk).
  - walk.
Qed.

Ltac writers :=
  lazymatch goal with
  | |- respects frame (updateUpgradeStateWithResults _ _) =>
      exact (frame_updateUpgradeStateWithResults _ _)
  | |- respects frame (updateUpgradeState _) => exact (frame_updateUpgradeState _)
  | |- respects frame (cleanupUpgradeAnnotations _) =>
      exact (frame_cleanupUpgradeAnnotations _)
  end.

Ltac walk_handler := walk; repeat (writers; walk).

Lemma frame_handleIdleState annotations : respects frame (handleIdleState annotations).
Proof. unfold handleIdleState. walk_handler. Qed.

Lemma frame_handlePrecheckStartState annotations :
  respects frame (handlePrecheckStartState annotations).
Proof. unfold handlePrecheckStartState. walk_handler. Qed.

Lemma frame_handlePrecheckDoneState annotations :
  respects frame (handlePrecheckDoneState annotations).
Proof. unfold handlePrecheckDoneState. walk_handler. Qed.

Lemma frame_handleWaitingUserState annotations :
  respects frame (handleWaitingUserState annotations).
Proof. unfold handleWaitingUserState. walk_handler. Qed.

Lemma frame_handleInProgressState annotations :
  respects frame (handleInProgressState annotations).
Proof. unfold handleInProgressState. walk_handler. Qed.

Lemma frame_handleCancellation annotations :
  respects frame (handleCancellation annotations).
Proof. unfold handleCancellation. walk_handler. Qed.


Lemma frame_dispatch state annotations : respects frame (dispatch state annotations).
Proof.
  unfold dispatch. walk;
    lazymatch goal with
    | |- respects frame (handleIdleState _) => apply frame_handleIdleState
    | |- respects frame (handlePrecheckStartState _) =>
        apply frame_handlePrecheckStartState
    | |- respects frame (handlePrecheckDoneState _) =>
        apply frame_handlePrecheckDoneState
    | |- respects frame (handleWaitingUserState _) =>
        apply frame_handleWaitingUserState
    | |- respects frame (handleInProgressState _) =>
        apply frame_handleInProgressState
    | |- _ => writers
    end.
Qed.

Lemma keeps_SetAnnotations w0 a :
  (forall k, ~ In k managed_keys -> a !! k = Annotations (obj w0) !! k) ->
  keeps (frame w0) (SetAnnotations a).
Proof.
  intros Ha w (S & E & F & A).
  split; [exact S |]. split; [exact E |]. split; [exact F |].
  intros H0. destruct (A H0) as [(O1 & O2 & O3) Hp].
  split; [| exact Hp].
  split; [exact O1 |]. split; [exact O2 |]. exact Ha.
Qed.

Ltac walk_keeps :=
  repeat lazymatch goal with
    | |- keeps _ (bind _ _) => apply keeps_bind; [| intros ?; cbv beta zeta]
    | |- keeps _ (if ?b then _ else _) => destruct b
    | |- keeps _ (match ?x with _ => _ end) => destruct x
    | |- keeps _ (ret _) => apply keeps_ret
    | |- keeps (frame _) (SetAnnotations _) => apply keeps_SetAnnotations
    | |- keeps (frame _) (handleCancellation _) =>
        apply frame_keeps, frame_handleCancellation
    | |- keeps (frame _) (dispatch _ _) => apply frame_keeps, frame_dispatch
    | |- keeps (frame _) _ => apply frame_keeps; walk
    end.

Lemma frame_HandleUpgradeWorkflow : respects frame HandleUpgradeWorkflow.
Proof.
  intros w. unfold HandleUpgradeWorkflow.
  match goal with |- frame w (snd (bind GetAnnotations ?k w)) =>
    change (frame w (snd (k (Annotations (obj w)) w)))
  end.
  cbv beta zeta.
  match goal with |- frame w (snd (?rest w)) =>
    cut (keeps (frame w) rest); [intros K; apply K, frame_refl |]
  end.
  walk_keeps.
  all: intros k Hk; apply lookup_insert_ne; intros <-; apply Hk; cbn; auto.
Qed.

Lemma invocation_frame w :
  let w' := snd (invocation w) in
  statefulsets w' = statefulsets w /\
  (exists new, events w' = events w ++ new) /\
  (exists used, faults w = used ++ faults w') /\
  alike (persisted w) (persisted w').
Proof.
  cbn zeta. rewrite invocation_unfold.
  destruct (frame_HandleUpgradeWorkflow (with_obj (persisted w) w))
    as (S & E & F & A).
  split; [exact S |]. split; [exact E |]. split; [exact F |].
  apply A. apply alike_refl.
Qed.

(** *** Where the errors come from *)

Lemma consumes_refl w : consumes w w.
Proof. exists []. reflexivity. Qed.

Lemma consumes_trans a b c : consumes a b -> consumes b c -> consumes a c.
Proof.
  intros (l1 & E1) (l2 & E2). exists (l1 ++ l2).
  rewrite E1, E2, app_assoc. reflexivity.
Qed.

Lemma frame_consumes {A} (m : M A) : respects frame m -> respects consumes m.
Proof. intros H w. destruct (H w) as (_ & _ & F & _). exact F. Qed.

Lemma consumes_SetAnnotations a : respects consumes (SetAnnotations a).
Proof. intros w. exists []. reflexivity. Qed.

Lemma consumes_bind {A B} (m : M A) (k : A -> M B) :
  respects consumes m -> (forall a, respects consumes (k a)) ->
  respects consumes (bind m k).
Proof. apply respects_bind, consumes_trans. Qed.

Lemma consumes_In w w' (x : option error) :
  consumes w w' -> In x (faults w') -> In x (faults w).
Proof. intros (used & ->) H. apply in_or_app. right. exact H. Qed.

Lemma hd_In (l : list (option error)) e : hd None l = Some e -> In (Some e) l.
Proof. destruct l; cbn; [discriminate | intros ->; left; reflexivity]. Qed.

Lemma tl_In (l : list (option error)) x : In x (tl l) -> In x l.
Proof. destruct l; cbn; [tauto | right; assumption]. Qed.

Lemma reports_ret {A} (err : A -> option error) (a : A) :
  err a = None -> reports err (ret a).
Proof. intros H w e. cbn. rewrite H. discriminate. Qed.

Lemma reports_bind {A B} (err : B -> option error) (m : M A) (k : A -> M B) :
  respects consumes m -> (forall a, reports err (k a)) -> reports err (bind m k).
Proof.
  intros Hm Hk w e. unfold bind.
  specialize (Hm w). destruct (m w) as [a w1]. cbn in Hm.
  intros H. eapply consumes_In; [exact Hm | apply (Hk a w1 e H)].
Qed.

Lemma reports_Update : reports (fun e => e) Update.
Proof.
  intros w e. unfold Update, bind, next_fault. cbn.
  destruct (hd None (faults w)) eqn:E; cbn; [| discriminate].
  intros [= ->]. apply hd_In, E.
Qed.

Lemma reports_StatusUpdate : reports (fun e => e) StatusUpdate.
Proof.
  intros w e. unfold StatusUpdate, bind, next_fault. cbn.
  destruct (hd None (faults w)) eqn:E; cbn; [| discriminate].
  intros [= ->]. apply hd_In, E.
Qed.

Lemma blames_ok r : blames (ret (r, None)).
Proof. intros w e. cbn. discriminate. Qed.

Lemma blames_bind {A} (m : M A) (k : A -> M (Result * option error)) :
  respects consumes m -> (forall a, blames (k a)) -> blames (bind m k).
Proof.
  intros Hm Hk w e. unfold bind.
  specialize (Hm w). destruct (m w) as [a w1]. cbn in Hm.
  intros H. destruct (Hk a w1 e H) as [H1 H2].
  split; [exact H1 | eapply consumes_In; eassumption].
Qed.

(** A step whose error ends the handler. *)
Lemma blames_try {A} (err : A -> option error) (m : M A)
    (k : A -> M (Result * option error)) :
  respects consumes m -> reports err m -> (forall a, blames (k a)) ->
  blames (x <- m ;;
          match err x with
          | Some e => ret (NoRequeue, Some e)
          | None => k x
          end).
Proof.
  intros Hc Hm Hk w e. unfold bind.
  specialize (Hc w). specialize (Hm w).
  destruct (m w) as [a w1]. cbn in Hc, Hm.
  destruct (err a) as [e0|] eqn:E.
  - cbn. intros [= <-]. split; [reflexivity | apply Hm; reflexivity].
  - intros H. destruct (Hk a w1 e H) as [H1 H2].
    split; [exact H1 | eapply consumes_In; eassumption].
Qed.

Lemma blames_updateUpgradeStateWithResults state results :
  blames (updateUpgradeStateWithResults state results).
Proof.
  intros w e H.
  destruct (hd None (faults w)) as [e1|] eqn:E1.
  - destruct (update_first_fails state results w e1 E1) as (w' & Eq & _).
    rewrite Eq in H |- *. cbn in H |- *. injection H as ->.
    split; [reflexivity | apply hd_In, E1].
  - destruct (hd None (tl (faults w))) as [e2|] eqn:E2.
    + destruct (update_second_fails state results w e2 E1 E2) as (w' & Eq & _).
      rewrite Eq in H |- *. cbn in H |- *. injection H as ->.
      split; [reflexivity | apply tl_In, hd_In, E2].
    + destruct (update_succeeds state results w) as (w' & Eq & _).
      { cbn. auto. }
      rewrite Eq in H. discriminate.
Qed.

Lemma blames_cleanupUpgradeAnnotations state :
  blames (cleanupUpgradeAnnotations state).
Proof.
  intros w e H.
  destruct (hd None (faults w)) as [e1|] eqn:E1.
  - destruct (cleanup_first_fails state w e1 E1) as (w' & Eq & _).
    rewrite Eq in H |- *. cbn in H |- *. injection H as ->.
    split; [reflexivity | apply hd_In, E1].
  - destruct (hd None (tl (faults w))) as [e2|] eqn:E2.
    + destruct (cleanup_second_fails state w e2 E1 E2) as (w' & Eq & _).
      rewrite Eq in H |- *. cbn in H |- *. injection H as ->.
      split; [reflexivity | apply tl_In, hd_In, E2].
    + destruct (cleanup_succeeds state w) as (w' & Eq & _).
      { cbn. auto. }
      rewrite Eq in H. discriminate.
Qed.

Ltac walk_blames :=
  repeat lazymatch goal with
    | |- blames (bind _ _) =>
        apply blames_bind; [apply frame_consumes; walk | intros ?; cbv beta zeta]
    | |- blames (if ?b then _ else _) => destruct b
    | |- blames (match ?x with _ => _ end) => destruct x
    | |- blames (ret (_, None)) => exact (blames_ok _)
    | |- blames (updateUpgradeStateWithResults _ _) =>
        exact (blames_updateUpgradeStateWithResults _ _)
    | |- blames (updateUpgradeState _) =>
        unfold updateUpgradeState; exact (blames_updateUpgradeStateWithResults _ _)
    | |- blames (cleanupUpgradeAnnotations _) =>
        exact (blames_cleanupUpgradeAnnotations _)
    end.

Lemma blames_handleIdleState annotations : blames (handleIdleState annotations).
Proof. unfold handleIdleState. walk_blames. Qed.

Lemma blames_handlePrecheckStartState annotations :
  blames (handlePrecheckStartState annotations).
Proof. unfold handlePrecheckStartState. walk_blames. Qed.

Lemma blames_handlePrecheckDoneState annotations :
  blames (handlePrecheckDoneState annotations).
Proof. unfold handlePrecheckDoneState. walk_blames. Qed.

Lemma blames_handleWaitingUserState annotations :
  blames (handleWaitingUserState annotations).
Proof. unfold handleWaitingUserState. walk_blames. Qed.

Lemma blames_handleInProgressState annotations :
  blames (handleInProgressState annotations).
Proof. unfold handleInProgressState. walk_blames. Qed.

Lemma blames_handleCancellation annotations :
  blames (handleCancellation annotations).
Proof. unfold handleCancellation. walk_blames. Qed.

Lemma blames_dispatch state annotations : blames (dispatch state annotations).
Proof.
  unfold dispatch. walk_blames;
    lazymatch goal with
    | |- blames (handleIdleState _) => apply blames_handleIdleState
    | |- blames (handlePrecheckStartState _) => apply blames_handlePrecheckStartState
    | |- blames (handlePrecheckDoneState _) => apply blames_handlePrecheckDoneState
    | |- blames (handleWaitingUserState _) => apply blames_handleWaitingUserState
    | |- blames (handleInProgressState _) => apply blames_handleInProgressState
    end.
Qed.

Lemma reports_record_image :
  reports (fun e => e) updateStatusAfterDeployment.
Proof.
  unfold updateStatusAfterDeployment.
  apply reports_bind; [apply frame_consumes, frame_record_image |].
  intros _. apply reports_StatusUpdate.
Qed.

Lemma blames_HandleUpgradeWorkflow : blames HandleUpgradeWorkflow.
Proof.
  unfold HandleUpgradeWorkflow.
  apply blames_bind; [apply frame_consumes, frame_GetAnnotations |].
  intros annotations. cbv beta zeta.
  apply blames_bind; [apply frame_consumes; walk |].
  intros [|].
  - apply (blames_try (fun e => e) updateStatusAfterDeployment
             (fun _ => ret (NoRequeue, None))).
    + apply frame_consumes, frame_updateStatusAfterDeployment.
    + apply reports_record_image.
    + intros _. apply blames_ok.
  - apply blames_bind; [apply frame_consumes; walk |].
    intros deployed. cbv beta.
    apply (blames_try snd).
    + destruct deployed; [| apply frame_consumes, frame_ret].
      apply consumes_bind; [apply frame_consumes, frame_cluster |].
      intros c. destruct (detectImageChanges c); [| apply frame_consumes, frame_ret].
      apply consumes_bind; [apply consumes_SetAnnotations |].
      intros _. apply frame_consumes. walk.
    + destruct deployed; [| apply reports_ret; reflexivity].
      apply reports_bind; [apply frame_consumes, frame_cluster |].
      intros c. destruct (detectImageChanges c); [| apply reports_ret; reflexivity].
      apply reports_bind; [apply consumes_SetAnnotations |].
      intros _. intros w e. unfold bind.
      pose proof (reports_Update w e) as H.
      destruct (Update w) as [err w1]. exact H.
    + intros triggered. walk_blames;
        first [apply blames_handleCancellation | apply blames_dispatch].
Qed.

(** *** When a handler asks to be called again *)

Lemma quiet_bind {A} (m : M A) (k : A -> M (Result * option error)) :
  (forall a, quiet (k a)) -> quiet (bind m k).
Proof. intros Hk w. unfold bind. destruct (m w) as [a w1]. apply Hk. Qed.

Lemma quiet_ret e : quiet (ret (NoRequeue, e)).
Proof. intros w. reflexivity. Qed.

Ltac walk_quiet :=
  repeat lazymatch goal with
    | |- quiet (bind _ _) => apply quiet_bind; intros ?; cbv beta zeta
    | |- quiet (if ?b then _ else _) => destruct b
    | |- quiet (match ?x with _ => _ end) => destruct x
    | |- quiet (ret (NoRequeue, _)) => exact (quiet_ret _)
    end.

Lemma quiet_updateUpgradeStateWithResults state results :
  quiet (updateUpgradeStateWithResults state results).
Proof. unfold updateUpgradeStateWithResults. walk_quiet. Qed.

Lemma quiet_updateUpgradeState state : quiet (updateUpgradeState state).
Proof.
  unfold updateUpgradeState. exact (quiet_updateUpgradeStateWithResults _ _).
Qed.

Lemma quiet_cleanupUpgradeAnnotations state : quiet (cleanupUpgradeAnnotations state).
Proof. unfold cleanupUpgradeAnnotations. walk_quiet. Qed.

Ltac walk_quiet_handler :=
  walk_quiet;
  lazymatch goal with
  | |- quiet (updateUpgradeStateWithResults _ _) =>
      exact (quiet_updateUpgradeStateWithResults _ _)
  | |- quiet (updateUpgradeState _) => exact (quiet_updateUpgradeState _)
  | |- quiet (cleanupUpgradeAnnotations _) => exact (quiet_cleanupUpgradeAnnotations _)
  end.

Lemma quiet_handleIdleState annotations : quiet (handleIdleState annotations).
Proof. unfold handleIdleState. walk_quiet_handler. Qed.

Lemma quiet_handlePrecheckDoneState annotations :
  quiet (handlePrecheckDoneState annotations).
Proof. unfold handlePrecheckDoneState. walk_quiet_handler. Qed.

Lemma quiet_handleCancellation annotations : quiet (handleCancellation annotations).
Proof. unfold handleCancellation. walk_quiet_handler. Qed.

Lemma quiet_handlePrecheckStartState annotations :
  quiet (handlePrecheckStartState annotations).
Proof.
  intros w. unfold handlePrecheckStartState. unfold bind at 1.
  rewrite CheckPrecheckStatus_spec. cbv beta iota. cbn [negb].
  match goal with |- fst (fst (?m ?w1)) = _ =>
    cut (quiet m); [intros Q; apply Q |]
  end.
  walk_quiet_handler.
Qed.

Lemma handleWaitingUserState_result annotations w :
  fst (fst (handleWaitingUserState annotations w)) =
  if get annotations AnnotationProceedUpgrade =? "true"
  then NoRequeue else After (5 * Minute).
Proof.
  unfold handleWaitingUserState.
  destruct (get annotations AnnotationProceedUpgrade =? "true"); [| reflexivity].
  match goal with |- fst (fst (?m w)) = _ =>
    cut (quiet m); [intros Q; apply Q |]
  end.
  walk_quiet_handler.
Qed.

Lemma CheckUpgradeStatus_spec w :
  CheckUpgradeStatus w =
  if all_converged w
  then ((true, None),
        with_events
          (events w ++ health_checked ++
           [{| ev_Type := EventTypeNormal; ev_Reason := "RollingUpgradeCompleted";
               ev_Message := "Rolling upgrade completed successfully" |}]) w)
  else ((false, None), w).
Proof.
  unfold CheckUpgradeStatus, checkUpgradeProgress. unfold bind at 1.
  rewrite checkUpgradeProgress_with_spec.
  destruct (all_converged w); [| reflexivity].
  rewrite performClusterHealthCheck_spec.
  destruct w. cbn. unfold RecordEvent, bind, ret. cbn.
  rewrite <- app_assoc. reflexivity.
Qed.

Lemma handleInProgressState_result annotations w :
  fst (fst (handleInProgressState annotations w)) =
  if all_converged w then NoRequeue else After (2 * Minute).
Proof.
  unfold handleInProgressState. unfold bind at 1.
  rewrite CheckUpgradeStatus_spec.
  destruct (all_converged w); [| reflexivity].
  cbv beta iota. cbn [snd fst negb].
  match goal with |- fst (fst (?m ?w1)) = _ =>
    cut (quiet m); [intros Q; apply Q |]
  end.
  walk_quiet_handler.
Qed.

Lemma workflow_idle_result w :
  idle (obj w) -> fst (fst (HandleUpgradeWorkflow w)) = NoRequeue.
Proof.
  intros Hi. unfold HandleUpgradeWorkflow.
  match goal with |- fst (fst (bind GetAnnotations ?k w)) = _ =>
    change (fst (fst (k (Annotations (obj w)) w)) = NoRequeue)
  end.
  cbv beta zeta.
  assert (Hs : (if get (Annotations (obj w)) AnnotationUpgradeState =? EmptyString
                then UpgradeStateIdle
                else get (Annotations (obj w)) AnnotationUpgradeState)
               = UpgradeStateIdle).
  { destruct Hi as [Hi | Hi]; unfold state_of in Hi; rewrite Hi; reflexivity. }
  rewrite Hs.
  match goal with |- fst (fst (?m w)) = _ =>
    cut (quiet m); [intros Q; apply Q |]
  end.
  walk_quiet;
    lazymatch goal with
    | |- quiet (handleCancellation _) => exact (quiet_handleCancellation _)
    | |- quiet (dispatch _ _) =>
        unfold dispatch;
        change (UpgradeStateIdle =? UpgradeStateIdle) with true;
        cbv iota; exact (quiet_handleIdleState _)
    end.
Qed.

Lemma dispatch_result state annotations w :
  state <> UpgradeStateIdle ->
  fst (fst (dispatch state annotations w)) =
  if state =? UpgradeStateWaitingUser then
    if get annotations AnnotationProceedUpgrade =? "true"
    then NoRequeue else After (5 * Minute)
  else if state =? UpgradeStateInProgress then
    if all_converged w then NoRequeue else After (2 * Minute)
  else NoRequeue.
Proof.
  intros Hi. apply String.eqb_neq in Hi. unfold dispatch. rewrite Hi.
  destruct (String.eqb_spec state UpgradeStatePrecheckStart) as [-> | _].
  { apply quiet_handlePrecheckStartState. }
  destruct (String.eqb_spec state UpgradeStatePrecheckDone) as [-> | _].
  { apply quiet_handlePrecheckDoneState. }
  destruct (String.eqb_spec state UpgradeStateWaitingUser) as [-> | _].
  { apply handleWaitingUserState_result. }
  destruct (String.eqb_spec state UpgradeStateInProgress) as [-> | _].
  { apply handleInProgressState_result. }
  destruct (is_final state).
  - apply quiet_cleanupUpgradeAnnotations.
  - apply quiet_updateUpgradeState.
Qed.

Lemma invocation_result w :
  fst (fst (invocation w)) =
  if signal AnnotationCancelUpgrade (persisted w) then NoRequeue
  else if state_of (persisted w) =? UpgradeStateWaitingUser then
    if signal AnnotationProceedUpgrade (persisted w)
    then NoRequeue else After (5 * Minute)
  else if state_of (persisted w) =? UpgradeStateInProgress then
    if all_converged (with_obj (persisted w) w) then NoRequeue else After (2 * Minute)
  else NoRequeue.
Proof.
  rewrite invocation_unfold.
  destruct (String.eqb_spec (state_of (persisted w)) EmptyString) as [E | N1].
  { rewrite workflow_idle_result by (left; exact E).
    rewrite E. destruct (signal _ _); reflexivity. }
  destruct (String.eqb_spec (state_of (persisted w)) UpgradeStateIdle) as [E | N2].
  { rewrite workflow_idle_result by (right; exact E).
    rewrite E. destruct (signal _ _); reflexivity. }
  rewrite workflow_not_idle by assumption.
  cbn [obj with_obj].
  destruct (signal AnnotationCancelUpgrade (persisted w)).
  - apply quiet_handleCancellation.
  - rewrite dispatch_result by exact N2. reflexivity.
Qed.

(** X3.  The invocations of the orchestrator ask to be called again in two
    cases only: after five minutes while the cluster waits for approval with
    neither the proceed nor the cancel signal set, and after two minutes while
    the rollout is in progress, the cancel signal is not set and some group
    has not converged.  Every other invocation asks for no requeue. *)
Theorem requeue_only_while_waiting (w : World) :
  let r := fst (fst (invocation w)) in
  let c := persisted w in
  (r = After (5 * Minute) <->
   state_of c = UpgradeStateWaitingUser /\
   signal AnnotationCancelUpgrade c = false /\
   signal AnnotationProceedUpgrade c = false) /\
  (r = After (2 * Minute) <->
   state_of c = UpgradeStateInProgress /\
   signal AnnotationCancelUpgrade c = false /\
   all_converged (with_obj c w) = false) /\
  (r = NoRequeue \/ r = After (2 * Minute) \/ r = After (5 * Minute)).
Proof.
  cbn zeta. rewrite invocation_result.
  assert (D1 : NoRequeue <> After (2 * Minute))
    by (intros H; apply (f_equal RequeueAfter) in H; discriminate H).
  assert (D2 : NoRequeue <> After (5 * Minute))
    by (intros H; apply (f_equal RequeueAfter) in H; discriminate H).
  assert (D3 : After (2 * Minute) <> After (5 * Minute))
    by (intros H; apply (f_equal RequeueAfter) in H; discriminate H).
  destruct (signal AnnotationCancelUpgrade (persisted w)).
  { intuition congruence. }
  destruct (String.eqb_spec (state_of (persisted w)) UpgradeStateWaitingUser) as [E | N].
  { rewrite E. unfold UpgradeStateWaitingUser, UpgradeStateInProgress.
    destruct (signal AnnotationProceedUpgrade (persisted w));
      intuition congruence. }
  destruct (String.eqb_spec (state_of (persisted w)) UpgradeStateInProgress) as [E | N'].
  { destruct (all_converged (with_obj (persisted w) w)); intuition congruence. }
  intuition congruence.
Qed.

(** X4.  An invocation returns an error only when a write to the API server
    failed: the error is the outcome of one of the coming writes, and it comes
    with a result that asks for no requeue.  When every write succeeds, no
    invocation fails, whatever the state and the annotations. *)
Theorem errors_come_from_writes (w : World) :
  (forall e, snd (fst (invocation w)) = Some e ->
     fst (fst (invocation w)) = NoRequeue /\ In (Some e) (faults w)) /\
  (Forall (fun outcome => outcome = None) (faults w) ->
   snd (fst (invocation w)) = None).
Proof.
  assert (H : forall e, snd (fst (invocation w)) = Some e ->
     fst (fst (invocation w)) = NoRequeue /\ In (Some e) (faults w)).
  { intros e. rewrite invocation_unfold.
    apply (blames_HandleUpgradeWorkflow (with_obj (persisted w) w)). }
  split; [exact H |].
  intros Hall. destruct (snd (fst (invocation w))) as [e|] eqn:E; [| reflexivity].
  destruct (H e eq_refl) as [_ Hin].
  rewrite List.Forall_forall in Hall. discriminate (Hall _ Hin).
Qed.

(** X5.  The orchestrator changes nothing of the stored object but what it
    manages: the name, the namespace, the creation time and the specification
    (image and groups) are the same after every invocation, and so are the
    conditions other than UpgradeInProgress.  It changes no StatefulSet, and
    it only adds to the events. *)
Theorem workflow_leaves_specification_alone (w : World) :
  let c := persisted w in
  let c' := persisted (snd (invocation w)) in
  Name c' = Name c /\ Namespace c' = Namespace c /\
  CreationTimestamp c' = CreationTimestamp c /\
  Image c' = Image c /\ MarkLogicGroups c' = MarkLogicGroups c /\
  other_conditions c' = other_conditions c /\
  statefulsets (snd (invocation w)) = statefulsets w /\
  exists new, events (snd (invocation w)) = events w ++ new.
Proof.
  cbn zeta. destruct (invocation_frame w) as (S & E & _ & (Sp & O & _)).
  unfold spec_of in Sp. injection Sp as -> -> -> -> ->.
  repeat split; auto.
Qed.

(** X6.  An annotation that is not one of the five the workflow manages is the
    same in the stored object after an invocation as before it, in every state
    and whatever the writes do. *)
Theorem workflow_keeps_other_annotations (w : World) (k : string) :
  ~ In k managed_keys ->
  Annotations (persisted (snd (invocation w))) !! k
  = Annotations (persisted w) !! k.
Proof.
  intros Hk. destruct (invocation_frame w) as (_ & _ & _ & (_ & _ & A)).
  apply A, Hk.
Qed.

Lemma workflow_keeps_other_annotations_witness :
  let w := example_world
             (example_cluster
                [(AnnotationUpgradeState, UpgradeStateWaitingUser);
                 (AnnotationProceedUpgrade, "true");
                 ("team", "search")]) 1 [] in
  ~ In "team" managed_keys /\
  Annotations (persisted (snd (invocation w))) !! "team" = Some "search".
Proof.
  cbn zeta.
  assert (H : ~ In "team" managed_keys).
  { cbn. intros [E | [E | [E | [E | [E | []]]]]]; discriminate. }
  split; [exact H |].
  rewrite (workflow_keeps_other_annotations _ _ H).
  vm_compute. reflexivity.
Defined.

(** ** The workflow, step by step *)

Lemma invocation_not_idle w :
  state_of (persisted w) <> EmptyString -> state_of (persisted w) <> UpgradeStateIdle ->
  invocation w =
  (if signal AnnotationCancelUpgrade (persisted w)
   then handleCancellation (Annotations (persisted w))
   else dispatch (state_of (persisted w)) (Annotations (persisted w)))
    (with_obj (persisted w) w).
Proof.
  intros H1 H2. rewrite invocation_unfold, workflow_not_idle by assumption.
  reflexivity.
Qed.

Lemma update_outcome state results w :
  writes_succeed 2 (faults w) ->
  let r := updateUpgradeStateWithResults state results w in
  fst r = (NoRequeue, None) /\
  Annotations (persisted (snd r)) = stored state results (Annotations (obj w)) /\
  Status (persisted (snd r)) = Status (persisted w) /\
  events (snd r) = events w /\
  faults (snd r) = tl (tl (faults w)).
Proof.
  intros Hw. cbn zeta.
  destruct (update_succeeds state results w Hw)
    as (w' & E & Ha & Hs & _ & _ & He & _ & Hf).
  rewrite E. cbn [fst snd]. auto 10.
Qed.

Lemma cleanup_outcome state w :
  writes_succeed 2 (faults w) ->
  let r := cleanupUpgradeAnnotations state w in
  fst r = (NoRequeue, None) /\
  Annotations (persisted (snd r)) = cleaned state (Annotations (obj w)) /\
  Status (persisted (snd r)) = Status (persisted w) /\
  events (snd r) = events w /\
  faults (snd r) = tl (tl (faults w)).
Proof.
  intros Hw. cbn zeta.
  destruct (cleanup_succeeds state w Hw)
    as (w' & E & Ha & Hs & _ & _ & He & _ & Hf).
  rewrite E. cbn [fst snd]. auto 10.
Qed.

(** The event of the precheck handler's report. *)
Lemma string_of_8 : string_of_Z 8 = "8".
Proof. vm_compute. reflexivity. Qed.

Lemma handlePrecheckStartState_unfold annotations w :
  handlePrecheckStartState annotations w =
  updateUpgradeStateWithResults UpgradeStatePrecheckDone
    (Some (fst (generateMockPrecheckResults
                  (signal AnnotationSkipForestCheck (obj w)) w)))
    (with_events
       (events w ++
[precheck_completed])
       (with_clock (hd (clock w) (ticks w)) (tl (ticks w)) w)).
Proof.
  unfold handlePrecheckStartState. unfold bind at 1.
  rewrite CheckPrecheckStatus_spec. cbv beta iota. cbn [negb].
  unfold bind at 1. unfold RecordEvent at 1. cbv beta iota.
  unfold len_Results.
  replace (Z.of_nat (length (Results (fst (generateMockPrecheckResults
             (signal AnnotationSkipForestCheck (obj w)) w))))) with 8%Z.
  - rewrite string_of_8. destruct w. reflexivity.
  - unfold generateMockPrecheckResults, bind, ret, Now, cluster.
    cbn [fst snd Results]. rewrite mock_results_length. reflexivity.
Qed.

Lemma precheck_start_outcome annotations w :
  writes_succeed 2 (faults w) ->
  let report := fst (generateMockPrecheckResults
                       (signal AnnotationSkipForestCheck (obj w)) w) in
  let r := handlePrecheckStartState annotations w in
  fst r = (NoRequeue, None) /\
  Annotations (persisted (snd r))
  = stored UpgradeStatePrecheckDone (Some report) (Annotations (obj w)) /\
  Status (persisted (snd r)) = Status (persisted w) /\
  events (snd r) = events w ++ [precheck_completed] /\
  faults (snd r) = tl (tl (faults w)).
Proof.
  intros Hw. cbn zeta. rewrite handlePrecheckStartState_unfold.
  match goal with |- context [updateUpgradeStateWithResults ?s ?rs ?w1] =>
    destruct (update_outcome s rs w1) as (R & A & S & E & F);
      [destruct w; exact Hw |]
  end.
  destruct w. auto 10.
Qed.

Lemma handlePrecheckDoneState_unfold annotations w :
  handlePrecheckDoneState annotations w =
  updateUpgradeStateWithResults UpgradeStateWaitingUser None
    (with_events (events w ++ [awaiting_approval]) w).
Proof. destruct w. reflexivity. Qed.

Lemma handleWaitingUserState_unfold annotations w :
  get annotations AnnotationProceedUpgrade = "true" ->
  handleWaitingUserState annotations w =
  updateUpgradeStateWithResults UpgradeStateInProgress None
    (with_events (events w ++ approved :: rollout_started) w).
Proof.
  intros Hp. unfold handleWaitingUserState. rewrite Hp.
  cbn [String.eqb Ascii.eqb Bool.eqb].
  unfold bind at 1. unfold RecordEvent at 1. cbv beta iota.
  unfold bind at 1. rewrite StartRollingUpgrade_spec. cbv beta iota.
  unfold updateUpgradeState. destruct w as [o p sts ev fl ck tk]. cbn [events with_events].
  rewrite <- app_assoc. reflexivity.
Qed.

Lemma handleWaitingUserState_waits annotations w :
  get annotations AnnotationProceedUpgrade <> "true" ->
  handleWaitingUserState annotations w = ((After (5 * Minute), None), w).
Proof.
  intros Hp. apply String.eqb_neq in Hp.
  unfold handleWaitingUserState. rewrite Hp. reflexivity.
Qed.

Lemma handleIdleState_unfold annotations w :
  get annotations AnnotationTriggerUpgrade = "true" ->
  handleIdleState annotations w =
  updateUpgradeStateWithResults UpgradeStatePrecheckStart None
    (with_events (events w ++ prechecks_started) w).
Proof.
  intros Ht. unfold handleIdleState. rewrite Ht.
  cbn [String.eqb Ascii.eqb Bool.eqb].
  unfold StartPrechecks, updateUpgradeState.
  destruct w as [o p sts ev fl ck tk]. unfold bind, RecordEvent, ret. cbn [events with_events].
  rewrite <- app_assoc. reflexivity.
Qed.

Lemma handleCancellation_unfold annotations w :
  get annotations AnnotationUpgradeState <> UpgradeStateInProgress ->
  handleCancellation annotations w =
  cleanupUpgradeAnnotations UpgradeStateCancelled
    (with_events (events w ++ [upgrade_cancelled]) w).
Proof.
  intros H. apply String.eqb_neq in H.
  unfold handleCancellation. rewrite H. destruct w. reflexivity.
Qed.

(** The world after [updateCurrentImages]. *)
Lemma updateCurrentImages_spec w :
  updateCurrentImages w =
  let s := with_CurrentImage (Image (obj w)) (Status (obj w)) in
  match hd None (faults w) with
  | Some e => (Some e, with_faults (tl (faults w)) (with_obj (with_Status s (obj w)) w))
  | None =>
      (None, with_obj (with_Status s (persisted w))
               (with_persisted (with_Status s (persisted w))
                  (with_faults (tl (faults w)) w)))
  end.
Proof.
  destruct w as [o p sts ev fl ck tk]. unfold updateCurrentImages. exec.
  destruct (hd None fl); reflexivity.
Qed.

Lemma handleInProgressState_unfold annotations w :
  all_converged w = true ->
  handleInProgressState annotations w =
  (updateCurrentImages ;; cleanupUpgradeAnnotations UpgradeStateCompleted)
    (with_events (events w ++ upgrade_completed) w).
Proof.
  intros H. unfold handleInProgressState. unfold bind at 1.
  rewrite CheckUpgradeStatus_spec, H. cbv beta iota. cbn [snd fst negb].
  unfold bind at 1. unfold RecordEvent at 1. cbv beta iota.
  destruct w as [o p sts ev fl ck tk]. cbn [events with_events]. unfold upgrade_completed.
  rewrite <- !app_assoc. reflexivity.
Qed.

Lemma dispatch_PrecheckStart a : dispatch UpgradeStatePrecheckStart a = handlePrecheckStartState a.
Proof. reflexivity. Qed.

Lemma dispatch_PrecheckDone a : dispatch UpgradeStatePrecheckDone a = handlePrecheckDoneState a.
Proof. reflexivity. Qed.

Lemma dispatch_WaitingUser a : dispatch UpgradeStateWaitingUser a = handleWaitingUserState a.
Proof. reflexivity. Qed.

Lemma dispatch_InProgress a : dispatch UpgradeStateInProgress a = handleInProgressState a.
Proof. reflexivity. Qed.

Lemma calm_writes n w : calm w -> writes_succeed n (faults w).
Proof.
  unfold calm. generalize (faults w). induction n as [|n IH]; intros l H; [exact I |].
  split.
  - destruct H; [reflexivity | assumption].
  - apply IH. destruct H; [constructor | assumption].
Qed.

Lemma calm_invocation w : calm w -> calm (snd (invocation w)).
Proof.
  unfold calm. intros H.
  destruct (invocation_frame w) as (_ & _ & (used & E) & _).
  rewrite E in H. apply List.Forall_app in H. apply H.
Qed.

Lemma all_converged_ext w w' :
  statefulsets w' = statefulsets w ->
  Namespace (obj w') = Namespace (obj w) ->
  MarkLogicGroups (obj w') = MarkLogicGroups (obj w) ->
  all_converged w' = all_converged w.
Proof.
  intros S N G. unfold all_converged, converged. rewrite S, N, G. reflexivity.
Qed.

Lemma signal_ext k c c' :
  Annotations c' !! k = Annotations c !! k -> signal k c' = signal k c.
Proof. intros H. unfold signal, get. rewrite H. reflexivity. Qed.

Lemma stored_signal state results a k :
  In k control_signals -> stored state results a !! k = a !! k.
Proof.
  intros Hk. unfold stored.
  assert (k <> AnnotationUpgradeState /\ k <> AnnotationPrecheckResults) as [N1 N2].
  { cbn in Hk. destruct Hk as [<- | [<- | [<- | []]]]; split; discriminate. }
  destruct results as [r|]; [destruct (ToJSON r) |];
    rewrite ?lookup_insert_ne by congruence; reflexivity.
Qed.

Lemma stored_none state a :
  stored state None a = <[AnnotationUpgradeState := state]> a.
Proof. reflexivity. Qed.

(** *** The steps of the workflow, one invocation each *)

Lemma step_precheck_start w :
  state_of (persisted w) = UpgradeStatePrecheckStart ->
  signal AnnotationCancelUpgrade (persisted w) = false ->
  writes_succeed 2 (faults w) ->
  let report := fst (generateMockPrecheckResults
                       (signal AnnotationSkipForestCheck (persisted w))
                       (with_obj (persisted w) w)) in
  let r := invocation w in
  fst r = (NoRequeue, None) /\
  Annotations (persisted (snd r))
  = stored UpgradeStatePrecheckDone (Some report) (Annotations (persisted w)) /\
  Status (persisted (snd r)) = Status (persisted w) /\
  events (snd r) = events w ++ [precheck_completed] /\
  faults (snd r) = tl (tl (faults w)).
Proof.
  intros Hs Hc Hw. cbn zeta.
  rewrite invocation_not_idle by (rewrite Hs; discriminate).
  rewrite Hc, Hs, dispatch_PrecheckStart.
  apply (precheck_start_outcome _ (with_obj (persisted w) w)).
  destruct w; exact Hw.
Qed.

Lemma step_precheck_done w :
  state_of (persisted w) = UpgradeStatePrecheckDone ->
  signal AnnotationCancelUpgrade (persisted w) = false ->
  writes_succeed 2 (faults w) ->
  let r := invocation w in
  fst r = (NoRequeue, None) /\
  Annotations (persisted (snd r))
  = <[AnnotationUpgradeState := UpgradeStateWaitingUser]> (Annotations (persisted w)) /\
  Status (persisted (snd r)) = Status (persisted w) /\
  events (snd r) = events w ++ [awaiting_approval] /\
  faults (snd r) = tl (tl (faults w)).
Proof.
  intros Hs Hc Hw. cbn zeta.
  rewrite invocation_not_idle by (rewrite Hs; discriminate).
  rewrite Hc, Hs, dispatch_PrecheckDone, handlePrecheckDoneState_unfold.
  match goal with |- context [updateUpgradeStateWithResults ?s ?rs ?w1] =>
    destruct (update_outcome s rs w1) as (R & A & S & E & F);
      [destruct w; exact Hw |]
  end.
  destruct w. auto 10.
Qed.

Lemma step_approved w :
  state_of (persisted w) = UpgradeStateWaitingUser ->
  signal AnnotationCancelUpgrade (persisted w) = false ->
  signal AnnotationProceedUpgrade (persisted w) = true ->
  writes_succeed 2 (faults w) ->
  let r := invocation w in
  fst r = (NoRequeue, None) /\
  Annotations (persisted (snd r))
  = <[AnnotationUpgradeState := UpgradeStateInProgress]> (Annotations (persisted w)) /\
  Status (persisted (snd r)) = Status (persisted w) /\
  events (snd r) = events w ++ approved :: rollout_started /\
  faults (snd r) = tl (tl (faults w)).
Proof.
  intros Hs Hc Hp Hw. cbn zeta.
  rewrite invocation_not_idle by (rewrite Hs; discriminate).
  rewrite Hc, Hs, dispatch_WaitingUser.
  rewrite handleWaitingUserState_unfold by (apply String.eqb_eq, Hp).
  match goal with |- context [updateUpgradeStateWithResults ?s ?rs ?w1] =>
    destruct (update_outcome s rs w1) as (R & A & S & E & F);
      [destruct w; exact Hw |]
  end.
  destruct w. auto 10.
Qed.

Lemma step_waiting w :
  state_of (persisted w) = UpgradeStateWaitingUser ->
  signal AnnotationCancelUpgrade (persisted w) = false ->
  signal AnnotationProceedUpgrade (persisted w) = false ->
  invocation w = ((After (5 * Minute), None), with_obj (persisted w) w).
Proof.
  intros Hs Hc Hp.
  rewrite invocation_not_idle by (rewrite Hs; discriminate).
  rewrite Hc, Hs, dispatch_WaitingUser.
  apply handleWaitingUserState_waits. apply String.eqb_neq, Hp.
Qed.

Lemma completion_unfold w :
  state_of (persisted w) = UpgradeStateInProgress ->
  signal AnnotationCancelUpgrade (persisted w) = false ->
  all_converged (with_obj (persisted w) w) = true ->
  exists w1,
    invocation w = cleanupUpgradeAnnotations UpgradeStateCompleted w1 /\
    Annotations (obj w1) = Annotations (persisted w) /\
    Status (persisted w1) =
      match hd None (faults w) with
      | None => with_CurrentImage (Image (persisted w)) (Status (persisted w))
      | Some _ => Status (persisted w)
      end /\
    clock w1 = clock w /\ events w1 = events w ++ upgrade_completed /\
    faults w1 = tl (faults w).
Proof.
  intros Hs Hc Ha.
  rewrite invocation_not_idle by (rewrite Hs; discriminate).
  rewrite Hc, Hs, dispatch_InProgress.
  rewrite handleInProgressState_unfold by exact Ha.
  unfold bind at 1. rewrite updateCurrentImages_spec. cbv zeta.
  destruct w as [o p sts ev fl ck tk].
  cbn [obj persisted faults with_obj with_events].
  destruct (hd None fl); eexists; (split; [reflexivity |]); cbn; auto.
Qed.

Lemma step_completed w :
  state_of (persisted w) = UpgradeStateInProgress ->
  signal AnnotationCancelUpgrade (persisted w) = false ->
  all_converged (with_obj (persisted w) w) = true ->
  writes_succeed 2 (tl (faults w)) ->
  let r := invocation w in
  fst r = (NoRequeue, None) /\
  Annotations (persisted (snd r))
  = cleaned UpgradeStateCompleted (Annotations (persisted w)) /\
  Status (persisted (snd r)) =
    match hd None (faults w) with
    | None => with_CurrentImage (Image (persisted w)) (Status (persisted w))
    | Some _ => Status (persisted w)
    end /\
  events (snd r) = events w ++ upgrade_completed /\
  faults (snd r) = tl (tl (tl (faults w))).
Proof.
  intros Hs Hc Ha Hw. cbn zeta.
  destruct (completion_unfold w Hs Hc Ha) as (w1 & -> & A1 & C1 & K1 & E1 & F1).
  destruct (cleanup_outcome UpgradeStateCompleted w1)
    as (R & A & S & E & F); [rewrite F1; exact Hw |].
  rewrite A1 in A. rewrite C1 in S. rewrite E1 in E.
  rewrite F1 in F. auto 10.
Qed.

Lemma step_terminal w :
  is_final (state_of (persisted w)) = true ->
  signal AnnotationCancelUpgrade (persisted w) = false ->
  writes_succeed 2 (faults w) ->
  let r := invocation w in
  fst r = (NoRequeue, None) /\
  Annotations (persisted (snd r))
  = cleaned UpgradeStateIdle (Annotations (persisted w)) /\
  Status (persisted (snd r)) = Status (persisted w) /\
  events (snd r) = events w /\
  faults (snd r) = tl (tl (faults w)).
Proof.
  intros Hs Hc Hw. cbn zeta.
  rewrite invocation_not_idle
    by (destruct (is_final_cases _ Hs) as [E | [E | E]]; rewrite E; discriminate).
  rewrite Hc, dispatch_final by exact Hs.
  match goal with |- context [cleanupUpgradeAnnotations ?s ?w1] =>
    destruct (cleanup_outcome s w1) as (R & A & S & E & F);
      [destruct w; exact Hw |]
  end.
  destruct w. auto 10.
Qed.

Lemma step_cancelled w :
  state_of (persisted w) <> EmptyString ->
  state_of (persisted w) <> UpgradeStateIdle ->
  state_of (persisted w) <> UpgradeStateInProgress ->
  signal AnnotationCancelUpgrade (persisted w) = true ->
  writes_succeed 2 (faults w) ->
  let r := invocation w in
  fst r = (NoRequeue, None) /\
  Annotations (persisted (snd r))
  = cleaned UpgradeStateCancelled (Annotations (persisted w)) /\
  Status (persisted (snd r)) = Status (persisted w) /\
  events (snd r) = events w ++ [upgrade_cancelled] /\
  faults (snd r) = tl (tl (faults w)).
Proof.
  intros H1 H2 H3 Hc Hw. cbn zeta.
  rewrite invocation_not_idle by assumption.
  rewrite Hc, handleCancellation_unfold by exact H3.
  match goal with |- context [cleanupUpgradeAnnotations ?s ?w1] =>
    destruct (cleanup_outcome s w1) as (R & A & S & E & F);
      [destruct w; exact Hw |]
  end.
  destruct w. auto 10.
Qed.

Lemma step_triggered w :
  idle (persisted w) ->
  st_CurrentImage (Status (persisted w)) <> EmptyString ->
  st_CurrentImage (Status (persisted w)) <> Image (persisted w) ->
  signal AnnotationCancelUpgrade (persisted w) = false ->
  writes_succeed 3 (faults w) ->
  let r := invocation w in
  fst r = (NoRequeue, None) /\
  Annotations (persisted (snd r))
  = <[AnnotationUpgradeState := UpgradeStatePrecheckStart]>
      (<[AnnotationTriggerUpgrade := "true"]> (Annotations (persisted w))) /\
  Status (persisted (snd r)) = Status (persisted w) /\
  events (snd r) = events w ++ prechecks_started /\
  faults (snd r) = tl (tl (tl (faults w))).
Proof.
  intros Hi Hd Him Hc (Hw1 & Hw2). cbn zeta.
  rewrite invocation_unfold.
  rewrite workflow_idle_deployed by (destruct w; assumption).
  destruct w as [o p sts ev fl ck tk].
  cbn [obj persisted statefulsets events faults clock ticks
       with_obj with_persisted with_events with_faults] in *.
  unfold detectImageChanges.
  apply String.eqb_neq in Hd, Him. rewrite Hd, Him, Hc, Hw1. cbn [negb].
  rewrite handleIdleState_unfold
    by (unfold get; rewrite lookup_insert_eq; reflexivity).
  match goal with |- context [updateUpgradeStateWithResults ?s ?rs ?w1] =>
    destruct (update_outcome s rs w1) as (R & A & S & E & F);
      [exact Hw2 |]
  end.
  auto 10.
Qed.

Lemma step_manual w :
  idle (persisted w) ->
  st_CurrentImage (Status (persisted w)) <> EmptyString ->
  st_CurrentImage (Status (persisted w)) = Image (persisted w) ->
  signal AnnotationCancelUpgrade (persisted w) = false ->
  signal AnnotationTriggerUpgrade (persisted w) = true ->
  writes_succeed 2 (faults w) ->
  let r := invocation w in
  fst r = (NoRequeue, None) /\
  Annotations (persisted (snd r))
  = <[AnnotationUpgradeState := UpgradeStatePrecheckStart]> (Annotations (persisted w)) /\
  Status (persisted (snd r)) = Status (persisted w) /\
  events (snd r) = events w ++ prechecks_started /\
  faults (snd r) = tl (tl (faults w)).
Proof.
  intros Hi Hd Him Hc Ht Hw. cbn zeta.
  rewrite invocation_unfold.
  rewrite workflow_idle_deployed by (destruct w; assumption).
  destruct w as [o p sts ev fl ck tk].
  cbn [obj persisted statefulsets events faults clock ticks
       with_obj with_persisted with_events with_faults] in *.
  unfold detectImageChanges.
  apply String.eqb_neq in Hd. apply String.eqb_eq in Him.
  rewrite Hd, Him, Hc, Ht. cbn [negb].
  rewrite handleIdleState_unfold by (apply String.eqb_eq, Ht).
  match goal with |- context [updateUpgradeStateWithResults ?s ?rs ?w1] =>
    destruct (update_outcome s rs w1) as (R & A & S & E & F);
      [exact Hw |]
  end.
  auto 10.
Qed.

Lemma step_idle w :
  idle (persisted w) ->
  st_CurrentImage (Status (persisted w)) <> EmptyString ->
  st_CurrentImage (Status (persisted w)) = Image (persisted w) ->
  signal AnnotationTriggerUpgrade (persisted w) = false ->
  invocation w = ((NoRequeue, None), with_obj (persisted w) w).
Proof.
  intros Hi Hd Him Ht.
  rewrite invocation_unfold.
  rewrite workflow_idle_deployed by (destruct w; assumption).
  destruct w as [o p sts ev fl ck tk].
  cbn [obj persisted statefulsets events faults clock ticks
       with_obj with_persisted with_events with_faults] in *.
  unfold detectImageChanges.
  apply String.eqb_neq in Hd. rewrite Hd, Him, String.eqb_refl, Ht. reflexivity.
Qed.

Lemma kept w :
  calm w ->
  calm (snd (invocation w)) /\
  statefulsets (snd (invocation w)) = statefulsets w /\
  spec_of (persisted (snd (invocation w))) = spec_of (persisted w).
Proof.
  intros H. split; [apply calm_invocation, H |].
  destruct (invocation_frame w) as (S & _ & _ & (Sp & _)). auto.
Qed.

Lemma get_insert_eq a k v : get (<[k := v]> a) k = v.
Proof. unfold get. rewrite lookup_insert_eq. reflexivity. Qed.

Lemma get_insert_ne a k k' v : k <> k' -> get (<[k := v]> a) k' = get a k'.
Proof. intros H. unfold get. rewrite lookup_insert_ne by exact H. reflexivity. Qed.

Lemma get_stored_state state results a :
  get (stored state results a) AnnotationUpgradeState = state.
Proof. unfold get. rewrite stored_state. reflexivity. Qed.

Lemma get_stored_signal state results a k :
  In k control_signals -> get (stored state results a) k = get a k.
Proof. intros H. unfold get. rewrite stored_signal by exact H. reflexivity. Qed.

Lemma get_cleaned_state state a : get (cleaned state a) AnnotationUpgradeState = state.
Proof. unfold get. rewrite cleaned_state. reflexivity. Qed.

Lemma get_cleaned_signal state a k :
  In k control_signals -> get (cleaned state a) k = EmptyString.
Proof. intros H. unfold get. rewrite cleaned_signals by exact H. reflexivity. Qed.

Lemma in_cancel : In AnnotationCancelUpgrade control_signals.
Proof. cbn. auto. Qed.

Lemma in_proceed : In AnnotationProceedUpgrade control_signals.
Proof. cbn. auto. Qed.

Lemma in_trigger : In AnnotationTriggerUpgrade control_signals.
Proof. cbn. auto. Qed.

(** From the image change to the request for approval: three invocations. *)
Lemma run_to_approval w :
  idle (persisted w) ->
  signal AnnotationCancelUpgrade (persisted w) = false ->
  st_CurrentImage (Status (persisted w)) <> EmptyString ->
  st_CurrentImage (Status (persisted w)) <> Image (persisted w) ->
  calm w ->
  let w3 := invocations 3 w in
  state_of (persisted w3) = UpgradeStateWaitingUser /\
  get (Annotations (persisted w3)) AnnotationCancelUpgrade
  = get (Annotations (persisted w)) AnnotationCancelUpgrade /\
  get (Annotations (persisted w3)) AnnotationProceedUpgrade
  = get (Annotations (persisted w)) AnnotationProceedUpgrade /\
  get (Annotations (persisted w3)) AnnotationTriggerUpgrade = "true" /\
  Status (persisted w3) = Status (persisted w) /\
  events w3 = events w ++ prechecks_started ++ [precheck_completed; awaiting_approval] /\
  calm w3 /\ statefulsets w3 = statefulsets w /\
  spec_of (persisted w3) = spec_of (persisted w).
Proof.
  intros Hi Hc Hd Hne Hcalm. cbn zeta. cbn [invocations].
  pose proof (step_triggered w Hi Hd Hne Hc (calm_writes 3 w Hcalm)) as S1.
  destruct (kept w Hcalm) as (K1 & T1 & P1).
  cbv zeta in S1. destruct S1 as (_ & A1 & C1 & E1 & _).
  set (w1 := snd (invocation w)) in *.
  assert (Hs1 : state_of (persisted w1) = UpgradeStatePrecheckStart)
    by (unfold state_of; rewrite A1; apply get_insert_eq).
  assert (Hc1 : signal AnnotationCancelUpgrade (persisted w1) = false).
  { unfold signal. rewrite A1, !get_insert_ne by discriminate. exact Hc. }
  pose proof (step_precheck_start w1 Hs1 Hc1 (calm_writes 2 w1 K1)) as S2.
  destruct (kept w1 K1) as (K2 & T2 & P2).
  cbv zeta in S2. destruct S2 as (_ & A2 & C2 & E2 & _).
  set (w2 := snd (invocation w1)) in *.
  assert (Hs2 : state_of (persisted w2) = UpgradeStatePrecheckDone)
    by (unfold state_of; rewrite A2; apply get_stored_state).
  assert (Hc2 : signal AnnotationCancelUpgrade (persisted w2) = false).
  { unfold signal. rewrite A2, get_stored_signal by apply in_cancel. exact Hc1. }
  pose proof (step_precheck_done w2 Hs2 Hc2 (calm_writes 2 w2 K2)) as S3.
  destruct (kept w2 K2) as (K3 & T3 & P3).
  cbv zeta in S3. destruct S3 as (_ & A3 & C3 & E3 & _).
  set (w3 := snd (invocation w2)) in *.
  split; [unfold state_of; rewrite A3; apply get_insert_eq |].
  split.
  { rewrite A3, get_insert_ne by discriminate.
    rewrite A2, get_stored_signal by apply in_cancel.
    rewrite A1, !get_insert_ne by discriminate. reflexivity. }
  split.
  { rewrite A3, get_insert_ne by discriminate.
    rewrite A2, get_stored_signal by apply in_proceed.
    rewrite A1, !get_insert_ne by discriminate. reflexivity. }
  split.
  { rewrite A3, get_insert_ne by discriminate.
    rewrite A2, get_stored_signal by apply in_trigger.
    rewrite A1, get_insert_ne by discriminate. apply get_insert_eq. }
  split; [congruence |].
  split; [rewrite E3, E2, E1, <- !app_assoc; reflexivity |].
  split; [exact K3 |].
  split; congruence.
Qed.

(** From the approval to the idle state: three more invocations. *)
Lemma run_to_idle w :
  state_of (persisted w) = UpgradeStateWaitingUser ->
  signal AnnotationCancelUpgrade (persisted w) = false ->
  signal AnnotationProceedUpgrade (persisted w) = true ->
  all_converged (with_obj (persisted w) w) = true ->
  calm w ->
  let w3 := invocations 3 w in
  Annotations (persisted w3)
  = cleaned UpgradeStateIdle
      (cleaned UpgradeStateCompleted
         (<[AnnotationUpgradeState := UpgradeStateInProgress]>
            (Annotations (persisted w)))) /\
  Status (persisted w3)
  = with_CurrentImage (Image (persisted w)) (Status (persisted w)) /\
  events w3 = events w ++ approved :: rollout_started ++ upgrade_completed /\
  calm w3 /\ statefulsets w3 = statefulsets w /\
  spec_of (persisted w3) = spec_of (persisted w).
Proof.
  intros Hs Hc Hp Ha Hcalm. cbn zeta. cbn [invocations].
  pose proof (step_approved w Hs Hc Hp (calm_writes 2 w Hcalm)) as S1.
  destruct (kept w Hcalm) as (K1 & T1 & P1).
  cbv zeta in S1. destruct S1 as (_ & A1 & C1 & E1 & _).
  set (w1 := snd (invocation w)) in *.
  assert (Hs1 : state_of (persisted w1) = UpgradeStateInProgress)
    by (unfold state_of; rewrite A1; apply get_insert_eq).
  assert (Hc1 : signal AnnotationCancelUpgrade (persisted w1) = false).
  { unfold signal. rewrite A1, get_insert_ne by discriminate. exact Hc. }
  assert (Ha1 : all_converged (with_obj (persisted w1) w1) = true).
  { rewrite <- Ha. unfold spec_of in P1. injection P1 as _ N _ _ G.
    apply all_converged_ext; destruct w, w1; cbn in *; assumption. }
  assert (Hw1 : writes_succeed 2 (tl (faults w1)))
    by (apply (calm_writes 3 w1 K1)).
  pose proof (step_completed w1 Hs1 Hc1 Ha1 Hw1) as S2.
  destruct (kept w1 K1) as (K2 & T2 & P2).
  cbv zeta in S2. destruct S2 as (_ & A2 & C2 & E2 & _).
  destruct (calm_writes 1 w1 K1) as [H0 _]. rewrite H0 in C2.
  set (w2 := snd (invocation w1)) in *.
  assert (Hs2 : is_final (state_of (persisted w2)) = true)
    by (unfold state_of; rewrite A2, get_cleaned_state; reflexivity).
  assert (Hc2 : signal AnnotationCancelUpgrade (persisted w2) = false).
  { unfold signal. rewrite A2, get_cleaned_signal by apply in_cancel. reflexivity. }
  pose proof (step_terminal w2 Hs2 Hc2 (calm_writes 2 w2 K2)) as S3.
  destruct (kept w2 K2) as (K3 & T3 & P3).
  cbv zeta in S3. destruct S3 as (_ & A3 & C3 & E3 & _).
  set (w3 := snd (invocation w2)) in *.
  split; [rewrite A3, A2, A1; reflexivity |].
  split.
  { rewrite C3, C2, C1. unfold spec_of in P1. injection P1 as _ _ _ I _.
    rewrite I. reflexivity. }
  split; [rewrite E3, E2, E1, <- !app_assoc; reflexivity |].
  split; [exact K3 |].
  split; congruence.
Qed.

Lemma invocations_wait n w :
  state_of (persisted w) = UpgradeStateWaitingUser ->
  signal AnnotationCancelUpgrade (persisted w) = false ->
  signal AnnotationProceedUpgrade (persisted w) = false ->
  invocations n w = match n with O => w | S _ => with_obj (persisted w) w end.
Proof.
  intros Hs Hc Hp. revert w Hs Hc Hp.
  induction n as [|n IH]; intros w Hs Hc Hp; [reflexivity |].
  cbn [invocations]. rewrite step_waiting by assumption. cbn [snd].
  rewrite IH by (destruct w; assumption).
  destruct n; destruct w; reflexivity.
Qed.

(** X7.  The step from PrecheckCompleted to WaitingForUserApproval, and the
    wait.  In the state PrecheckCompleted with the cancel signal not set, an
    invocation whose two writes succeed records the event AwaitingApproval
    and moves the state annotation to WaitingForUserApproval; the stored
    report and the control signals are as they were, and so is the stored
    status: the paused flag and the state that the handler assigns to the
    status do not reach the store, because the write of the annotations
    reads the stored status back before the status is written.  From then
    on, while neither the proceed nor the cancel signal is set, any number
    of invocations asks for a requeue in five minutes and changes neither
    the stored object nor the events: the wait has no timeout. *)
Theorem approval_is_awaited (w : World) :
  (state_of (persisted w) = UpgradeStatePrecheckDone ->
   signal AnnotationCancelUpgrade (persisted w) = false ->
   writes_succeed 2 (faults w) ->
   let r := invocation w in
   fst r = (NoRequeue, None) /\
   Annotations (persisted (snd r))
   = <[AnnotationUpgradeState := UpgradeStateWaitingUser]> (Annotations (persisted w)) /\
   Status (persisted (snd r)) = Status (persisted w) /\
   events (snd r) = events w ++ [awaiting_approval]) /\
  (state_of (persisted w) = UpgradeStateWaitingUser ->
   signal AnnotationCancelUpgrade (persisted w) = false ->
   signal AnnotationProceedUpgrade (persisted w) = false ->
   forall n : nat,
     fst (invocation (invocations n w)) = (After (5 * Minute), None) /\
     persisted (invocations n w) = persisted w /\
     events (invocations n w) = events w /\
     faults (invocations n w) = faults w).
Proof.
  split.
  - intros Hs Hc Hw.
    destruct (step_precheck_done w Hs Hc Hw) as (R & A & S & E & _).
    cbn zeta. auto.
  - intros Hs Hc Hp n.
    rewrite invocations_wait by assumption.
    destruct n.
    + rewrite step_waiting by assumption. auto.
    + rewrite step_waiting by (destruct w; assumption).
      destruct w; auto.
Qed.

(** X8.  The step from UpgradeInProgress to UpgradeCompleted.  When every
    group has converged and the cancel signal is not set, an invocation
    records the health check and the completion events, removes the three
    control signals and moves the state annotation to UpgradeCompleted,
    keeping the stored report.  The first of its three writes records the
    desired image as the current one, and its failure is only logged: the
    invocation succeeds when the two writes of the cleanup succeed.  Of the
    stored status nothing changes but the current image, and that only when
    the first write succeeded; when it failed the stored status is the one
    stored before, so the state annotation says UpgradeCompleted while the
    old image is still recorded.  The state, the paused flag and the time of
    the upgrade that the cleanup assigns to the status do not reach the
    store. *)
Theorem completion_and_current_image (w : World) :
  state_of (persisted w) = UpgradeStateInProgress ->
  signal AnnotationCancelUpgrade (persisted w) = false ->
  all_converged (with_obj (persisted w) w) = true ->
  writes_succeed 2 (tl (faults w)) ->
  let r := invocation w in
  let a' := Annotations (persisted (snd r)) in
  fst r = (NoRequeue, None) /\
  state_of (persisted (snd r)) = UpgradeStateCompleted /\
  (forall k, In k control_signals -> a' !! k = None) /\
  a' !! AnnotationPrecheckResults
  = Annotations (persisted w) !! AnnotationPrecheckResults /\
  Status (persisted (snd r)) =
    match hd None (faults w) with
    | None => with_CurrentImage (Image (persisted w)) (Status (persisted w))
    | Some _ => Status (persisted w)
    end /\
  events (snd r) = events w ++ upgrade_completed /\
  faults (snd r) = tl (tl (tl (faults w))).
Proof.
  intros Hs Hc Ha Hw.
  destruct (step_completed w Hs Hc Ha Hw) as (R & A & S & E & F).
  cbn zeta. unfold state_of. rewrite A.
  split; [exact R |]. split; [apply get_cleaned_state |].
  split; [intros k Hk; apply cleaned_signals, Hk |].
  split.
  { apply cleaned_other; [discriminate |].
    cbn. intros [H | [H | [H | []]]]; discriminate. }
  auto.
Qed.

Lemma completion_and_current_image_witness :
  let w := example_world
             (example_cluster
                [(AnnotationUpgradeState, UpgradeStateInProgress);
                 (AnnotationProceedUpgrade, "true")])
             1 [Some (Error "conflict")] in
  state_of (persisted w) = UpgradeStateInProgress /\
  hd None (faults w) = Some (Error "conflict") /\
  fst (invocation w) = (NoRequeue, None) /\
  state_of (persisted (snd (invocation w))) = UpgradeStateCompleted /\
  Status (persisted (snd (invocation w))) = Status (persisted w) /\
  st_CurrentImage (Status (persisted (snd (invocation w)))) <> Image (persisted w).
Proof.
  cbn zeta.
  match goal with |- state_of (persisted ?w) = _ /\ _ =>
    assert (Hs : state_of (persisted w) = UpgradeStateInProgress)
      by (vm_compute; reflexivity);
    assert (Hc : signal AnnotationCancelUpgrade (persisted w) = false)
      by (vm_compute; reflexivity);
    assert (Ha : all_converged (with_obj (persisted w) w) = true)
      by (vm_compute; reflexivity);
    assert (Hw : writes_succeed 2 (tl (faults w))) by (vm_compute; auto);
    destruct (completion_and_current_image w Hs Hc Ha Hw)
      as (R & S & _ & _ & C & _)
  end.
  split; [exact Hs |]. split; [reflexivity |]. split; [exact R |].
  split; [exact S |]. split; [exact C |].
  rewrite C. vm_compute. discriminate.
Defined.

(** X9.  A trigger set by hand.  For an idle cluster with a recorded image
    that is the desired one and with the cancel signal not set: when the
    trigger annotation reads exactly [true], an invocation whose two writes
    succeed starts the prechecks and moves the state annotation to
    PrecheckStarted, leaving the trigger in place and the stored status as
    it was; with any other value of the annotation the invocation returns at
    once and touches nothing. *)
Theorem trigger_by_hand (w : World) :
  idle (persisted w) ->
  st_CurrentImage (Status (persisted w)) <> EmptyString ->
  st_CurrentImage (Status (persisted w)) = Image (persisted w) ->
  let r := invocation w in
  (get (Annotations (persisted w)) AnnotationTriggerUpgrade = "true" ->
   signal AnnotationCancelUpgrade (persisted w) = false ->
   writes_succeed 2 (faults w) ->
   fst r = (NoRequeue, None) /\
   Annotations (persisted (snd r))
   = <[AnnotationUpgradeState := UpgradeStatePrecheckStart]> (Annotations (persisted w)) /\
   Status (persisted (snd r)) = Status (persisted w) /\
   events (snd r) = events w ++ prechecks_started) /\
  (get (Annotations (persisted w)) AnnotationTriggerUpgrade <> "true" ->
   r = ((NoRequeue, None), with_obj (persisted w) w)).
Proof.
  intros Hi Hd Him. cbn zeta. split.
  - intros Ht Hc Hw. apply String.eqb_eq in Ht.
    destruct (step_manual w Hi Hd Him Hc Ht Hw) as (R & A & U & E & _).
    auto.
  - intros Ht. apply String.eqb_neq in Ht. apply step_idle; assumption.
Qed.

Lemma trigger_by_hand_witness :
  let w := example_world
             (settled (example_cluster [(AnnotationTriggerUpgrade, "True")])) 1 [] in
  idle (persisted w) /\
  get (Annotations (persisted w)) AnnotationTriggerUpgrade = "True" /\
  invocation w = ((NoRequeue, None), with_obj (persisted w) w).
Proof.
  cbn zeta.
  match goal with |- idle (persisted ?w) /\ _ =>
    assert (Hi : idle (persisted w)) by (left; vm_compute; reflexivity);
    assert (Hd : st_CurrentImage (Status (persisted w)) <> EmptyString)
      by (vm_compute; discriminate);
    assert (Him : st_CurrentImage (Status (persisted w)) = Image (persisted w))
      by (vm_compute; reflexivity);
    destruct (trigger_by_hand w Hi Hd Him) as (_ & H)
  end.
  split; [exact Hi |]. split; [vm_compute; reflexivity |].
  apply H. vm_compute. discriminate.
Defined.

Lemma annotate_facts k v w :
  Annotations (persisted (annotate k v w)) = <[k := v]> (Annotations (persisted w)) /\
  Status (persisted (annotate k v w)) = Status (persisted w) /\
  spec_of (persisted (annotate k v w)) = spec_of (persisted w) /\
  statefulsets (annotate k v w) = statefulsets w /\
  events (annotate k v w) = events w /\
  faults (annotate k v w) = faults w.
Proof. destruct w. repeat split. Qed.

(** X10.  The whole workflow.  A deployed, idle cluster whose desired image
    is changed reaches WaitingForUserApproval in three invocations and waits
    there, with the stored status as it was before, the old image still
    recorded as the current one.  Once the user sets the proceed signal,
    three more invocations take it through UpgradeInProgress and
    UpgradeCompleted back to Idle, with the control signals removed; of the
    stored status the whole upgrade changes the current image, which is now
    the desired one, and nothing else.  After that an invocation changes
    nothing any more.  This holds when every write succeeds, every group has
    converged and nobody sets the cancel signal. *)
Theorem upgrade_runs_to_completion (w : World) :
  idle (persisted w) ->
  signal AnnotationCancelUpgrade (persisted w) = false ->
  signal AnnotationProceedUpgrade (persisted w) = false ->
  st_CurrentImage (Status (persisted w)) <> EmptyString ->
  Image (persisted w) <> EmptyString ->
  st_CurrentImage (Status (persisted w)) <> Image (persisted w) ->
  all_converged (with_obj (persisted w) w) = true ->
  calm w ->
  let waiting := invocations 3 w in
  let done := invocations 3 (annotate AnnotationProceedUpgrade "true" waiting) in
  (state_of (persisted waiting) = UpgradeStateWaitingUser /\
   Status (persisted waiting) = Status (persisted w) /\
   invocation waiting
   = ((After (5 * Minute), None), with_obj (persisted waiting) waiting)) /\
  (state_of (persisted done) = UpgradeStateIdle /\
   Status (persisted done)
   = with_CurrentImage (Image (persisted w)) (Status (persisted w)) /\
   Image (persisted done) = Image (persisted w) /\
   (forall k, In k control_signals -> Annotations (persisted done) !! k = None) /\
   invocation done = ((NoRequeue, None), with_obj (persisted done) done)) /\
  events done
  = events w ++ prechecks_started ++ [precheck_completed; awaiting_approval]
    ++ approved :: rollout_started ++ upgrade_completed.
Proof.
  intros Hi Hc Hp Hd Himg Hne Ha Hcalm. cbn zeta.
  destruct (run_to_approval w Hi Hc Hd Hne Hcalm)
    as (S3 & C3 & P3 & _ & I3 & E3 & K3 & T3 & Sp3).
  cbv zeta in S3, C3, P3, I3, E3, K3, T3, Sp3.
  set (waiting := invocations 3 w) in *. clearbody waiting.
  assert (Hc3 : signal AnnotationCancelUpgrade (persisted waiting) = false)
    by (unfold signal; rewrite C3; exact Hc).
  assert (Hp3 : signal AnnotationProceedUpgrade (persisted waiting) = false)
    by (unfold signal; rewrite P3; exact Hp).
  split.
  { split; [exact S3 |]. split; [exact I3 |].
    apply step_waiting; assumption. }
  destruct (annotate_facts AnnotationProceedUpgrade "true" waiting)
    as (A4 & St4 & Sp4 & T4 & E4 & F4).
  set (approved_world := annotate AnnotationProceedUpgrade "true" waiting) in *.
  clearbody approved_world.
  assert (Hs4 : state_of (persisted approved_world) = UpgradeStateWaitingUser).
  { unfold state_of. rewrite A4, get_insert_ne by discriminate. exact S3. }
  assert (Hc4 : signal AnnotationCancelUpgrade (persisted approved_world) = false).
  { unfold signal. rewrite A4, get_insert_ne by discriminate. exact Hc3. }
  assert (Hp4 : signal AnnotationProceedUpgrade (persisted approved_world) = true).
  { unfold signal. rewrite A4, get_insert_eq. reflexivity. }
  assert (Ha4 : all_converged (with_obj (persisted approved_world) approved_world) = true).
  { rewrite <- Ha. assert (Sp : spec_of (persisted approved_world) = spec_of (persisted w))
      by congruence.
    unfold spec_of in Sp. injection Sp as _ N _ _ G.
    apply all_converged_ext; [| exact N | exact G].
    cbn [statefulsets with_obj]. congruence. }
  assert (K4 : calm approved_world) by (unfold calm; rewrite F4; exact K3).
  destruct (run_to_idle approved_world Hs4 Hc4 Hp4 Ha4 K4)
    as (A6 & I6 & E6 & K6 & T6 & Sp6).
  cbv zeta in A6, I6, E6, K6, T6, Sp6.
  rewrite St4, I3 in I6.
  set (done := invocations 3 approved_world) in *. clearbody done.
  assert (Sp : spec_of (persisted done) = spec_of (persisted w)) by congruence.
  unfold spec_of in Sp. injection Sp as _ _ _ Im _.
  assert (Si : state_of (persisted done) = UpgradeStateIdle)
    by (unfold state_of; rewrite A6; apply get_cleaned_state).
  assert (Im4 : Image (persisted approved_world) = Image (persisted w)).
  { assert (Sp : spec_of (persisted approved_world) = spec_of (persisted w))
      by congruence.
    unfold spec_of in Sp. injection Sp as _ _ _ Im' _. exact Im'. }
  rewrite Im4 in I6.
  split.
  { split; [exact Si |]. split; [exact I6 |]. split; [exact Im |].
    split; [intros k Hk; rewrite A6; apply cleaned_signals, Hk |].
    apply step_idle.
    - right. exact Si.
    - rewrite I6. exact Himg.
    - rewrite I6, Im. reflexivity.
    - unfold signal. rewrite A6, get_cleaned_signal by apply in_trigger. reflexivity. }
  rewrite E6, E4, E3, <- !app_assoc. reflexivity.
Qed.

Lemma upgrade_runs_to_completion_witness :
  let w := example_world (example_cluster []) 1 [] in
  let done := invocations 3 (annotate AnnotationProceedUpgrade "true"
                               (invocations 3 w)) in
  idle (persisted w) /\
  st_CurrentImage (Status (persisted w)) <> Image (persisted w) /\
  state_of (persisted done) = UpgradeStateIdle /\
  st_CurrentImage (Status (persisted done)) = Image (persisted w).
Proof.
  cbn zeta.
  match goal with |- idle (persisted ?w) /\ _ =>
    assert (Hi : idle (persisted w)) by (left; vm_compute; reflexivity);
    assert (Hc : signal AnnotationCancelUpgrade (persisted w) = false)
      by (vm_compute; reflexivity);
    assert (Hp : signal AnnotationProceedUpgrade (persisted w) = false)
      by (vm_compute; reflexivity);
    assert (Hd : st_CurrentImage (Status (persisted w)) <> EmptyString)
      by (vm_compute; discriminate);
    assert (Himg : Image (persisted w) <> EmptyString)
      by (vm_compute; discriminate);
    assert (Hne : st_CurrentImage (Status (persisted w)) <> Image (persisted w))
      by (vm_compute; discriminate);
    assert (Ha : all_converged (with_obj (persisted w) w) = true)
      by (vm_compute; reflexivity);
    assert (Hcalm : calm w) by constructor;
    destruct (upgrade_runs_to_completion w Hi Hc Hp Hd Himg Hne Ha Hcalm)
      as (_ & (S & I & _) & _)
  end.
  split; [exact Hi |]. split; [exact Hne |]. split; [exact S |].
  rewrite I. reflexivity.
Defined.

(** X11.  A cancellation does not last while the images differ.  In a state
    other than the idle one and UpgradeInProgress, with the cancel signal set,
    a recorded current image and a desired image that differs from it, three
    invocations whose writes succeed cancel the upgrade, return to Idle, and
    then trigger the upgrade again for the same image change: the cluster is
    back in PrecheckStarted with the trigger set. *)
Theorem cancelled_upgrade_restarts (w : World) :
  state_of (persisted w) <> EmptyString ->
  state_of (persisted w) <> UpgradeStateIdle ->
  state_of (persisted w) <> UpgradeStateInProgress ->
  signal AnnotationCancelUpgrade (persisted w) = true ->
  st_CurrentImage (Status (persisted w)) <> EmptyString ->
  st_CurrentImage (Status (persisted w)) <> Image (persisted w) ->
  calm w ->
  state_of (persisted (invocations 1 w)) = UpgradeStateCancelled /\
  state_of (persisted (invocations 2 w)) = UpgradeStateIdle /\
  state_of (persisted (invocations 3 w)) = UpgradeStatePrecheckStart /\
  get (Annotations (persisted (invocations 3 w))) AnnotationTriggerUpgrade = "true" /\
  signal AnnotationCancelUpgrade (persisted (invocations 3 w)) = false /\
  events (invocations 3 w) = events w ++ upgrade_cancelled :: prechecks_started.
Proof.
  intros H1 H2 H3 Hc Hd Hne Hcalm. cbn [invocations].
  pose proof (step_cancelled w H1 H2 H3 Hc (calm_writes 2 w Hcalm)) as S1.
  destruct (kept w Hcalm) as (K1 & T1 & P1).
  cbv zeta in S1. destruct S1 as (_ & A1 & C1 & E1 & _).
  set (w1 := snd (invocation w)) in *.
  assert (Hs1 : state_of (persisted w1) = UpgradeStateCancelled)
    by (unfold state_of; rewrite A1; apply get_cleaned_state).
  assert (Hc1 : signal AnnotationCancelUpgrade (persisted w1) = false).
  { unfold signal. rewrite A1, get_cleaned_signal by apply in_cancel. reflexivity. }
  assert (Hf1 : is_final (state_of (persisted w1)) = true)
    by (rewrite Hs1; reflexivity).
  pose proof (step_terminal w1 Hf1 Hc1 (calm_writes 2 w1 K1)) as S2.
  destruct (kept w1 K1) as (K2 & T2 & P2).
  cbv zeta in S2. destruct S2 as (_ & A2 & C2 & E2 & _).
  set (w2 := snd (invocation w1)) in *.
  assert (Hs2 : state_of (persisted w2) = UpgradeStateIdle)
    by (unfold state_of; rewrite A2; apply get_cleaned_state).
  assert (Hc2 : signal AnnotationCancelUpgrade (persisted w2) = false).
  { unfold signal. rewrite A2, get_cleaned_signal by apply in_cancel. reflexivity. }
  assert (Im2 : Image (persisted w2) = Image (persisted w)).
  { assert (Sp : spec_of (persisted w2) = spec_of (persisted w)) by congruence.
    unfold spec_of in Sp. injection Sp as _ _ _ Im _. exact Im. }
  assert (Hd2 : st_CurrentImage (Status (persisted w2)) <> EmptyString)
    by (rewrite C2, C1; exact Hd).
  assert (Hne2 : st_CurrentImage (Status (persisted w2)) <> Image (persisted w2))
    by (rewrite C2, C1, Im2; exact Hne).
  pose proof (step_triggered w2 (or_intror Hs2) Hd2 Hne2 Hc2 (calm_writes 3 w2 K2))
    as S3.
  cbv zeta in S3. destruct S3 as (_ & A3 & _ & E3 & _).
  set (w3 := snd (invocation w2)) in *.
  split; [exact Hs1 |]. split; [exact Hs2 |].
  split; [unfold state_of; rewrite A3; apply get_insert_eq |].
  split; [rewrite A3, get_insert_ne by discriminate; apply get_insert_eq |].
  split.
  { unfold signal. rewrite A3, !get_insert_ne by discriminate. exact Hc2. }
  rewrite E3, E2, E1, <- app_assoc. reflexivity.
Qed.

Lemma cancelled_upgrade_restarts_witness :
  let w := example_world
             (example_cluster
                [(AnnotationUpgradeState, UpgradeStateWaitingUser);
                 (AnnotationCancelUpgrade, "true")]) 1 [] in
  signal AnnotationCancelUpgrade (persisted w) = true /\
  state_of (persisted (invocations 1 w)) = UpgradeStateCancelled /\
  state_of (persisted (invocations 3 w)) = UpgradeStatePrecheckStart.
Proof.
  cbn zeta.
  match goal with |- signal _ (persisted ?w) = _ /\ _ =>
    assert (Hc : signal AnnotationCancelUpgrade (persisted w) = true)
      by (vm_compute; reflexivity);
    assert (H1 : state_of (persisted w) <> EmptyString) by (vm_compute; discriminate);
    assert (H2 : state_of (persisted w) <> UpgradeStateIdle)
      by (vm_compute; discriminate);
    assert (H3 : state_of (persisted w) <> UpgradeStateInProgress)
      by (vm_compute; discriminate);
    assert (Hd : st_CurrentImage (Status (persisted w)) <> EmptyString)
      by (vm_compute; discriminate);
    assert (Hne : st_CurrentImage (Status (persisted w)) <> Image (persisted w))
      by (vm_compute; discriminate);
    assert (Hcalm : calm w) by constructor;
    destruct (cancelled_upgrade_restarts w H1 H2 H3 Hc Hd Hne Hcalm)
      as (S1 & _ & S3 & _)
  end.
  split; [exact Hc |]. split; [exact S1 | exact S3].
Defined.

(** ** The report in the annotation *)

Lemma is_ascii_append a b : is_ascii (a +:+ b) = is_ascii a && is_ascii b.
Proof.
  induction a as [|c a IH]; [reflexivity |].
  cbn [String.append is_ascii]. rewrite IH. apply andb_assoc.
Qed.

(** The report of the mock prechecks is well formed when the names of the
    cluster are ASCII and the clock reads a valid time. *)
Lemma mock_report_well_formed skip w :
  is_ascii (Name (obj w)) = true -> is_ascii (Namespace (obj w)) = true ->
  is_ascii (Image (obj w)) = true -> valid_time (clock w) ->
  well_formed (fst (generateMockPrecheckResults skip w)).
Proof.
  intros Hn Hs Hi Ht.
  unfold generateMockPrecheckResults, bind, ret, Now, cluster.
  cbn [fst snd obj with_clock].
  assert (Hd : is_ascii ("Target image: " +:+ Image (obj w)) = true)
    by (rewrite is_ascii_append, Hi; reflexivity).
  split; [| split; [| split]].
  - unfold mock_results.
    destruct skip; cbn [negb app];
      repeat (apply List.Forall_cons;
              [unfold well_formed_result;
               cbn [pr_Name pr_Status pr_Message pr_Details pr_Timestamp
                    pr_Duration pr_Remediation];
               repeat (split; [first [reflexivity | exact Hd] |]); exact Ht |]);
      apply List.Forall_nil.
  - cbn [Summary]. destruct skip; vm_compute; auto.
  - exact Ht.
  - cbn [ClusterRef]. rewrite !is_ascii_append, Hn, Hs. reflexivity.
Qed.

Lemma report_round_trip (r : PrecheckResults) :
  well_formed r ->
  exists text, ToJSON r = inl text /\ PrecheckResultsFromJSON text = Some r.
Proof.
  intros H. destruct (enc_PrecheckResults_spec r H) as (j & Ej & Cj & Dj).
  exists (render j). unfold ToJSON, PrecheckResultsFromJSON.
  rewrite Ej, parse_document_render by exact Cj. auto.
Qed.

(** X12.  The step from PrecheckStarted to PrecheckCompleted.  With the cancel
    signal not set and the two writes succeeding, an invocation records the
    event with the number of checks and moves the state annotation to
    PrecheckCompleted, leaving the stored status as it was; the
    precheck-results annotation becomes the JSON text of the report when the
    report can be serialised and is left as it was otherwise.  For a cluster
    whose name, namespace and image are ASCII and a clock that reads a valid
    time, the text is stored, and [PrecheckResultsFromJSON] reads the very
    report back from the annotation: eight checks, none failed, stamped with
    the time of the clock and the cluster it is about. *)
Theorem precheck_report_is_stored (w : World) :
  state_of (persisted w) = UpgradeStatePrecheckStart ->
  signal AnnotationCancelUpgrade (persisted w) = false ->
  writes_succeed 2 (faults w) ->
  let r := invocation w in
  let a' := Annotations (persisted (snd r)) in
  let report := fst (generateMockPrecheckResults
                       (signal AnnotationSkipForestCheck (persisted w))
                       (with_obj (persisted w) w)) in
  (fst r = (NoRequeue, None) /\
   state_of (persisted (snd r)) = UpgradeStatePrecheckDone /\
   Status (persisted (snd r)) = Status (persisted w) /\
   events (snd r) = events w ++ [precheck_completed] /\
   (forall k, In k control_signals -> a' !! k = Annotations (persisted w) !! k) /\
   a' !! AnnotationPrecheckResults =
     match ToJSON report with
     | inl text => Some text
     | inr _ => Annotations (persisted w) !! AnnotationPrecheckResults
     end) /\
  (is_ascii (Name (persisted w)) = true ->
   is_ascii (Namespace (persisted w)) = true ->
   is_ascii (Image (persisted w)) = true ->
   valid_time (clock w) ->
   PrecheckResultsFromJSON (get a' AnnotationPrecheckResults) = Some report /\
   Timestamp report = clock w /\
   ClusterRef report = Namespace (persisted w) +:+ "/" +:+ Name (persisted w) /\
   length (Results report) = 8%nat /\
   Failed (Summary report) = 0%Z /\
   CanProceed (Summary report) = true).
Proof.
  intros Hs Hc Hw.
  destruct (step_precheck_start w Hs Hc Hw) as (R & A & U & E & _).
  cbv zeta in R, A, U, E |- *.
  set (report := fst (generateMockPrecheckResults
                        (signal AnnotationSkipForestCheck (persisted w))
                        (with_obj (persisted w) w))) in *.
  assert (Hres : Annotations (persisted (snd (invocation w))) !! AnnotationPrecheckResults =
     match ToJSON report with
     | inl text => Some text
     | inr _ => Annotations (persisted w) !! AnnotationPrecheckResults
     end).
  { rewrite A. unfold stored. destruct (ToJSON report).
    - apply lookup_insert_eq.
    - apply lookup_insert_ne. discriminate. }
  split.
  - split; [exact R |].
    split; [unfold state_of; rewrite A; apply get_stored_state |].
    split; [exact U |]. split; [exact E |].
    split; [intros k Hk; rewrite A; apply stored_signal, Hk | exact Hres].
  - intros Hn Hns Hi Ht.
    assert (Hwf : well_formed report).
    { apply mock_report_well_formed; destruct w; assumption. }
    destruct (report_round_trip report Hwf) as (text & Et & Dt).
    unfold get. rewrite Hres, Et. cbn [default].
    split; [exact Dt |].
    subst report. destruct w as [o p sts ev fl ck tk].
    unfold generateMockPrecheckResults, bind, ret, Now, cluster.
    cbn [fst snd Timestamp ClusterRef Results Summary clock obj persisted with_obj].
    split; [reflexivity |]. split; [reflexivity |].
    split; [apply mock_results_length |].
    destruct (signal AnnotationSkipForestCheck p); vm_compute; auto.
Qed.

Lemma precheck_report_is_stored_witness :
  let w := example_world
             (example_cluster [(AnnotationUpgradeState, UpgradeStatePrecheckStart)])
             1 [] in
  let report := fst (generateMockPrecheckResults false (with_obj (persisted w) w)) in
  state_of (persisted w) = UpgradeStatePrecheckStart /\
  valid_time (clock w) /\
  PrecheckResultsFromJSON
    (get (Annotations (persisted (snd (invocation w)))) AnnotationPrecheckResults)
  = Some report.
Proof.
  cbn zeta.
  match goal with |- state_of (persisted ?w) = _ /\ _ =>
    assert (Hs : state_of (persisted w) = UpgradeStatePrecheckStart)
      by (vm_compute; reflexivity);
    assert (Hc : signal AnnotationCancelUpgrade (persisted w) = false)
      by (vm_compute; reflexivity);
    assert (Hw : writes_succeed 2 (faults w)) by (vm_compute; auto);
    assert (Ht : valid_time (clock w)) by evaluated;
    destruct (precheck_report_is_stored w Hs Hc Hw) as (_ & H);
    destruct H as (D & _);
      [vm_compute; reflexivity | vm_compute; reflexivity
      | vm_compute; reflexivity | exact Ht |]
  end.
  split; [exact Hs |]. split; [exact Ht | exact D].
Defined.

(** ** Deployment and the first image *)

Lemma has_deployment_condition_spec conditions :
  has_deployment_condition conditions = true <->
  exists x, In x conditions /\
            (c_Type x = "Ready" \/ c_Type x = "Deployed") /\
            c_Status x = ConditionTrue.
Proof.
  induction conditions as [|c l IH]; cbn [has_deployment_condition].
  - split; [discriminate | intros (x & [] & _)].
  - destruct ((c_Type c =? "Ready") && (c_Status c =? ConditionTrue)) eqn:E1.
    { apply andb_true_iff in E1 as [T S].
      apply String.eqb_eq in T, S.
      split; [intros _ | reflexivity]. exists c. cbn. auto. }
    destruct ((c_Type c =? "Deployed") && (c_Status c =? ConditionTrue)) eqn:E2.
    { apply andb_true_iff in E2 as [T S].
      apply String.eqb_eq in T, S.
      split; [intros _ | reflexivity]. exists c. cbn. auto. }
    rewrite IH. split.
    + intros (x & Hx & H). exists x. cbn. auto.
    + intros (x & [<- | Hx] & [T | T] & S); [| | exists x; auto ..].
      * rewrite T, S in E1. discriminate.
      * rewrite T, S in E2. discriminate.
Qed.

Lemma isClusterDeployed_spec w :
  isClusterDeployed w =
  let c := obj w in
  if negb (st_CurrentImage (Status c) =? EmptyString) then (true, w)
  else
    let w1 := with_clock (hd (clock w) (ticks w)) (tl (ticks w)) w in
    if (unixNano (clock w) - unixNano (CreationTimestamp c) <? 5 * Minute)%Z
    then (false, w1)
    else if has_deployment_condition (st_Conditions (Status c)) then (true, w1)
    else ((5 * Minute <? unixNano (clock w1) - unixNano (CreationTimestamp c))%Z,
          with_clock (hd (clock w1) (ticks w1)) (tl (ticks w1)) w1).
Proof.
  unfold isClusterDeployed, Since, bind, cluster, Now, ret. cbv beta iota zeta.
  destruct (negb (st_CurrentImage (Status (obj w)) =? EmptyString)); [reflexivity |].
  destruct (unixNano (clock w) - unixNano (CreationTimestamp (obj w)) <? 5 * Minute)%Z;
    [reflexivity |].
  destruct (has_deployment_condition (st_Conditions (Status (obj w)))); reflexivity.
Qed.

(** X13.  When a cluster counts as deployed.  A recorded current image settles
    it, without a look at the clock.  Without one, a cluster younger than five
    minutes is not deployed, whatever its conditions say; from five minutes on
    it is deployed when a condition Ready or Deployed is true, or else when
    the clock, read a second time, shows more than five minutes: the
    conditions make a difference at an age of exactly five minutes only. *)
Theorem deployed_by_image_or_age (w : World) :
  let c := obj w in
  let age := (unixNano (clock w) - unixNano (CreationTimestamp c))%Z in
  let age' := (unixNano (hd (clock w) (ticks w)) - unixNano (CreationTimestamp c))%Z in
  let marked := exists x, In x (st_Conditions (Status c)) /\
                          (c_Type x = "Ready" \/ c_Type x = "Deployed") /\
                          c_Status x = ConditionTrue in
  (st_CurrentImage (Status c) <> EmptyString -> isClusterDeployed w = (true, w)) /\
  (st_CurrentImage (Status c) = EmptyString ->
   ((age < 5 * Minute)%Z -> fst (isClusterDeployed w) = false) /\
   ((5 * Minute <= age)%Z ->
    (fst (isClusterDeployed w) = true <-> marked \/ (5 * Minute < age')%Z)) /\
   ((5 * Minute < age)%Z -> (age <= age')%Z -> fst (isClusterDeployed w) = true)).
Proof.
  cbv zeta. rewrite isClusterDeployed_spec. cbv zeta. split.
  - intros H. apply String.eqb_neq in H. rewrite H. reflexivity.
  - intros H. rewrite H. cbn [String.eqb negb].
    assert (G : (5 * Minute <=
                 unixNano (clock w) - unixNano (CreationTimestamp (obj w)))%Z ->
      ((if (unixNano (clock w) - unixNano (CreationTimestamp (obj w)) <? 5 * Minute)%Z
        then (false, with_clock (hd (clock w) (ticks w)) (tl (ticks w)) w)
        else
         if has_deployment_condition (st_Conditions (Status (obj w)))
         then (true, with_clock (hd (clock w) (ticks w)) (tl (ticks w)) w)
         else
          ((5 * Minute <?
            unixNano (clock (with_clock (hd (clock w) (ticks w)) (tl (ticks w)) w)) -
            unixNano (CreationTimestamp (obj w)))%Z,
           with_clock
             (hd (clock (with_clock (hd (clock w) (ticks w)) (tl (ticks w)) w))
                (ticks (with_clock (hd (clock w) (ticks w)) (tl (ticks w)) w)))
             (tl (ticks (with_clock (hd (clock w) (ticks w)) (tl (ticks w)) w)))
             (with_clock (hd (clock w) (ticks w)) (tl (ticks w)) w))).1 = true <->
       (exists x, In x (st_Conditions (Status (obj w))) /\
                  (c_Type x = "Ready" \/ c_Type x = "Deployed") /\
                  c_Status x = ConditionTrue) \/
       (5 * Minute <
        unixNano (hd (clock w) (ticks w)) - unixNano (CreationTimestamp (obj w)))%Z)).
    { intros Hage. apply Z.ltb_ge in Hage. rewrite Hage.
      rewrite <- has_deployment_condition_spec.
      destruct (has_deployment_condition (st_Conditions (Status (obj w)))).
      - cbn [fst]. tauto.
      - cbn [fst clock with_clock]. rewrite Z.ltb_lt.
        split; [auto | intros [? | ?]; [discriminate | assumption]]. }
    split; [| split].
    + intros Hage. apply Z.ltb_lt in Hage. rewrite Hage. reflexivity.
    + exact G.
    + intros Hage Hmono. apply G; [| right]; lia.
Qed.

Lemma workflow_fresh w :
  idle (obj w) -> fst (isClusterDeployed w) = false ->
  HandleUpgradeWorkflow w =
  (err <- updateStatusAfterDeployment ;;
   match err with
   | Some err => ret (NoRequeue, Some err)
   | None => ret (NoRequeue, None)
   end) (snd (isClusterDeployed w)).
Proof.
  intros Hi Hd. unfold HandleUpgradeWorkflow.
  match goal with |- bind GetAnnotations ?k w = _ =>
    change (k (Annotations (obj w)) w = (err <- updateStatusAfterDeployment ;;
   match err with
   | Some err => ret (NoRequeue, Some err)
   | None => ret (NoRequeue, None)
   end) (snd (isClusterDeployed w)))
  end.
  cbv beta zeta.
  assert (Hs : (if get (Annotations (obj w)) AnnotationUpgradeState =? EmptyString
                then UpgradeStateIdle
                else get (Annotations (obj w)) AnnotationUpgradeState)
               = UpgradeStateIdle).
  { destruct Hi as [Hi | Hi]; unfold state_of in Hi; rewrite Hi; reflexivity. }
  rewrite Hs.
  change (UpgradeStateIdle =? UpgradeStateIdle) with true. cbv iota.
  unfold bind at 1. unfold bind at 1.
  destruct (isClusterDeployed w) as [d w1]. cbn [fst snd] in Hd |- *.
  subst d. reflexivity.
Qed.

Lemma updateStatusAfterDeployment_spec w :
  updateStatusAfterDeployment w = updateCurrentImages w.
Proof. reflexivity. Qed.

Lemma bootstrap_unfold w :
  idle (persisted w) ->
  st_CurrentImage (Status (persisted w)) = EmptyString ->
  (unixNano (clock w) - unixNano (CreationTimestamp (persisted w)) < 5 * Minute)%Z ->
  invocation w =
  let c := with_Status (with_CurrentImage (Image (persisted w)) (Status (persisted w)))
             (persisted w) in
  let w1 := with_faults (tl (faults w))
              (with_obj c (with_clock (hd (clock w) (ticks w)) (tl (ticks w)) w)) in
  match hd None (faults w) with
  | Some e => ((NoRequeue, Some e), w1)
  | None => ((NoRequeue, None), with_persisted c w1)
  end.
Proof.
  intros Hi Hc Hage. rewrite invocation_unfold.
  assert (Hd : isClusterDeployed (with_obj (persisted w) w)
               = (false, with_clock (hd (clock w) (ticks w)) (tl (ticks w))
                           (with_obj (persisted w) w))).
  { rewrite isClusterDeployed_spec. cbv zeta. cbn [obj with_obj clock ticks].
    rewrite Hc. cbn [String.eqb negb].
    apply Z.ltb_lt in Hage. rewrite Hage. reflexivity. }
  rewrite workflow_fresh by (first [exact Hi | rewrite Hd; reflexivity]).
  rewrite Hd. cbn [snd]. unfold bind at 1.
  rewrite updateStatusAfterDeployment_spec, updateCurrentImages_spec. cbv zeta.
  destruct w as [o p sts ev fl ck tk].
  cbn [obj persisted statefulsets events faults clock ticks
       with_obj with_persisted with_events with_faults with_clock].
  destruct (hd None fl) as [e|]; [reflexivity |].
  destruct p; reflexivity.
Qed.

(** X14.  A new cluster.  For an idle cluster without a recorded image and
    younger than five minutes, an invocation does nothing but write the
    desired image into the status as the current one: no event, no change of
    an annotation, no requeue, whatever the trigger, proceed and cancel
    signals say.  When the write fails its error is returned and nothing is
    stored. *)
Theorem new_cluster_records_image (w : World) :
  idle (persisted w) ->
  st_CurrentImage (Status (persisted w)) = EmptyString ->
  (unixNano (clock w) - unixNano (CreationTimestamp (persisted w)) < 5 * Minute)%Z ->
  let r := invocation w in
  fst (fst r) = NoRequeue /\
  events (snd r) = events w /\
  Annotations (persisted (snd r)) = Annotations (persisted w) /\
  (hd None (faults w) = None ->
   snd (fst r) = None /\
   Status (persisted (snd r))
   = with_CurrentImage (Image (persisted w)) (Status (persisted w))) /\
  (forall e, hd None (faults w) = Some e ->
   snd (fst r) = Some e /\ persisted (snd r) = persisted w).
Proof.
  intros Hi Hc Hage. cbn zeta. rewrite (bootstrap_unfold w Hi Hc Hage). cbv zeta.
  destruct w as [o p sts ev fl ck tk].
  cbn [obj persisted statefulsets events faults clock ticks].
  destruct (hd None fl) as [e|].
  - do 3 (split; [reflexivity |]).
    split; [discriminate | intros e' [= <-]; split; reflexivity].
  - do 3 (split; [reflexivity |]).
    split; [intros _; split; reflexivity | discriminate].
Qed.

Lemma new_cluster_records_image_witness :
  let c := example_cluster [(AnnotationTriggerUpgrade, "true")] in
  let fresh := with_Status (with_CurrentImage EmptyString (Status c)) c in
  let w := example_world fresh 0 [] in
  get (Annotations (persisted w)) AnnotationTriggerUpgrade = "true" /\
  st_CurrentImage (Status (persisted w)) = EmptyString /\
  fst (invocation w) = (NoRequeue, None) /\
  Annotations (persisted (snd (invocation w))) = Annotations (persisted w) /\
  st_CurrentImage (Status (persisted (snd (invocation w)))) = Image (persisted w).
Proof.
  cbn zeta.
  match goal with |- get (Annotations (persisted ?w)) _ = _ /\ _ =>
    assert (Hi : idle (persisted w)) by (left; vm_compute; reflexivity);
    assert (Hc : st_CurrentImage (Status (persisted w)) = EmptyString)
      by (vm_compute; reflexivity);
    assert (Hage : (unixNano (clock w) - unixNano (CreationTimestamp (persisted w))
                    < 5 * Minute)%Z) by (vm_compute; reflexivity);
    destruct (new_cluster_records_image w Hi Hc Hage) as (R & _ & A & H & _);
    destruct (H eq_refl) as (E & S)
  end.
  split; [vm_compute; reflexivity |]. split; [exact Hc |].
  split; [| split; [exact A | rewrite S; reflexivity]].
  apply injective_projections; cbn [fst snd]; [exact R | exact E].
Defined.

(** ** The controller: [Reconcile] *)

Lemma update_obj state results w :
  Annotations (obj (snd (updateUpgradeStateWithResults state results w)))
  = stored state results (Annotations (obj w)).
Proof.
  destruct w as [o p sts ev fl ck tk].
  unfold updateUpgradeStateWithResults, stored.
  destruct (is_final state); destruct (state =? UpgradeStateCompleted);
    exec; destruct (hd None fl); exec;
    try (destruct (hd None (tl fl)); exec); reflexivity.
Qed.

Lemma Reconcile_fetched nf normal w :
  Reconcile fetched nf normal w =
  match snd (fst (invocation w)) with
  | Some err => ((NoRequeue, Some err), snd (invocation w))
  | None =>
      if Requeue (fst (fst (invocation w)))
         || (0 <? RequeueAfter (fst (fst (invocation w))))%Z
      then ((fst (fst (invocation w)), None), snd (invocation w))
      else if upgrade_active (state_of (obj (snd (invocation w))))
           then ((NoRequeue, None), snd (invocation w))
           else returned (normal (snd (invocation w)))
  end.
Proof.
  rewrite invocation_unfold.
  unfold Reconcile. unfold bind at 1. unfold fetched at 1. cbv beta iota.
  unfold bind at 1.
  destruct (HandleUpgradeWorkflow (with_obj (persisted w) w)) as [[res [e|]] w1];
    [reflexivity |].
  cbn [fst snd].
  destruct (Requeue res || (0 <? RequeueAfter res)%Z); [reflexivity |].
  unfold bind at 1. unfold GetAnnotations, bind, cluster, ret. cbv beta iota.
  unfold upgrade_active, state_of.
  destruct (negb (get (Annotations (obj w1)) AnnotationUpgradeState =? EmptyString)
            && negb (get (Annotations (obj w1)) AnnotationUpgradeState =? UpgradeStateIdle)
            && negb (get (Annotations (obj w1)) AnnotationUpgradeState =? UpgradeStateCompleted)
            && negb (get (Annotations (obj w1)) AnnotationUpgradeState =? UpgradeStateFailed)
            && negb (get (Annotations (obj w1)) AnnotationUpgradeState =? UpgradeStateCancelled));
    [reflexivity |].
  unfold returned. destruct (normal w1) as [[r [e|]] w2]; reflexivity.
Qed.

(** The normal reconciliation is skipped when the workflow fails, asks for a
    requeue, or leaves the object in memory in an active state. *)
Lemma Reconcile_skips nf normal w :
  (snd (fst (invocation w)) = None ->
   fst (fst (invocation w)) = NoRequeue ->
   upgrade_active (state_of (obj (snd (invocation w)))) = true) ->
  Reconcile fetched nf normal w = invocation w.
Proof.
  intros H. rewrite Reconcile_fetched.
  destruct (invocation w) as [[res err] w1] eqn:E. cbn [fst snd] in *.
  destruct err as [e|].
  - pose proof (blames_HandleUpgradeWorkflow (with_obj (persisted w) w) e) as B.
    rewrite <- invocation_unfold, E in B. cbn [fst snd] in B.
    destruct (B eq_refl) as [-> _].
    reflexivity.
  - pose proof (invocation_result w) as Hr. rewrite E in Hr. cbn [fst] in Hr.
    assert (D : res = NoRequeue \/ res = After (2 * Minute) \/ res = After (5 * Minute)).
    { rewrite Hr. repeat match goal with |- context [if ?b then _ else _] =>
        destruct b end; auto. }
    destruct D as [-> | [-> | ->]]; [| reflexivity | reflexivity].
    cbn [Requeue RequeueAfter NoRequeue orb Z.ltb Z.compare].
    rewrite H by reflexivity. reflexivity.
Qed.

Lemma active_PrecheckStart : upgrade_active UpgradeStatePrecheckStart = true.
Proof. reflexivity. Qed.
Lemma active_PrecheckDone : upgrade_active UpgradeStatePrecheckDone = true.
Proof. reflexivity. Qed.
Lemma active_WaitingUser : upgrade_active UpgradeStateWaitingUser = true.
Proof. reflexivity. Qed.
Lemma active_InProgress : upgrade_active UpgradeStateInProgress = true.
Proof. reflexivity. Qed.

Lemma obj_state_after_update state results w :
  state_of (obj (snd (updateUpgradeStateWithResults state results w))) = state.
Proof. unfold state_of. rewrite update_obj. apply get_stored_state. Qed.

(** The object in memory after an invocation in the three states before the
    rollout. *)
Lemma obj_state_precheck_start w :
  state_of (persisted w) = UpgradeStatePrecheckStart ->
  signal AnnotationCancelUpgrade (persisted w) = false ->
  state_of (obj (snd (invocation w))) = UpgradeStatePrecheckDone.
Proof.
  intros Hs Hc.
  rewrite invocation_not_idle by (rewrite Hs; discriminate).
  rewrite Hc, Hs, dispatch_PrecheckStart, handlePrecheckStartState_unfold.
  apply obj_state_after_update.
Qed.

Lemma obj_state_precheck_done w :
  state_of (persisted w) = UpgradeStatePrecheckDone ->
  signal AnnotationCancelUpgrade (persisted w) = false ->
  state_of (obj (snd (invocation w))) = UpgradeStateWaitingUser.
Proof.
  intros Hs Hc.
  rewrite invocation_not_idle by (rewrite Hs; discriminate).
  rewrite Hc, Hs, dispatch_PrecheckDone, handlePrecheckDoneState_unfold.
  apply obj_state_after_update.
Qed.

Lemma obj_state_waiting w :
  state_of (persisted w) = UpgradeStateWaitingUser ->
  signal AnnotationCancelUpgrade (persisted w) = false ->
  upgrade_active (state_of (obj (snd (invocation w)))) = true.
Proof.
  intros Hs Hc.
  destruct (signal AnnotationProceedUpgrade (persisted w)) eqn:Hp.
  - rewrite invocation_not_idle by (rewrite Hs; discriminate).
    rewrite Hc, Hs, dispatch_WaitingUser.
    rewrite handleWaitingUserState_unfold by (apply String.eqb_eq, Hp).
    rewrite obj_state_after_update. reflexivity.
  - rewrite step_waiting by assumption. cbn [snd obj with_obj].
    rewrite Hs. reflexivity.
Qed.

Lemma obj_state_in_progress w :
  state_of (persisted w) = UpgradeStateInProgress ->
  signal AnnotationCancelUpgrade (persisted w) = true
  \/ all_converged (with_obj (persisted w) w) = false ->
  state_of (obj (snd (invocation w))) = UpgradeStateInProgress.
Proof.
  intros Hs H.
  destruct (signal AnnotationCancelUpgrade (persisted w)) eqn:Hc.
  - rewrite invocation_not_idle by (rewrite Hs; discriminate).
    rewrite Hc, cancellation_refused by exact Hs.
    destruct w; exact Hs.
  - destruct H as [H | H]; [discriminate |].
    rewrite invocation_polls by assumption. destruct w; exact Hs.
Qed.

Lemma obj_state_triggered w :
  idle (persisted w) ->
  st_CurrentImage (Status (persisted w)) <> EmptyString ->
  st_CurrentImage (Status (persisted w)) <> Image (persisted w) ->
  signal AnnotationCancelUpgrade (persisted w) = false ->
  snd (fst (invocation w)) = None ->
  state_of (obj (snd (invocation w))) = UpgradeStatePrecheckStart.
Proof.
  intros Hi Hd Hne Hc.
  rewrite invocation_unfold.
  rewrite workflow_idle_deployed by (destruct w; assumption).
  destruct w as [o p sts ev fl ck tk].
  cbn [obj persisted statefulsets events faults clock ticks
       with_obj with_persisted with_events with_faults] in *.
  unfold detectImageChanges.
  apply String.eqb_neq in Hd, Hne. rewrite Hd, Hne, Hc. cbn [negb].
  destruct (hd None fl); [discriminate |].
  rewrite handleIdleState_unfold
    by (unfold get; rewrite lookup_insert_eq; reflexivity).
  intros _. apply obj_state_after_update.
Qed.

(** X15.  When the controller holds back.  With the cluster context of an
    object that exists, [Reconcile] does not run the normal reconciliation,
    and returns what the upgrade workflow returns and leaves the world as
    the workflow leaves it,
    - when the desired image of an idle, deployed cluster differs from the
      current one and the cancel signal is not set;
    - in the states PrecheckStarted, PrecheckCompleted and
      WaitingForUserApproval when the cancel signal is not set;
    - in the state UpgradeInProgress when the cancel signal is set or some
      group has not converged;
    whatever the outcome of the writes, and for every normal
    reconciliation. *)
Theorem reconcile_skips_normal_reconciliation
    (IsNotFound : error -> bool) (normal : M (Result * option error)) (w : World) :
  let run := Reconcile fetched IsNotFound normal w in
  (idle (persisted w) ->
   st_CurrentImage (Status (persisted w)) <> EmptyString ->
   st_CurrentImage (Status (persisted w)) <> Image (persisted w) ->
   signal AnnotationCancelUpgrade (persisted w) = false ->
   run = invocation w) /\
  (In (state_of (persisted w))
      [UpgradeStatePrecheckStart; UpgradeStatePrecheckDone; UpgradeStateWaitingUser] ->
   signal AnnotationCancelUpgrade (persisted w) = false ->
   run = invocation w) /\
  (state_of (persisted w) = UpgradeStateInProgress ->
   signal AnnotationCancelUpgrade (persisted w) = true
   \/ all_converged (with_obj (persisted w) w) = false ->
   run = invocation w).
Proof.
  cbn zeta. split; [| split].
  - intros Hi Hd Hne Hc. apply Reconcile_skips. intros He _.
    rewrite obj_state_triggered by assumption. reflexivity.
  - intros Hs Hc. apply Reconcile_skips. intros _ _.
    cbn in Hs. destruct Hs as [Hs | [Hs | [Hs | []]]]; symmetry in Hs.
    + rewrite obj_state_precheck_start by assumption. reflexivity.
    + rewrite obj_state_precheck_done by assumption. reflexivity.
    + apply obj_state_waiting; assumption.
  - intros Hs H. apply Reconcile_skips. intros _ _.
    rewrite obj_state_in_progress by assumption. reflexivity.
Qed.

Lemma cleanup_obj state w :
  Annotations (obj (snd (cleanupUpgradeAnnotations state w)))
  = cleaned state (Annotations (obj w)).
Proof.
  destruct w as [o p sts ev fl ck tk].
  unfold cleanupUpgradeAnnotations, cleaned.
  destruct (state =? UpgradeStateCompleted);
    exec; destruct (hd None fl); exec;
    try (destruct (hd None (tl fl)); exec); reflexivity.
Qed.

(** X16.  What [Reconcile] returns.  An error of the cluster context ends the
    pass: without an error when the object is not found, with the error
    otherwise.  With the cluster context of an object that exists, an error of
    the upgrade workflow ends the pass as well, in every state.  The normal
    reconciliation runs, on the object as the workflow leaves it, for an idle,
    deployed cluster with no trigger and no image change, and also in the very
    pass that completes an upgrade; its result is returned, or its error with
    an empty result. *)
Theorem reconcile_outcomes
    (CreateClusterContext : M (option error)) (IsNotFound : error -> bool)
    (normal : M (Result * option error)) (w : World) :
  (forall e, fst (CreateClusterContext w) = Some e ->
     Reconcile CreateClusterContext IsNotFound normal w
     = ((NoRequeue, if IsNotFound e then None else Some e),
        snd (CreateClusterContext w))) /\
  (forall e, snd (fst (invocation w)) = Some e ->
     Reconcile fetched IsNotFound normal w
     = ((NoRequeue, Some e), snd (invocation w))) /\
  (idle (persisted w) ->
   st_CurrentImage (Status (persisted w)) <> EmptyString ->
   st_CurrentImage (Status (persisted w)) = Image (persisted w) ->
   signal AnnotationTriggerUpgrade (persisted w) = false ->
   Reconcile fetched IsNotFound normal w
   = returned (normal (with_obj (persisted w) w))) /\
  (state_of (persisted w) = UpgradeStateInProgress ->
   signal AnnotationCancelUpgrade (persisted w) = false ->
   all_converged (with_obj (persisted w) w) = true ->
   writes_succeed 2 (tl (faults w)) ->
   Reconcile fetched IsNotFound normal w = returned (normal (snd (invocation w)))).
Proof.
  split; [| split; [| split]].
  - intros e He. unfold Reconcile. unfold bind at 1.
    destruct (CreateClusterContext w) as [err w1]. cbn [fst snd] in *. subst err.
    destruct (IsNotFound e); reflexivity.
  - intros e He. rewrite Reconcile_fetched, He. reflexivity.
  - intros Hi Hd Him Ht. rewrite Reconcile_fetched.
    rewrite step_idle by assumption. cbn [fst snd obj with_obj].
    cbn [Requeue RequeueAfter NoRequeue orb Z.ltb Z.compare].
    replace (upgrade_active (state_of (persisted w))) with false; [reflexivity |].
    destruct Hi as [-> | ->]; reflexivity.
  - intros Hs Hc Ha Hw. rewrite Reconcile_fetched.
    destruct (step_completed w Hs Hc Ha Hw) as (R & _).
    destruct (completion_unfold w Hs Hc Ha) as (w1 & E & A1 & _).
    assert (Ho : state_of (obj (snd (invocation w))) = UpgradeStateCompleted).
    { rewrite E. unfold state_of. rewrite cleanup_obj. apply get_cleaned_state. }
    rewrite Ho. cbv zeta in R. rewrite R. reflexivity.
Qed.

(** ** Reports and their JSON text *)

Lemma summary_fields (results : list PrecheckResult) :
  Total (calculate_summary results) = Z.of_nat (length results) /\
  Passed (calculate_summary results) = Z.of_nat (length (with_status "PASS" results)) /\
  Warnings (calculate_summary results) = Z.of_nat (length (with_status "WARN" results)) /\
  Failed (calculate_summary results) = Z.of_nat (length (with_status "FAIL" results)).
Proof.
  unfold calculate_summary. rewrite count_results_spec. cbn. auto.
Qed.

Lemma status_buckets (results : list PrecheckResult) :
  (length (with_status "PASS" results) + length (with_status "WARN" results)
   + length (with_status "FAIL" results) <= length results)%nat /\
  ((length (with_status "PASS" results) + length (with_status "WARN" results)
    + length (with_status "FAIL" results) = length results)%nat
   <-> Forall counted results).
Proof.
  unfold with_status.
  induction results as [|r l [IH1 IH2]]; cbn [List.filter length]; cbv beta.
  - split; [lia | split; [constructor | reflexivity]].
  - destruct (String.eqb_spec (pr_Status r) "PASS") as [E | N1].
    { try rewrite E. cbn [String.eqb Ascii.eqb Bool.eqb length]. split; [lia |].
      rewrite List.Forall_cons_iff. unfold counted at 1. rewrite <- IH2.
      split; [intros H; split; [auto | lia] | intros [_ H]; lia]. }
    destruct (String.eqb_spec (pr_Status r) "WARN") as [E | N2].
    { try rewrite E. cbn [String.eqb Ascii.eqb Bool.eqb length]. split; [lia |].
      rewrite List.Forall_cons_iff. unfold counted at 1. rewrite <- IH2.
      split; [intros H; split; [auto | lia] | intros [_ H]; lia]. }
    destruct (String.eqb_spec (pr_Status r) "FAIL") as [E | N3].
    { try rewrite E. cbn [String.eqb Ascii.eqb Bool.eqb length]. split; [lia |].
      rewrite List.Forall_cons_iff. unfold counted at 1. rewrite <- IH2.
      split; [intros H; split; [auto | lia] | intros [_ H]; lia]. }
    split; [lia |].
    rewrite List.Forall_cons_iff. unfold counted at 1.
    split; [lia | intros [[H | [H | H]] _]; contradiction].
Qed.

(** X17.  The summary of a report.  The total is the number of results;
    passed, warnings and failed count the results with the status PASS, WARN
    and FAIL, compared exactly as written.  A result with any other status is
    in the total and in none of the three, so the three add up to the total
    exactly when every status is one of them; such a result does not stand in
    the way of [canProceed]. *)
Theorem summary_counts (results : list PrecheckResult) :
  let s := calculate_summary results in
  Total s = Z.of_nat (length results) /\
  Passed s = Z.of_nat (length (with_status "PASS" results)) /\
  Warnings s = Z.of_nat (length (with_status "WARN" results)) /\
  Failed s = Z.of_nat (length (with_status "FAIL" results)) /\
  (Passed s + Warnings s + Failed s <= Total s)%Z /\
  ((Passed s + Warnings s + Failed s = Total s)%Z <-> Forall counted results) /\
  (forall r, ~ counted r ->
     CanProceed (calculate_summary (r :: results)) = CanProceed s /\
     Total (calculate_summary (r :: results)) = (Total s + 1)%Z /\
     Passed (calculate_summary (r :: results)) = Passed s).
Proof.
  cbn zeta.
  destruct (summary_fields results) as (T & P & W & F).
  destruct (status_buckets results) as (B1 & B2).
  rewrite T, P, W, F.
  do 4 (split; [reflexivity |]).
  split; [lia |]. split; [rewrite <- B2; lia |].
  intros r Hr.
  destruct (summary_fields (r :: results)) as (T' & P' & W' & F').
  rewrite !summary_canProceed_eq, T', P', F', F.
  assert (N : forall st, (st = "PASS" \/ st = "WARN" \/ st = "FAIL") ->
            with_status st (r :: results) = with_status st results).
  { intros st Hst. unfold with_status. cbn [List.filter]. cbv beta.
    destruct (String.eqb_spec (pr_Status r) st) as [E | _]; [| reflexivity].
    exfalso. apply Hr. unfold counted. rewrite E. exact Hst. }
  rewrite !N by auto. cbn [length]. repeat split; lia.
Qed.

Lemma mock_summary c skip now :
  calculate_summary (mock_results c skip now) =
  {| Total := 8; Passed := if skip then 7 else 6;
     Warnings := if skip then 1 else 2; Failed := 0; CanProceed := true |}.
Proof. destruct skip; reflexivity. Qed.

(** X18.  The report of the mock prechecks.  It has the eight checks in a
    fixed order, all stamped with the one reading of the clock that also
    stamps the report; its summary counts six passed and two warnings, or
    seven and one when the forest check is skipped, none failed, and allows to
    proceed; it names the cluster by namespace and name, and the first check
    names the desired image.  Producing it reads the clock once and changes
    nothing else. *)
Theorem mock_report (skipForestCheck : bool) (w : World) :
  let report := fst (generateMockPrecheckResults skipForestCheck w) in
  map pr_Name (Results report) = precheck_names /\
  Forall (fun r => pr_Timestamp r = clock w) (Results report) /\
  Timestamp report = clock w /\
  Summary report =
    {| Total := 8; Passed := if skipForestCheck then 7 else 6;
       Warnings := if skipForestCheck then 1 else 2; Failed := 0;
       CanProceed := true |} /\
  (Passed (Summary report) + Warnings (Summary report) + Failed (Summary report)
   = Total (Summary report))%Z /\
  ClusterRef report = Namespace (obj w) +:+ "/" +:+ Name (obj w) /\
  pr_Details <$> head (Results report) = Some ("Target image: " +:+ Image (obj w)) /\
  snd (generateMockPrecheckResults skipForestCheck w)
  = with_clock (hd (clock w) (ticks w)) (tl (ticks w)) w.
Proof.
  cbn zeta. unfold generateMockPrecheckResults, bind, ret, Now, cluster.
  cbn [fst snd Results Summary Timestamp ClusterRef obj with_clock].
  rewrite mock_summary.
  split; [destruct skipForestCheck; reflexivity |].
  split.
  { unfold mock_results. destruct skipForestCheck; cbn [negb app];
      repeat (apply List.Forall_cons; [reflexivity |]); apply List.Forall_nil. }
  split; [reflexivity |]. split; [reflexivity |].
  split; [destruct skipForestCheck; reflexivity |].
  split; [reflexivity |]. split; [destruct skipForestCheck; reflexivity |].
  reflexivity.
Qed.

Lemma format_time_some t :
  (exists s, format_time t = Some s) <-> formattable t.
Proof.
  unfold format_time, formattable.
  destruct (year t <? 0)%Z eqn:E1; cbn [orb].
  { apply Z.ltb_lt in E1. split; [intros (s & H); discriminate | lia]. }
  destruct (9999 <? year t)%Z eqn:E2.
  { apply Z.ltb_lt in E2. split; [intros (s & H); discriminate | lia]. }
  destruct (86400 <=? Z.abs (zoneOffset t))%Z eqn:E3.
  { apply Z.leb_le in E3. split; [intros (s & H); discriminate | lia]. }
  apply Z.ltb_ge in E1, E2. apply Z.leb_gt in E3.
  split; [intros _; lia | intros _; eexists; reflexivity].
Qed.

Lemma enc_time_some t : (exists j, enc_time t = Some j) <-> formattable t.
Proof.
  rewrite <- format_time_some. unfold enc_time.
  destruct (format_time t) as [s|].
  - split; intros _; eexists; reflexivity.
  - split; intros (x & H); discriminate.
Qed.

Lemma enc_PrecheckResult_some r :
  (exists j, enc_PrecheckResult r = Some j) <-> formattable (pr_Timestamp r).
Proof.
  rewrite <- enc_time_some. unfold enc_PrecheckResult.
  destruct (enc_time (pr_Timestamp r)) as [ts|].
  - split; intros _; eexists; reflexivity.
  - split; intros (x & H); discriminate.
Qed.

Lemma enc_results_some l :
  (exists js, enc_results l = Some js)
  <-> Forall (fun r => formattable (pr_Timestamp r)) l.
Proof.
  induction l as [|r l IH]; cbn [enc_results].
  - split; [constructor | intros _; eexists; reflexivity].
  - rewrite List.Forall_cons_iff, <- IH, <- enc_PrecheckResult_some.
    destruct (enc_PrecheckResult r) as [j|].
    + destruct (enc_results l) as [js|].
      * split; [intros _; split; eexists; reflexivity | intros _; eexists; reflexivity].
      * split; [intros (x & H); discriminate | intros [_ (x & H)]; discriminate].
    + split; [intros (x & H); discriminate | intros [(x & H) _]; discriminate].
Qed.

(** X19.  When [ToJSON] fails.  It returns the text of the report exactly when
    every time in it, the report's own and the one of each result, has a year
    from 0 to 9999 and a zone offset of less than a day; otherwise it returns
    the error of [Time.MarshalJSON].  No string and no number of a report
    makes it fail. *)
Theorem ToJSON_fails_on_times_only (r : PrecheckResults) :
  ((exists text, ToJSON r = inl text) <->
   formattable (Timestamp r) /\
   Forall (fun x => formattable (pr_Timestamp x)) (Results r)) /\
  ((exists err, ToJSON r = inr err) <->
   ~ (formattable (Timestamp r) /\
      Forall (fun x => formattable (pr_Timestamp x)) (Results r))).
Proof.
  assert (H : (exists text, ToJSON r = inl text) <->
   formattable (Timestamp r) /\
   Forall (fun x => formattable (pr_Timestamp x)) (Results r)).
  { rewrite <- enc_results_some, <- enc_time_some.
    unfold ToJSON, enc_PrecheckResults.
    destruct (enc_results (Results r)) as [js|].
    - destruct (enc_time (Timestamp r)) as [ts|].
      + split; [intros _; split; eexists; reflexivity | intros _; eexists; reflexivity].
      + split; [intros (x & E); discriminate | intros [(x & E) _]; discriminate].
    - split; [intros (x & E); discriminate | intros [_ (x & E)]; discriminate]. }
  split; [exact H |].
  rewrite <- H. destruct (ToJSON r) as [text | err].
  - split; [intros (x & E); discriminate | intros N; exfalso; apply N; eauto].
  - split; [intros _ (x & E); discriminate | intros _; eauto].
Qed.

(** ** What a pass stores of the status *)

(** *** Steps that write nothing *)

Lemma unwritten_refl w : unwritten w w.
Proof. repeat split. Qed.

Lemma unwritten_trans a b c : unwritten a b -> unwritten b c -> unwritten a c.
Proof. intros (O1 & P1 & F1) (O2 & P2 & F2). repeat split; congruence. Qed.

Lemma unwritten_ret {A} (a : A) : respects unwritten (ret a).
Proof. apply respects_ret, unwritten_refl. Qed.

Lemma unwritten_bind {A B} (m : M A) (k : A -> M B) :
  respects unwritten m -> (forall a, respects unwritten (k a)) ->
  respects unwritten (bind m k).
Proof. apply respects_bind, unwritten_trans. Qed.

Ltac known_unwritten := fail.

Ltac walk_unwritten :=
  repeat lazymatch goal with
    | |- respects unwritten (bind _ _) =>
        apply unwritten_bind; [| intros ?; cbv beta zeta]
    | |- respects unwritten (if ?b then _ else _) => destruct b
    | |- respects unwritten (match ?x with _ => _ end) => destruct x
    | |- respects unwritten (ret _) => exact (unwritten_ret _)
    | |- respects unwritten cluster => intros ?; repeat split
    | |- respects unwritten GetAnnotations => intros ?; repeat split
    | |- respects unwritten (GetStatefulSet _ _) => intros ?; repeat split
    | |- respects unwritten (Sleep _) => exact (unwritten_ret _)
    | |- respects unwritten (RecordEvent _ _ _) => intros ?; repeat split
    | |- respects unwritten Now => intros ?; repeat split
    | |- respects unwritten (Since _) => intros ?; repeat split
    | |- respects unwritten _ => known_unwritten
    end.

Lemma unwritten_StartPrechecks : respects unwritten StartPrechecks.
Proof. unfold StartPrechecks. walk_unwritten. Qed.

Lemma unwritten_CheckPrecheckStatus : respects unwritten CheckPrecheckStatus.
Proof. unfold CheckPrecheckStatus, generateMockPrecheckResults. walk_unwritten. Qed.

Lemma unwritten_report_steps reason pause steps :
  respects unwritten (report_steps reason pause steps).
Proof. induction steps; cbn [report_steps]; walk_unwritten; exact IHsteps. Qed.

Lemma unwritten_StartRollingUpgrade : respects unwritten StartRollingUpgrade.
Proof.
  unfold StartRollingUpgrade, performRollingUpgrade. walk_unwritten;
    apply unwritten_report_steps.
Qed.

Lemma unwritten_check_groups groups allUpdated :
  respects unwritten (check_groups groups allUpdated).
Proof.
  revert allUpdated. induction groups; intros allUpdated; cbn [check_groups];
    unfold checkStatefulSetUpgradeStatus; walk_unwritten; apply IHgroups.
Qed.

Lemma unwritten_CheckUpgradeStatus : respects unwritten CheckUpgradeStatus.
Proof.
  unfold CheckUpgradeStatus, checkUpgradeProgress, checkUpgradeProgress_with,
    performClusterHealthCheck.
  walk_unwritten;
    lazymatch goal with
    | |- respects unwritten (check_groups _ _) => apply unwritten_check_groups
    | |- respects unwritten (report_steps _ _ _) => apply unwritten_report_steps
    end.
Qed.

Lemma unwritten_isClusterDeployed : respects unwritten isClusterDeployed.
Proof. unfold isClusterDeployed. walk_unwritten. Qed.

Ltac known_unwritten ::=
  lazymatch goal with
  | |- respects unwritten StartPrechecks => exact unwritten_StartPrechecks
  | |- respects unwritten CheckPrecheckStatus => exact unwritten_CheckPrecheckStatus
  | |- respects unwritten StartRollingUpgrade => exact unwritten_StartRollingUpgrade
  | |- respects unwritten CheckUpgradeStatus => exact unwritten_CheckUpgradeStatus
  | |- respects unwritten isClusterDeployed => exact unwritten_isClusterDeployed
  end.

(** *** The status that the two functions store *)

(** Whatever the outcome of their writes, the two functions that write a
    state leave the stored status as it was: what they assign to the status
    is lost when [Update] reads the stored status back. *)
Lemma update_keeps_status state results w :
  Status (persisted (snd (updateUpgradeStateWithResults state results w)))
  = Status (persisted w).
Proof.
  destruct (hd None (faults w)) as [e1|] eqn:E1.
  - destruct (update_first_fails state results w e1 E1) as (w' & -> & Hp & _).
    cbn [snd]. rewrite Hp. reflexivity.
  - destruct (hd None (tl (faults w))) as [e2|] eqn:E2.
    + destruct (update_second_fails state results w e2 E1 E2)
        as (w' & -> & _ & S & _).
      exact S.
    + destruct (update_succeeds state results w) as (w' & -> & _ & S & _);
        [repeat split; assumption | exact S].
Qed.

Lemma cleanup_keeps_status state w :
  Status (persisted (snd (cleanupUpgradeAnnotations state w)))
  = Status (persisted w).
Proof.
  destruct (hd None (faults w)) as [e1|] eqn:E1.
  - destruct (cleanup_first_fails state w e1 E1) as (w' & -> & Hp & _).
    cbn [snd]. rewrite Hp. reflexivity.
  - destruct (hd None (tl (faults w))) as [e2|] eqn:E2.
    + destruct (cleanup_second_fails state w e2 E1 E2) as (w' & -> & _ & S & _).
      exact S.
    + destruct (cleanup_succeeds state w) as (w' & -> & _ & S & _);
        [repeat split; assumption | exact S].
Qed.

Section StoredStatus.

Variable s0 : ClusterStatus.
Variable image : string.

Lemma leads_ret {A} (a : A) :
  leads (within s0 image) (stores_image_only s0 image) (ret a).
Proof. intros w (_ & _ & _ & H). exact H. Qed.

Lemma leads_bind {A B} (m : M A) (k : A -> M B) :
  keeps (within s0 image) m ->
  (forall a, leads (within s0 image) (stores_image_only s0 image) (k a)) ->
  leads (within s0 image) (stores_image_only s0 image) (bind m k).
Proof.
  intros Hm Hk w Hw. unfold bind.
  specialize (Hm w Hw). destruct (m w) as [a w1]. cbn [snd] in Hm.
  apply Hk, Hm.
Qed.

Lemma within_unwritten {A} (m : M A) :
  respects unwritten m -> keeps (within s0 image) m.
Proof.
  intros H w Hw. destruct (H w) as (O & Pe & _).
  unfold within. rewrite O, Pe. exact Hw.
Qed.

Lemma within_SetAnnotations a : keeps (within s0 image) (SetAnnotations a).
Proof. intros w Hw. exact Hw. Qed.

Lemma within_Update : keeps (within s0 image) Update.
Proof.
  intros w (I1 & I2 & S1 & S2). unfold Update, bind, next_fault. cbn.
  destruct (hd None (faults w)); cbn; repeat split; assumption.
Qed.

Lemma within_updateCurrentImages : keeps (within s0 image) updateCurrentImages.
Proof.
  intros w (I1 & I2 & S1 & S2). rewrite updateCurrentImages_spec. cbv zeta.
  assert (S : image_only s0 image (with_CurrentImage (Image (obj w)) (Status (obj w)))).
  { rewrite I1. right. destruct S1 as [-> | ->]; reflexivity. }
  destruct (hd None (faults w)); cbn; repeat split; assumption.
Qed.

Lemma leads_update state results :
  leads (within s0 image) (stores_image_only s0 image)
    (updateUpgradeStateWithResults state results).
Proof.
  intros w (_ & _ & _ & H). unfold stores_image_only.
  rewrite update_keeps_status. exact H.
Qed.

Lemma leads_cleanup state :
  leads (within s0 image) (stores_image_only s0 image)
    (cleanupUpgradeAnnotations state).
Proof.
  intros w (_ & _ & _ & H). unfold stores_image_only.
  rewrite cleanup_keeps_status. exact H.
Qed.

Ltac walk_leads :=
  repeat lazymatch goal with
    | |- leads _ _ (bind _ _) => apply leads_bind; [| intros ?; cbv beta zeta]
    | |- leads _ _ (if ?b then _ else _) => destruct b
    | |- leads _ _ (match ?x with _ => _ end) => destruct x
    | |- leads _ _ (ret _) => exact (leads_ret _)
    | |- leads _ _ (updateUpgradeState _) => exact (leads_update _ None)
    | |- leads _ _ (updateUpgradeStateWithResults _ _) => exact (leads_update _ _)
    | |- leads _ _ (cleanupUpgradeAnnotations _) => exact (leads_cleanup _)
    | |- leads _ _ (handleCancellation _) => idtac
    | |- leads _ _ (dispatch _ _) => idtac
    | |- keeps _ (bind _ _) => apply keeps_bind; [| intros ?; cbv beta zeta]
    | |- keeps _ (if ?b then _ else _) => destruct b
    | |- keeps _ (match ?x with _ => _ end) => destruct x
    | |- keeps _ (ret _) => apply keeps_ret
    | |- keeps _ (SetAnnotations _) => exact (within_SetAnnotations _)
    | |- keeps _ Update => exact within_Update
    | |- keeps _ updateCurrentImages => exact within_updateCurrentImages
    | |- keeps _ updateStatusAfterDeployment => exact within_updateCurrentImages
    | |- keeps _ _ => apply within_unwritten; walk_unwritten
    end.

Lemma leads_handleIdleState annotations :
  leads (within s0 image) (stores_image_only s0 image) (handleIdleState annotations).
Proof. unfold handleIdleState. walk_leads. Qed.

Lemma leads_handlePrecheckStartState annotations :
  leads (within s0 image) (stores_image_only s0 image)
    (handlePrecheckStartState annotations).
Proof. unfold handlePrecheckStartState. walk_leads. Qed.

Lemma leads_handlePrecheckDoneState annotations :
  leads (within s0 image) (stores_image_only s0 image)
    (handlePrecheckDoneState annotations).
Proof. unfold handlePrecheckDoneState. walk_leads. Qed.

Lemma leads_handleWaitingUserState annotations :
  leads (within s0 image) (stores_image_only s0 image)
    (handleWaitingUserState annotations).
Proof. unfold handleWaitingUserState. walk_leads. Qed.

Lemma leads_handleInProgressState annotations :
  leads (within s0 image) (stores_image_only s0 image)
    (handleInProgressState annotations).
Proof. unfold handleInProgressState. walk_leads. Qed.

Lemma leads_handleCancellation annotations :
  leads (within s0 image) (stores_image_only s0 image)
    (handleCancellation annotations).
Proof. unfold handleCancellation. walk_leads. Qed.

Lemma leads_dispatch state annotations :
  leads (within s0 image) (stores_image_only s0 image) (dispatch state annotations).
Proof.
  unfold dispatch.
  destruct (state =? UpgradeStateIdle); [apply leads_handleIdleState |].
  destruct (state =? UpgradeStatePrecheckStart);
    [apply leads_handlePrecheckStartState |].
  destruct (state =? UpgradeStatePrecheckDone);
    [apply leads_handlePrecheckDoneState |].
  destruct (state =? UpgradeStateWaitingUser);
    [apply leads_handleWaitingUserState |].
  destruct (state =? UpgradeStateInProgress);
    [apply leads_handleInProgressState |].
  destruct (is_final state);
    [exact (leads_cleanup _) | exact (leads_update UpgradeStateIdle None)].
Qed.

Lemma leads_HandleUpgradeWorkflow :
  leads (within s0 image) (stores_image_only s0 image) HandleUpgradeWorkflow.
Proof.
  unfold HandleUpgradeWorkflow. walk_leads;
    lazymatch goal with
    | |- leads _ _ (handleCancellation _) => apply leads_handleCancellation
    | |- leads _ _ (dispatch _ _) => apply leads_dispatch
    end.
Qed.

End StoredStatus.

Lemma invocation_status w :
  image_only (Status (persisted w)) (Image (persisted w))
    (Status (persisted (snd (invocation w)))).
Proof.
  rewrite invocation_unfold.
  apply (leads_HandleUpgradeWorkflow (Status (persisted w)) (Image (persisted w))
           (with_obj (persisted w) w)).
  destruct w. repeat split; left; reflexivity.
Qed.

(** X20.  What a pass stores of the status.  After every invocation, in
    every state and whatever the writes do, the stored status is the one
    that was stored before, except that its current image may have become
    the desired image.  The upgrade state, the paused flag, the time of the
    last upgrade and the condition UpgradeInProgress that the handlers
    assign to the status are never stored: they are assigned before the
    write of the annotations, which reads the stored status back into the
    object, so that the status write that follows stores what was stored
    already. *)
Theorem stored_status_changes_in_image_only (w : World) :
  let s := Status (persisted w) in
  let s' := Status (persisted (snd (invocation w))) in
  (s' = s \/ s' = with_CurrentImage (Image (persisted w)) s) /\
  st_UpgradeState s' = st_UpgradeState s /\
  st_UpgradePaused s' = st_UpgradePaused s /\
  st_LastUpgradeTime s' = st_LastUpgradeTime s /\
  st_Conditions s' = st_Conditions s /\
  (st_CurrentImage s' = st_CurrentImage s \/
   st_CurrentImage s' = Image (persisted w)).
Proof.
  cbn zeta. pose proof (invocation_status w) as H. unfold image_only in H.
  split; [exact H |].
  destruct H as [-> | ->]; cbn; auto 10.
Qed.

(** ** The writes of a pass *)








(** ** Invariants of the annotations *)

Lemma annot_refl w : annot_step w w.
Proof. split; auto. Qed.

Lemma annot_trans a b c : annot_step a b -> annot_step b c -> annot_step a c.
Proof.
  intros (O1 & P1) (O2 & P2).
  split; destruct O1, P1, O2, P2; first [left; congruence | right; congruence].
Qed.

Lemma annot_ret {A} (a : A) : respects annot_step (ret a).
Proof. apply respects_ret, annot_refl. Qed.

Lemma annot_bind {A B} (m : M A) (k : A -> M B) :
  respects annot_step m -> (forall a, respects annot_step (k a)) ->
  respects annot_step (bind m k).
Proof. apply respects_bind, annot_trans. Qed.

Lemma annot_same {A} (m : M A) :
  (forall w, obj (snd (m w)) = obj w /\ persisted (snd (m w)) = persisted w) ->
  respects annot_step m.
Proof.
  intros H w. destruct (H w) as [O Pe]. unfold annot_step. rewrite O, Pe. auto.
Qed.

Lemma annot_RecordEvent ty reason msg : respects annot_step (RecordEvent ty reason msg).
Proof. apply annot_same. intros w. split; reflexivity. Qed.

Lemma annot_Now : respects annot_step Now.
Proof. apply annot_same. intros w. split; reflexivity. Qed.

Lemma annot_Since t : respects annot_step (Since t).
Proof. apply annot_same. intros w. split; reflexivity. Qed.

Lemma annot_Update : respects annot_step Update.
Proof.
  intros w. unfold Update, bind, next_fault. cbn.
  destruct (hd None (faults w)); cbn; split; auto.
Qed.

Lemma annot_StatusUpdate : respects annot_step StatusUpdate.
Proof.
  intros w. unfold StatusUpdate, bind, next_fault. cbn.
  destruct (hd None (faults w)); cbn; split; auto.
Qed.

Lemma annot_assign_status f : respects annot_step (assign_status f).
Proof. intros w. split; left; reflexivity. Qed.

Lemma annot_record_image :
  respects annot_step
    (assign (fun c => with_Status (with_CurrentImage (Image c) (Status c)) c)).
Proof. intros w. split; left; reflexivity. Qed.

Ltac known_annot := fail.

Ltac walk_annot :=
  repeat lazymatch goal with
    | |- respects annot_step (bind _ _) =>
        apply annot_bind; [| intros ?; cbv beta zeta]
    | |- respects annot_step (if ?b then _ else _) => destruct b
    | |- respects annot_step (match ?x with _ => _ end) => destruct x
    | |- respects annot_step (ret _) => exact (annot_ret _)
    | |- respects annot_step cluster => apply annot_same; intros ?; split; reflexivity
    | |- respects annot_step GetAnnotations => apply annot_same; intros ?; split; reflexivity
    | |- respects annot_step (GetStatefulSet _ _) =>
        apply annot_same; intros ?; split; reflexivity
    | |- respects annot_step (Sleep _) => exact (annot_ret _)
    | |- respects annot_step (RecordEvent _ _ _) => exact (annot_RecordEvent _ _ _)
    | |- respects annot_step Now => exact annot_Now
    | |- respects annot_step (Since _) => exact (annot_Since _)
    | |- respects annot_step Update => exact annot_Update
    | |- respects annot_step StatusUpdate => exact annot_StatusUpdate
    | |- respects annot_step (assign_status _) => exact (annot_assign_status _)
    | |- respects annot_step _ => known_annot
    end.

Lemma annot_StartPrechecks : respects annot_step StartPrechecks.
Proof. unfold StartPrechecks. walk_annot. Qed.

Lemma annot_CheckPrecheckStatus : respects annot_step CheckPrecheckStatus.
Proof. unfold CheckPrecheckStatus, generateMockPrecheckResults. walk_annot. Qed.

Lemma annot_report_steps reason pause steps :
  respects annot_step (report_steps reason pause steps).
Proof. induction steps; cbn [report_steps]; walk_annot; exact IHsteps. Qed.

Lemma annot_StartRollingUpgrade : respects annot_step StartRollingUpgrade.
Proof.
  unfold StartRollingUpgrade, performRollingUpgrade. walk_annot;
    apply annot_report_steps.
Qed.

Lemma annot_check_groups groups allUpdated :
  respects annot_step (check_groups groups allUpdated).
Proof.
  revert allUpdated. induction groups; intros allUpdated; cbn [check_groups];
    unfold checkStatefulSetUpgradeStatus; walk_annot; apply IHgroups.
Qed.

Lemma annot_CheckUpgradeStatus : respects annot_step CheckUpgradeStatus.
Proof.
  unfold CheckUpgradeStatus, checkUpgradeProgress, checkUpgradeProgress_with,
    performClusterHealthCheck.
  walk_annot;
    lazymatch goal with
    | |- respects annot_step (check_groups _ _) => apply annot_check_groups
    | |- respects annot_step (report_steps _ _ _) => apply annot_report_steps
    end.
Qed.

Lemma annot_updateCurrentImages : respects annot_step updateCurrentImages.
Proof. unfold updateCurrentImages. walk_annot; apply annot_record_image. Qed.

Lemma annot_isClusterDeployed : respects annot_step isClusterDeployed.
Proof. unfold isClusterDeployed. walk_annot. Qed.

Ltac known_annot ::=
  lazymatch goal with
  | |- respects annot_step StartPrechecks => exact annot_StartPrechecks
  | |- respects annot_step CheckPrecheckStatus => exact annot_CheckPrecheckStatus
  | |- respects annot_step StartRollingUpgrade => exact annot_StartRollingUpgrade
  | |- respects annot_step CheckUpgradeStatus => exact annot_CheckUpgradeStatus
  | |- respects annot_step updateCurrentImages => exact annot_updateCurrentImages
  | |- respects annot_step updateStatusAfterDeployment =>
      exact annot_updateCurrentImages
  | |- respects annot_step isClusterDeployed => exact annot_isClusterDeployed
  end.

Section AnnotationInvariant.

(** A property of annotations that the edits of the workflow preserve: the
    automatic trigger, the change of the state to one of the recognized
    states, the cleanup, and, in the state PrecheckStarted only, the storing
    of a report. *)
Variable P : gmap string string -> Prop.
Variable s0 : UpgradeState.

Hypothesis P_trigger :
  forall a, P a -> P (<[AnnotationTriggerUpgrade := "true"]> a).
Hypothesis P_state :
  forall state a, In state recognized_states ->
    P a -> P (<[AnnotationUpgradeState := state]> a).
Hypothesis P_clean :
  forall state a, In state recognized_states -> P a -> P (cleaned state a).
Hypothesis P_report :
  s0 = UpgradeStatePrecheckStart ->
  forall report a, P a -> P (stored UpgradeStatePrecheckDone (Some report) a).

Lemma satisfy_step {A} (m : M A) :
  respects annot_step m -> keeps (annotations_satisfy P) m.
Proof.
  intros H w [Ho Hp]. destruct (H w) as ([O | O] & [S | S]); split; congruence.
Qed.

Lemma satisfy_SetAnnotations a : P a -> keeps (annotations_satisfy P) (SetAnnotations a).
Proof. intros Ha w [Ho Hp]. split; assumption. Qed.

Lemma satisfy_modify {A} (g : gmap string string -> gmap string string) (rest : M A) :
  (forall a, P a -> P (g a)) ->
  respects annot_step rest ->
  keeps (annotations_satisfy P)
    (annotations <- GetAnnotations ;; SetAnnotations (g annotations) ;; rest).
Proof.
  intros Hg Hrest w [Ho Hp].
  change ((annotations <- GetAnnotations ;; SetAnnotations (g annotations) ;; rest) w)
    with (rest (with_obj (with_Annotations (g (Annotations (obj w))) (obj w)) w)).
  apply (satisfy_step rest Hrest). split; [apply Hg, Ho | exact Hp].
Qed.

Lemma satisfy_update state results :
  (forall a, P a -> P (stored state results a)) ->
  keeps (annotations_satisfy P) (updateUpgradeStateWithResults state results).
Proof.
  intros H. unfold updateUpgradeStateWithResults.
  apply (satisfy_modify (stored state results)); [exact H |].
  walk_annot.
Qed.

Lemma satisfy_updateUpgradeState state :
  In state recognized_states ->
  keeps (annotations_satisfy P) (updateUpgradeState state).
Proof.
  intros H. unfold updateUpgradeState. apply satisfy_update.
  intros a. apply P_state, H.
Qed.

Lemma satisfy_cleanup state :
  In state recognized_states ->
  keeps (annotations_satisfy P) (cleanupUpgradeAnnotations state).
Proof.
  intros H. unfold cleanupUpgradeAnnotations. cbv zeta.
  apply (satisfy_modify
           (fun a => delete AnnotationCancelUpgrade
                       (delete AnnotationProceedUpgrade
                          (delete AnnotationTriggerUpgrade
                             (<[AnnotationUpgradeState := state]> a))))).
  - intros a Ha. apply (P_clean state a H Ha).
  - walk_annot.
Qed.

Ltac walk_satisfy :=
  repeat lazymatch goal with
    | |- keeps _ (bind _ _) => apply keeps_bind; [| intros ?; cbv beta zeta]
    | |- keeps _ (if ?b then _ else _) => destruct b
    | |- keeps _ (match ?x with _ => _ end) => destruct x
    | |- keeps _ (ret _) => apply keeps_ret
    | |- keeps _ (updateUpgradeState _) =>
        apply satisfy_updateUpgradeState; cbn; auto 10
    | |- keeps _ (cleanupUpgradeAnnotations _) =>
        apply satisfy_cleanup; cbn; auto 10
    | |- keeps _ (SetAnnotations _) => apply satisfy_SetAnnotations
    | |- keeps _ (updateUpgradeStateWithResults _ _) => idtac
    | |- keeps _ (handleCancellation _) => idtac
    | |- keeps _ (dispatch _ _) => idtac
    | |- keeps _ _ => apply satisfy_step; walk_annot
    end.

Lemma satisfy_handleIdleState annotations :
  keeps (annotations_satisfy P) (handleIdleState annotations).
Proof. unfold handleIdleState. walk_satisfy. Qed.

Lemma satisfy_handlePrecheckStartState annotations :
  s0 = UpgradeStatePrecheckStart ->
  keeps (annotations_satisfy P) (handlePrecheckStartState annotations).
Proof.
  intros Hs. unfold handlePrecheckStartState. walk_satisfy.
  match goal with
  | |- keeps _ (updateUpgradeStateWithResults _ ?rs) => destruct rs as [report|]
  end.
  - apply satisfy_update. intros x. apply P_report, Hs.
  - apply satisfy_update. intros x. apply P_state. cbn. auto 10.
Qed.

Lemma satisfy_handlePrecheckDoneState annotations :
  keeps (annotations_satisfy P) (handlePrecheckDoneState annotations).
Proof. unfold handlePrecheckDoneState. walk_satisfy. Qed.

Lemma satisfy_handleWaitingUserState annotations :
  keeps (annotations_satisfy P) (handleWaitingUserState annotations).
Proof. unfold handleWaitingUserState. walk_satisfy. Qed.

Lemma satisfy_handleInProgressState annotations :
  keeps (annotations_satisfy P) (handleInProgressState annotations).
Proof. unfold handleInProgressState. walk_satisfy. Qed.

Lemma satisfy_handleCancellation annotations :
  keeps (annotations_satisfy P) (handleCancellation annotations).
Proof. unfold handleCancellation. walk_satisfy. Qed.

Lemma satisfy_dispatch state annotations :
  (state = UpgradeStatePrecheckStart -> s0 = UpgradeStatePrecheckStart) ->
  keeps (annotations_satisfy P) (dispatch state annotations).
Proof.
  intros Hs. unfold dispatch.
  destruct (state =? UpgradeStateIdle); [apply satisfy_handleIdleState |].
  destruct (String.eqb_spec state UpgradeStatePrecheckStart) as [E | _];
    [apply satisfy_handlePrecheckStartState, Hs, E |].
  destruct (state =? UpgradeStatePrecheckDone);
    [apply satisfy_handlePrecheckDoneState |].
  destruct (state =? UpgradeStateWaitingUser);
    [apply satisfy_handleWaitingUserState |].
  destruct (state =? UpgradeStateInProgress);
    [apply satisfy_handleInProgressState |].
  destruct (is_final state);
    [apply satisfy_cleanup | apply satisfy_updateUpgradeState]; cbn; auto 10.
Qed.

Lemma satisfy_HandleUpgradeWorkflow w :
  state_of (obj w) = s0 ->
  annotations_satisfy P w ->
  annotations_satisfy P (snd (HandleUpgradeWorkflow w)).
Proof.
  intros Hs0 HP. unfold HandleUpgradeWorkflow.
  match goal with |- annotations_satisfy P (snd (bind GetAnnotations ?k w)) =>
    change (annotations_satisfy P (snd (k (Annotations (obj w)) w)))
  end.
  cbv beta zeta.
  match goal with |- annotations_satisfy P (snd (?rest w)) =>
    cut (keeps (annotations_satisfy P) rest); [intros K; apply K, HP |]
  end.
  walk_satisfy.
  all: lazymatch goal with
       | |- P (<[AnnotationTriggerUpgrade := "true"]> _) =>
           apply P_trigger; destruct HP as [Ho _]; exact Ho
       | |- keeps _ (handleCancellation _) => apply satisfy_handleCancellation
       | |- keeps _ (dispatch _ _) =>
           apply satisfy_dispatch; unfold state_of in Hs0;
           destruct (String.eqb_spec (get (Annotations (obj w)) AnnotationUpgradeState)
                       EmptyString);
           [discriminate | intros <-; symmetry; exact Hs0]
       end.
Qed.

Lemma satisfy_invocation w :
  state_of (persisted w) = s0 ->
  P (Annotations (persisted w)) ->
  P (Annotations (persisted (snd (invocation w)))).
Proof.
  intros Hs HP. rewrite invocation_unfold.
  apply (satisfy_HandleUpgradeWorkflow (with_obj (persisted w) w)).
  - exact Hs.
  - split; exact HP.
Qed.

End AnnotationInvariant.

(** X21.  The stored state stays known.  After an invocation, in every state
    and whatever the writes do, the state that the stored object carries is
    the one it carried before or one of the eight states the workflow
    dispatches on: the workflow never writes a state it would not recognize,
    and it never removes the state annotation. *)
Theorem stored_state_stays_known (w : World) :
  let s := state_of (persisted w) in
  let s' := state_of (persisted (snd (invocation w))) in
  (s' = s \/ In s' recognized_states) /\
  (s = EmptyString \/ In s recognized_states ->
   s' = EmptyString \/ In s' recognized_states) /\
  (is_Some (Annotations (persisted w) !! AnnotationUpgradeState) ->
   is_Some (Annotations (persisted (snd (invocation w))) !! AnnotationUpgradeState)).
Proof.
  cbn zeta.
  assert (H : state_of (persisted (snd (invocation w))) = state_of (persisted w) \/
              In (state_of (persisted (snd (invocation w)))) recognized_states).
  { apply (satisfy_invocation
             (fun a => get a AnnotationUpgradeState = state_of (persisted w) \/
                       In (get a AnnotationUpgradeState) recognized_states)
             (state_of (persisted w))).
    - intros a Ha. rewrite get_insert_ne by discriminate. exact Ha.
    - intros state a Hs _. right. rewrite get_insert_eq. exact Hs.
    - intros state a Hs _. right. rewrite get_cleaned_state. exact Hs.
    - intros _ report a _. right. rewrite get_stored_state. cbn. auto 10.
    - reflexivity.
    - left. reflexivity. }
  split; [exact H |]. split.
  - intros [E | E]; destruct H as [H | H]; auto; rewrite H; auto.
  - apply (satisfy_invocation
             (fun a => is_Some (Annotations (persisted w) !! AnnotationUpgradeState) ->
                       is_Some (a !! AnnotationUpgradeState))
             (state_of (persisted w))).
    + intros a Ha Hs. rewrite lookup_insert_ne by discriminate. auto.
    + intros state a _ _ _. rewrite lookup_insert_eq. eauto.
    + intros state a _ _ _. rewrite cleaned_state. eauto.
    + intros _ report a _ _. rewrite stored_state. eauto.
    + reflexivity.
    + auto.
Qed.

(** X22.  The stored report is kept.  No invocation removes the
    precheck-results annotation, whatever the state and whatever the writes
    do, and only an invocation in the state PrecheckStarted changes it. *)
Theorem stored_report_is_kept (w : World) :
  let a := Annotations (persisted w) in
  let a' := Annotations (persisted (snd (invocation w))) in
  (is_Some (a !! AnnotationPrecheckResults) ->
   is_Some (a' !! AnnotationPrecheckResults)) /\
  (state_of (persisted w) <> UpgradeStatePrecheckStart ->
   a' !! AnnotationPrecheckResults = a !! AnnotationPrecheckResults).
Proof.
  cbn zeta. split.
  - apply (satisfy_invocation
             (fun a => is_Some (Annotations (persisted w) !! AnnotationPrecheckResults) ->
                       is_Some (a !! AnnotationPrecheckResults))
             (state_of (persisted w))).
    + intros a Ha Hs. rewrite lookup_insert_ne by discriminate. auto.
    + intros state a _ Ha Hs. rewrite lookup_insert_ne by discriminate. auto.
    + intros state a _ Ha Hs.
      rewrite cleaned_other;
        [auto | discriminate | cbn; intros [E | [E | [E | []]]]; discriminate].
    + intros _ report a Ha Hs. unfold stored. destruct (ToJSON report).
      * rewrite lookup_insert_eq. eauto.
      * rewrite lookup_insert_ne by discriminate. auto.
    + reflexivity.
    + auto.
  - intros Hs.
    apply (satisfy_invocation
             (fun a => a !! AnnotationPrecheckResults
                       = Annotations (persisted w) !! AnnotationPrecheckResults)
             (state_of (persisted w))).
    + intros a Ha. rewrite lookup_insert_ne by discriminate. exact Ha.
    + intros state a _ Ha. rewrite lookup_insert_ne by discriminate. exact Ha.
    + intros state a _ Ha.
      rewrite cleaned_other;
        [exact Ha | discriminate | cbn; intros [E | [E | [E | []]]]; discriminate].
    + intros E. contradiction.
    + reflexivity.
    + reflexivity.
Qed.

(** X23.  The workflow never gives the approval itself.  After an invocation,
    in every state and whatever the writes do, the stored annotation
    proceed-with-upgrade is the one that was stored before or is absent, and
    so is the stored annotation cancel-upgrade: an approval or a cancellation
    that the stored object carries was put there by the user. *)
Theorem workflow_never_approves (w : World) :
  let a := Annotations (persisted w) in
  let a' := Annotations (persisted (snd (invocation w))) in
  (a' !! AnnotationProceedUpgrade = a !! AnnotationProceedUpgrade \/
   a' !! AnnotationProceedUpgrade = None) /\
  (a' !! AnnotationCancelUpgrade = a !! AnnotationCancelUpgrade \/
   a' !! AnnotationCancelUpgrade = None).
Proof.
  cbn zeta.
  assert (H : forall k, In k [AnnotationProceedUpgrade; AnnotationCancelUpgrade] ->
            Annotations (persisted (snd (invocation w))) !! k
              = Annotations (persisted w) !! k \/
            Annotations (persisted (snd (invocation w))) !! k = None).
  { intros k Hk.
    assert (Hc : In k control_signals)
      by (unfold control_signals; cbn [In] in *; tauto).
    assert (Hn : k <> AnnotationUpgradeState /\ k <> AnnotationPrecheckResults
                 /\ k <> AnnotationTriggerUpgrade)
      by (destruct Hk as [<- | [<- | []]]; repeat split; discriminate).
    destruct Hn as (N1 & N2 & N3).
    apply (satisfy_invocation
             (fun a => a !! k = Annotations (persisted w) !! k \/ a !! k = None)
             (state_of (persisted w))).
    - intros a Ha. rewrite lookup_insert_ne by congruence. exact Ha.
    - intros state a _ Ha. rewrite lookup_insert_ne by congruence. exact Ha.
    - intros state a _ _. right. apply cleaned_signals, Hc.
    - intros _ report a Ha. unfold stored. destruct (ToJSON report);
        rewrite ?lookup_insert_ne by congruence; exact Ha.
    - reflexivity.
    - left. reflexivity. }
  split; apply H; cbn; auto.
Qed.
